(** * RealTimeTranslator: the streaming pipeline, embedded and verified

    Two pipelines live in the repository:
    - [Realtime]: [realtime_translator.py], class [RealtimeTranslator]
      (Google speech recognition, googletrans, no cache, a bounded capture
      queue);
    - [Whisper]: [advanced_whisper_translator.py], class
      [WhisperRealtimeTranslator] (Whisper, deep-translator, a translation
      cache, a silence filter, unbounded queues).

    Each worker thread is a [while] loop, and the pipelines are given at
    two grains.  In [Realtime.run] and [Whisper.run] an iteration of a loop,
    guard and body together, is one step, and a run is a sequence of such
    steps in any order (every queue has one producer and one consumer, and
    [queue.Queue] serialises its operations).  In [Threads] the test of a
    guard and the iteration it lets in are two actions, so that [stop] may
    fall in between, and the end of the process, which kills the daemon
    threads, is an action too; a run of the first kind is the run of the
    second kind in which nothing happens between a guard and its iteration
    (in the Whisper pipeline, as long as the device delivers nothing after
    [stop]).
    The external engines (speech-to-text, translation, speech synthesis,
    playback, clean-up) are functions of an environment record, an
    exception being the value [None] or [false] (or a constructor of a
    result type).  Every [print] of the source appends an event to the log
    of the state; an event carries the value its message is about. *)

From Stdlib Require Import ZArith QArith Qabs Qminmax Lia.
From stdpp Require Import base list sorting strings gmap.

Close Scope Q_scope.
Open Scope Z_scope.
Open Scope nat_scope.

(** ** [queue.Queue] *)

Module PyQueue.

(** [queue.Queue(maxsize)]: a FIFO of items; [maxsize <= 0] means that the
    queue is unbounded. *)
Record Queue (A : Type) : Type := mkQueue {
  maxsize : Z;
  items : list A
}.
Arguments mkQueue {A} _ _.
Arguments maxsize {A} _.
Arguments items {A} _.

Section Ops.
Context {A : Type}.

Definition new (m : Z) : Queue A := mkQueue m [].

Definition qsize (q : Queue A) : Z := Z.of_nat (length (items q)).

(** [Queue.empty()] *)
Definition empty (q : Queue A) : bool :=
  match items q with [] => true | _ :: _ => false end.

(** [Queue.full()]: [0 < self.maxsize <= self._qsize()] *)
Definition full (q : Queue A) : bool :=
  (0 <? maxsize q)%Z && (maxsize q <=? qsize q)%Z.

(** [Queue.put_nowait(x)]: [None] is the exception [queue.Full]. *)
Definition put_nowait (q : Queue A) (x : A) : option (Queue A) :=
  if full q then None else Some (mkQueue (maxsize q) (items q ++ [x])).

(** [Queue.put(x)], blocking and without timeout: [None] means that the
    caller is suspended because the queue is full. *)
Definition put (q : Queue A) (x : A) : option (Queue A) :=
  if full q then None else Some (mkQueue (maxsize q) (items q ++ [x])).

(** [Queue.get(timeout=1)]: [None] is the exception [queue.Empty] raised
    when the timeout expires. *)
Definition get (q : Queue A) : option (A * Queue A) :=
  match items q with
  | [] => None
  | x :: l => Some (x, mkQueue (maxsize q) l)
  end.
End Ops.

End PyQueue.

(** ** [str.strip] *)

Module PyStr.

(** [str.isspace]; a character of a string is read as a code point below
    256.  In that range the whitespace characters of Python are tab, line
    feed, vertical tab, form feed, carriage return, the separators
    0x1c-0x1f, space, NEL (0x85) and the no-break space (0xa0). *)
Definition isspace (c : Ascii.ascii) : bool :=
  let n := Ascii.nat_of_ascii c in
  ((9 <=? n) && (n <=? 13)) || ((28 <=? n) && (n <=? 32))
  || (n =? 133) || (n =? 160).

Fixpoint lstrip_chars (l : list Ascii.ascii) : list Ascii.ascii :=
  match l with
  | [] => []
  | c :: l' => if isspace c then lstrip_chars l' else l
  end.

Definition rstrip_chars (l : list Ascii.ascii) : list Ascii.ascii :=
  rev (lstrip_chars (rev l)).

Definition strip_chars (l : list Ascii.ascii) : list Ascii.ascii :=
  rstrip_chars (lstrip_chars l).

(** [s.strip()] *)
Definition strip (s : string) : string :=
  String.string_of_list_ascii (strip_chars (String.list_ascii_of_string s)).

(** Every character of [s] is whitespace ([s] may be empty). *)
Definition whitespace_only (s : string) : bool :=
  forallb isspace (String.list_ascii_of_string s).

(** Python truthiness of a string: [if text:]. *)
Definition truthy (s : string) : bool :=
  match s with EmptyString => false | String _ _ => true end.

End PyStr.

Import PyQueue.

(** ** [realtime_translator.py] *)

Module Realtime.

Definition bytes := list Byte.byte.

(** [sr.AudioData(frame_data, sample_rate, sample_width)] *)
Record AudioData : Type := mkAudioData {
  frame_data : bytes;
  sample_rate : Z;
  sample_width : Z
}.

(** Outcome of [Recognizer.recognize_google]. *)
Inductive RecResult : Type :=
| RecText (text : string)
| UnknownValueError
| RequestError
| RecError.

(** The external collaborators.  [None] and [false] stand for a raised
    exception.  [gTTS] is the construction of the [gTTS] object and
    [tts.save] into the temporary file; [play] is
    [pygame.mixer.music.load], [play] and the wait for the end of the
    playback, after which the utterance has been heard; [cleanup] is
    [pygame.mixer.music.unload] and [os.unlink]. *)
Record Env : Type := mkEnv {
  recognize_google : AudioData -> string -> RecResult;
  translate : string -> string -> string -> option string;
  gTTS : string -> string -> option bytes;
  play : bytes -> bool;
  cleanup : bytes -> bool
}.

(** The arguments of [__init__]. *)
Record Config : Type := mkConfig {
  source_lang : string;
  target_lang : string;
  chunk_duration : Z
}.

Definition RATE : Z := 16000.
Definition CHUNK : Z := 1024.
Definition AUDIO_QUEUE_MAXSIZE : Z := 10.

(** One constructor per [print] of the four workers. *)
Inductive Event : Type :=
| ChunkCaptured (n : nat) (a : AudioData)
| QueueFullSkip (n : nat) (a : AudioData)
| Recognizing
| YouSaid (text : string)
| CouldNotUnderstand
| RecognitionApiError
| RecognitionError
| Translating (text : string)
| Translation (translated : string)
| TranslationError
| Speaking (text : string)
| SpeechComplete
| SpeechError.

Record State : Type := mkState {
  is_running : bool;
  audio_frames : list bytes;
  chunk_number : nat;
  audio_queue : Queue AudioData;
  text_queue : Queue string;
  translation_queue : Queue string;
  log : list Event;
  played : list bytes
}.

Definition set_is_running (b : bool) (s : State) : State :=
  mkState b (audio_frames s) (chunk_number s) (audio_queue s)
          (text_queue s) (translation_queue s) (log s) (played s).
Definition set_audio_frames (f : list bytes) (s : State) : State :=
  mkState (is_running s) f (chunk_number s) (audio_queue s)
          (text_queue s) (translation_queue s) (log s) (played s).
Definition set_chunk_number (n : nat) (s : State) : State :=
  mkState (is_running s) (audio_frames s) n (audio_queue s)
          (text_queue s) (translation_queue s) (log s) (played s).
Definition set_audio_queue (q : Queue AudioData) (s : State) : State :=
  mkState (is_running s) (audio_frames s) (chunk_number s) q
          (text_queue s) (translation_queue s) (log s) (played s).
Definition set_text_queue (q : Queue string) (s : State) : State :=
  mkState (is_running s) (audio_frames s) (chunk_number s) (audio_queue s)
          q (translation_queue s) (log s) (played s).
Definition set_translation_queue (q : Queue string) (s : State) : State :=
  mkState (is_running s) (audio_frames s) (chunk_number s) (audio_queue s)
          (text_queue s) q (log s) (played s).
Definition emit (ev : Event) (s : State) : State :=
  mkState (is_running s) (audio_frames s) (chunk_number s) (audio_queue s)
          (text_queue s) (translation_queue s) (log s ++ [ev]) (played s).
Definition add_played (a : bytes) (s : State) : State :=
  mkState (is_running s) (audio_frames s) (chunk_number s) (audio_queue s)
          (text_queue s) (translation_queue s) (log s) (played s ++ [a]).

(** [__init__] *)
Definition init : State :=
  mkState false [] 0 (new AUDIO_QUEUE_MAXSIZE) (new 0) (new 0) [] [].

(** [start] sets the flag and launches the four threads.  [stop] clears
    the flag; it then sleeps for three seconds and returns, after which
    the program ends.  What the threads do in the meantime and the end of
    the process are actions of [Threads] below. *)
Definition start (s : State) : State := set_is_running true s.
Definition stop (s : State) : State := set_is_running false s.

(** [audio_callback] *)
Definition audio_callback (in_data : bytes) (s : State) : State :=
  if is_running s then set_audio_frames (audio_frames s ++ [in_data]) s
  else s.

(** Body of the loop of [continuous_audio_capture]. *)
Definition capture_body (s : State) : State :=
  match audio_frames s with
  | [] => s
  | _ :: _ =>
      let n := S (chunk_number s) in
      let audio_chunk := concat (audio_frames s) in
      let s1 := set_audio_frames [] (set_chunk_number n s) in
      match audio_chunk with
      | [] => s1
      | _ :: _ =>
          let audio_data := mkAudioData audio_chunk RATE 2 in
          match put_nowait (audio_queue s1) audio_data with
          | Some q => emit (ChunkCaptured n audio_data) (set_audio_queue q s1)
          | None => emit (QueueFullSkip n audio_data) s1
          end
      end
  end.

(** [while self.is_running: ...], guard and body in one step; once the
    guard fails the thread has left its loop for good. *)
Definition continuous_audio_capture (s : State) : State :=
  if is_running s then capture_body s else s.

Section Workers.
Variable env : Env.
Variable cfg : Config.

(** Body of the loop of [recognize_speech].  A [put] that would block
    leaves the iteration unfinished: the state is the one before it. *)
Definition recognize_body (s : State) : State :=
  match get (audio_queue s) with
  | None => s
  | Some (audio_data, q) =>
      let s1 := emit Recognizing (set_audio_queue q s) in
      match recognize_google env audio_data (source_lang cfg) with
      | RecText text =>
          if PyStr.truthy text then
            match put (text_queue s1) text with
            | Some q' => set_text_queue q' (emit (YouSaid text) s1)
            | None => s
            end
          else s1
      | UnknownValueError => emit CouldNotUnderstand s1
      | RequestError => emit RecognitionApiError s1
      | RecError => emit RecognitionError s1
      end
  end.

Definition recognize_speech (s : State) : State :=
  if is_running s then recognize_body s else s.

(** Body of the loop of [translate_text]. *)
Definition translate_body (s : State) : State :=
  match get (text_queue s) with
  | None => s
  | Some (text, q) =>
      let s1 := emit (Translating text) (set_text_queue q s) in
      match translate env text (source_lang cfg) (target_lang cfg) with
      | Some translated_text =>
          match put (translation_queue s1) translated_text with
          | Some q' =>
              set_translation_queue q' (emit (Translation translated_text) s1)
          | None => s
          end
      | None => emit TranslationError s1
      end
  end.

Definition translate_text (s : State) : State :=
  if is_running s then translate_body s else s.

(** Guard of the loop of [speak_translation]. *)
Definition speak_guard (s : State) : bool :=
  is_running s || negb (empty (translation_queue s)).

(** Body of the loop of [speak_translation]; [played] lists the utterances
    whose playback has come to its end, whether or not the clean-up after
    it succeeds. *)
Definition speak_body (s : State) : State :=
  match get (translation_queue s) with
  | None => s
  | Some (text, q) =>
      let s1 := emit (Speaking text) (set_translation_queue q s) in
      match gTTS env text (target_lang cfg) with
      | Some audio =>
          if play env audio then
            let s2 := add_played audio s1 in
            if cleanup env audio then emit SpeechComplete s2
            else emit SpeechError s2
          else emit SpeechError s1
      | None => emit SpeechError s1
      end
  end.

Definition speak_translation (s : State) : State :=
  if speak_guard s then speak_body s else s.

(** What may happen next: the audio device delivers a buffer, one of
    the four threads runs one iteration, or [stop] is called. *)
Inductive Action : Type :=
| AudioCallback (in_data : bytes)
| AudioCapture
| Recognizer
| Translator
| Speaker
| Stop.

Definition step (s : State) (a : Action) : State :=
  match a with
  | AudioCallback in_data => audio_callback in_data s
  | AudioCapture => continuous_audio_capture s
  | Recognizer => recognize_speech s
  | Translator => translate_text s
  | Speaker => speak_translation s
  | Stop => stop s
  end.

Definition run (sched : list Action) (s : State) : State :=
  fold_left step sched s.

(** The state right after [start]. *)
Definition started : State := start init.

(** What each stage makes of one item when it gets to process it. *)
Definition stt_out (a : AudioData) : option string :=
  match recognize_google env a (source_lang cfg) with
  | RecText text => if PyStr.truthy text then Some text else None
  | _ => None
  end.

Definition mt_out (text : string) : option string :=
  translate env text (source_lang cfg) (target_lang cfg).

Definition tts_out (text : string) : option bytes :=
  match gTTS env text (target_lang cfg) with
  | Some audio => if play env audio then Some audio else None
  | None => None
  end.
End Workers.

(** Readings of the log. *)
Definition accepted_of (ev : Event) : option AudioData :=
  match ev with ChunkCaptured _ a => Some a | _ => None end.
Definition produced_of (ev : Event) : option AudioData :=
  match ev with
  | ChunkCaptured _ a | QueueFullSkip _ a => Some a
  | _ => None
  end.
Definition number_of (ev : Event) : option nat :=
  match ev with
  | ChunkCaptured n _ | QueueFullSkip n _ => Some n
  | _ => None
  end.
Definition dropped_of (ev : Event) : option AudioData :=
  match ev with QueueFullSkip _ a => Some a | _ => None end.
Definition transcript_of (ev : Event) : option string :=
  match ev with YouSaid t => Some t | _ => None end.
Definition engine_call_of (ev : Event) : option string :=
  match ev with Translating t => Some t | _ => None end.
Definition translation_of (ev : Event) : option string :=
  match ev with Translation t => Some t | _ => None end.
Definition spoken_of (ev : Event) : option string :=
  match ev with Speaking t => Some t | _ => None end.

(** Chunks built by the Capturer, chunks it managed to enqueue, chunks it
    dropped, and the numbers it printed for them. *)
Definition produced (s : State) : list AudioData := omap produced_of (log s).
Definition accepted (s : State) : list AudioData := omap accepted_of (log s).
Definition dropped (s : State) : list AudioData := omap dropped_of (log s).
Definition chunk_numbers (s : State) : list nat := omap number_of (log s).
(** Texts put on the text queue, texts sent to the translation engine,
    translations put on the translation queue, texts handed to the
    speech synthesis. *)
Definition transcripts (s : State) : list string := omap transcript_of (log s).
Definition engine_calls (s : State) : list string := omap engine_call_of (log s).
Definition translations (s : State) : list string := omap translation_of (log s).
Definition spoken (s : State) : list string := omap spoken_of (log s).

(** No item is in flight between two stages. *)
Definition quiescent (s : State) : Prop :=
  items (audio_queue s) = [] /\ items (text_queue s) = [] /\
  items (translation_queue s) = [].

(** Enough iterations of the three consumers, stage after stage, to work
    off everything that is queued in [s]. *)
Definition drain_schedule (s : State) : list Action :=
  let a := length (items (audio_queue s)) in
  let t := length (items (text_queue s)) in
  let u := length (items (translation_queue s)) in
  replicate a Recognizer ++ replicate (a + t) Translator ++
  replicate (a + t + u) Speaker.

(** The invariant of the pipeline: the capacities of the queues, and for
    each stage, that what it has put out followed by what its input queue
    still holds is the image of what the stage before it has put out. *)
Record Inv (env : Env) (cfg : Config) (s : State) : Prop := mkInv {
  inv_audio_max : maxsize (audio_queue s) = AUDIO_QUEUE_MAXSIZE;
  inv_audio_len : (qsize (audio_queue s) <= AUDIO_QUEUE_MAXSIZE)%Z;
  inv_text_max : maxsize (text_queue s) = 0%Z;
  inv_translation_max : maxsize (translation_queue s) = 0%Z;
  inv_transcripts :
    transcripts s ++ omap (stt_out env cfg) (items (audio_queue s))
    = omap (stt_out env cfg) (accepted s);
  inv_calls : engine_calls s ++ items (text_queue s) = transcripts s;
  inv_translations :
    translations s ++ omap (mt_out env cfg) (items (text_queue s))
    = omap (mt_out env cfg) (transcripts s);
  inv_spoken : spoken s ++ items (translation_queue s) = translations s;
  inv_played :
    played s ++ omap (tts_out env cfg) (items (translation_queue s))
    = omap (tts_out env cfg) (translations s);
  inv_numbers_bound : Forall (fun n => n <= chunk_number s) (chunk_numbers s);
  inv_numbers_sorted : StronglySorted lt (chunk_numbers s)
}.

(** One output per chunk at every stage, in the order of the chunks. *)
Definition no_loss (env : Env) (cfg : Config) (s : State) : Prop :=
  length (transcripts s) = length (produced s) /\
  length (translations s) = length (produced s) /\
  length (played s) = length (produced s) /\
  transcripts s = omap (stt_out env cfg) (produced s) /\
  translations s = omap (mt_out env cfg) (transcripts s) /\
  played s = omap (tts_out env cfg) (translations s).

(** The engines carry the chunk [a] through the pipeline: each of the three
    calls the chunk gives rise to succeeds, the speech-to-text engine with a
    text that is kept. *)
Definition carried (env : Env) (cfg : Config) (a : AudioData) : Prop :=
  exists t u v, stt_out env cfg a = Some t /\ mt_out env cfg t = Some u /\
                tts_out env cfg u = Some v.

End Realtime.

(** ** [advanced_whisper_translator.py] *)

Module Whisper.

Definition bytes := list Byte.byte.

(** A chunk is a [float32] array; a sample is modelled by the rational
    number it denotes (no NaN, no infinity). *)
Definition AudioChunk := list Q.

(** The external collaborators.  [whisper_transcribe] is
    [self.whisper_model.transcribe(...)['text']]; [None] and [false] stand
    for a raised exception.  [gTTS] is the construction of the [gTTS]
    object and [tts.save] into the temporary file; [play] is
    [pygame.mixer.music.load], [play] and the wait for the end of the
    playback, after which the utterance has been heard; [cleanup] is
    [pygame.mixer.music.unload] and [os.unlink]. *)
Record Env : Type := mkEnv {
  whisper_transcribe : AudioChunk -> string -> option string;
  translate : string -> string -> string -> option string;
  gTTS : string -> string -> option bytes;
  play : bytes -> bool;
  cleanup : bytes -> bool
}.

(** The arguments of [__init__]. *)
Record Config : Type := mkConfig {
  source_lang : string;
  target_lang : string;
  chunk_duration : Z;
  sample_rate : Z
}.

(** [0.01], the literal of [record_audio_chunk]. *)
Definition SILENCE_THRESHOLD : Q := (1 # 100)%Q.

(** [x > y] on samples. *)
Definition Qgtb (x y : Q) : bool := negb (Qle_bool x y).

(** [np.abs(a)] and [a.max()]; [None] is the [ValueError] of an empty
    array. *)
Definition np_abs (a : AudioChunk) : AudioChunk := map Qabs a.
Definition np_max (a : AudioChunk) : option Q :=
  match a with
  | [] => None
  | x :: a' => Some (fold_left Qmax a' x)
  end.

(** [np.abs(audio_chunk).max() > 0.01] *)
Definition is_speech (audio_chunk : AudioChunk) : bool :=
  match np_max (np_abs audio_chunk) with
  | Some peak => Qgtb peak SILENCE_THRESHOLD
  | None => false
  end.

(** [deque(maxlen=n).extend(xs)]: the oldest items fall off the left. *)
Definition deque_extend (maxlen : nat) (buf xs : list Q) : list Q :=
  let l := buf ++ xs in drop (length l - maxlen) l.

Inductive Event : Type :=
| AudioChunkCaptured (chunk : AudioChunk)
| Transcribing
| Transcribed (text : string)
| NoSpeechDetected
| TranscriptionError
| FromCache (translated : string)
| Translating (text : string)
| Translation (translated : string)
| TranslationError
| Speaking (text : string)
| SpeechComplete
| SpeechError.

Record State : Type := mkState {
  is_running : bool;
  audio_buffer : list Q;
  audio_queue : Queue AudioChunk;
  text_queue : Queue string;
  translation_queue : Queue string;
  translation_cache : gmap string string;
  log : list Event;
  played : list bytes
}.

Definition set_is_running (b : bool) (s : State) : State :=
  mkState b (audio_buffer s) (audio_queue s) (text_queue s)
          (translation_queue s) (translation_cache s) (log s) (played s).
Definition set_audio_buffer (b : list Q) (s : State) : State :=
  mkState (is_running s) b (audio_queue s) (text_queue s)
          (translation_queue s) (translation_cache s) (log s) (played s).
Definition set_audio_queue (q : Queue AudioChunk) (s : State) : State :=
  mkState (is_running s) (audio_buffer s) q (text_queue s)
          (translation_queue s) (translation_cache s) (log s) (played s).
Definition set_text_queue (q : Queue string) (s : State) : State :=
  mkState (is_running s) (audio_buffer s) (audio_queue s) q
          (translation_queue s) (translation_cache s) (log s) (played s).
Definition set_translation_queue (q : Queue string) (s : State) : State :=
  mkState (is_running s) (audio_buffer s) (audio_queue s) (text_queue s)
          q (translation_cache s) (log s) (played s).
Definition set_translation_cache (c : gmap string string) (s : State) : State :=
  mkState (is_running s) (audio_buffer s) (audio_queue s) (text_queue s)
          (translation_queue s) c (log s) (played s).
Definition emit (ev : Event) (s : State) : State :=
  mkState (is_running s) (audio_buffer s) (audio_queue s) (text_queue s)
          (translation_queue s) (translation_cache s) (log s ++ [ev]) (played s).
Definition add_played (a : bytes) (s : State) : State :=
  mkState (is_running s) (audio_buffer s) (audio_queue s) (text_queue s)
          (translation_queue s) (translation_cache s) (log s) (played s ++ [a]).

(** [__init__] *)
Definition init : State :=
  mkState false [] (new 0) (new 0) (new 0) ∅ [] [].

(** [start] sets the flag and launches the four threads.  [stop] clears
    the flag; it then sleeps for two seconds and returns, after which the
    program ends.  What the threads do in the meantime and the end of the
    process are actions of [Threads] below. *)
Definition start (s : State) : State := set_is_running true s.
Definition stop (s : State) : State := set_is_running false s.

Section Workers.
Variable env : Env.
Variable cfg : Config.

(** [int(sample_rate * chunk_duration)], the [maxlen] of the buffer. *)
Definition buffer_maxlen : nat :=
  Z.to_nat (sample_rate cfg * chunk_duration cfg).

(** The stream callback of [record_audio_chunk]. *)
Definition audio_callback (indata : list Q) (s : State) : State :=
  set_audio_buffer (deque_extend buffer_maxlen (audio_buffer s) indata) s.

(** Body of the loop of [record_audio_chunk].  A [put] that would block
    leaves the iteration unfinished: the state is the one before it. *)
Definition record_body (s : State) : State :=
  match audio_buffer s with
  | [] => s
  | _ :: _ =>
      let audio_chunk := audio_buffer s in
      if is_speech audio_chunk then
        match put (audio_queue s) audio_chunk with
        | Some q =>
            set_audio_buffer []
              (set_audio_queue q (emit (AudioChunkCaptured audio_chunk) s))
        | None => s
        end
      else set_audio_buffer [] s
  end.

Definition record_audio_chunk (s : State) : State :=
  if is_running s then record_body s else s.

(** Body of the loop of [transcribe_audio]. *)
Definition transcribe_body (s : State) : State :=
  match get (audio_queue s) with
  | None => s
  | Some (audio_chunk, q) =>
      let s1 := emit Transcribing (set_audio_queue q s) in
      match whisper_transcribe env audio_chunk (source_lang cfg) with
      | Some raw =>
          let text := PyStr.strip raw in
          if PyStr.truthy text then
            match put (text_queue s1) text with
            | Some q' => set_text_queue q' (emit (Transcribed text) s1)
            | None => s
            end
          else emit NoSpeechDetected s1
      | None => emit TranscriptionError s1
      end
  end.

Definition transcribe_audio (s : State) : State :=
  if is_running s then transcribe_body s else s.

(** Body of the loop of [translate_text]. *)
Definition translate_body (s : State) : State :=
  match get (text_queue s) with
  | None => s
  | Some (text, q) =>
      let s1 := set_text_queue q s in
      match translation_cache s1 !! text with
      | Some translated_text =>
          match put (translation_queue s1) translated_text with
          | Some q' =>
              set_translation_queue q' (emit (FromCache translated_text) s1)
          | None => s
          end
      | None =>
          let s2 := emit (Translating text) s1 in
          match translate env text (source_lang cfg) (target_lang cfg) with
          | Some translated_text =>
              let s3 :=
                emit (Translation translated_text)
                  (set_translation_cache
                     (<[text := translated_text]> (translation_cache s2)) s2) in
              match put (translation_queue s3) translated_text with
              | Some q' => set_translation_queue q' s3
              | None => s
              end
          | None => emit TranslationError s2
          end
      end
  end.

Definition translate_text (s : State) : State :=
  if is_running s then translate_body s else s.

(** Guard of the loop of [speak_translation]. *)
Definition speak_guard (s : State) : bool :=
  is_running s || negb (empty (translation_queue s)).

(** Body of the loop of [speak_translation]; [played] lists the utterances
    whose playback has come to its end, whether or not the clean-up after
    it succeeds. *)
Definition speak_body (s : State) : State :=
  match get (translation_queue s) with
  | None => s
  | Some (text, q) =>
      let s1 := emit (Speaking text) (set_translation_queue q s) in
      match gTTS env text (target_lang cfg) with
      | Some audio =>
          if play env audio then
            let s2 := add_played audio s1 in
            if cleanup env audio then emit SpeechComplete s2
            else emit SpeechError s2
          else emit SpeechError s1
      | None => emit SpeechError s1
      end
  end.

Definition speak_translation (s : State) : State :=
  if speak_guard s then speak_body s else s.

Inductive Action : Type :=
| AudioCallback (indata : list Q)
| Recorder
| Transcriber
| Translator
| Speaker
| Stop.

Definition step (s : State) (a : Action) : State :=
  match a with
  | AudioCallback indata => audio_callback indata s
  | Recorder => record_audio_chunk s
  | Transcriber => transcribe_audio s
  | Translator => translate_text s
  | Speaker => speak_translation s
  | Stop => stop s
  end.

Definition run (sched : list Action) (s : State) : State :=
  fold_left step sched s.

Definition started : State := start init.

(** What each stage makes of one item when it gets to process it. *)
Definition stt_out (a : AudioChunk) : option string :=
  match whisper_transcribe env a (source_lang cfg) with
  | Some raw =>
      if PyStr.truthy (PyStr.strip raw) then Some (PyStr.strip raw) else None
  | None => None
  end.

Definition mt_out (text : string) : option string :=
  translate env text (source_lang cfg) (target_lang cfg).

Definition tts_out (text : string) : option bytes :=
  match gTTS env text (target_lang cfg) with
  | Some audio => if play env audio then Some audio else None
  | None => None
  end.
End Workers.

(** Readings of the log. *)
Definition accepted_of (ev : Event) : option AudioChunk :=
  match ev with AudioChunkCaptured a => Some a | _ => None end.
Definition transcript_of (ev : Event) : option string :=
  match ev with Transcribed t => Some t | _ => None end.
Definition engine_call_of (ev : Event) : option string :=
  match ev with Translating t => Some t | _ => None end.
Definition translation_of (ev : Event) : option string :=
  match ev with Translation t | FromCache t => Some t | _ => None end.
Definition spoken_of (ev : Event) : option string :=
  match ev with Speaking t => Some t | _ => None end.

(** Chunks put on the audio queue, texts put on the text queue, texts
    sent to the translation engine, translations put on the translation
    queue, texts handed to the speech synthesis. *)
Definition accepted (s : State) : list AudioChunk := omap accepted_of (log s).
Definition transcripts (s : State) : list string := omap transcript_of (log s).
Definition engine_calls (s : State) : list string := omap engine_call_of (log s).
Definition translations (s : State) : list string := omap translation_of (log s).
Definition spoken (s : State) : list string := omap spoken_of (log s).

(** No item is in flight between two stages. *)
Definition quiescent (s : State) : Prop :=
  items (audio_queue s) = [] /\ items (text_queue s) = [] /\
  items (translation_queue s) = [].

(** Enough iterations of the three consumers, stage after stage, to work
    off everything that is queued in [s]. *)
Definition drain_schedule (s : State) : list Action :=
  let a := length (items (audio_queue s)) in
  let t := length (items (text_queue s)) in
  let u := length (items (translation_queue s)) in
  replicate a Transcriber ++ replicate (a + t) Translator ++
  replicate (a + t + u) Speaker.

(** The invariant of the pipeline: the queues are unbounded, the cache
    holds results of the engine only, and for each stage, what it has put
    out followed by what its input queue still holds is the image of what
    the stage before it has put out. *)
Record Inv (env : Env) (cfg : Config) (s : State) : Prop := mkInv {
  inv_audio_max : maxsize (audio_queue s) = 0%Z;
  inv_text_max : maxsize (text_queue s) = 0%Z;
  inv_translation_max : maxsize (translation_queue s) = 0%Z;
  inv_speech : Forall (fun a => is_speech a = true) (accepted s);
  inv_transcripts :
    transcripts s ++ omap (stt_out env cfg) (items (audio_queue s))
    = omap (stt_out env cfg) (accepted s);
  inv_cache :
    forall t v, translation_cache s !! t = Some v -> mt_out env cfg t = Some v;
  inv_translations :
    translations s ++ omap (mt_out env cfg) (items (text_queue s))
    = omap (mt_out env cfg) (transcripts s);
  inv_spoken : spoken s ++ items (translation_queue s) = translations s;
  inv_played :
    played s ++ omap (tts_out env cfg) (items (translation_queue s))
    = omap (tts_out env cfg) (translations s)
}.

(** One output per chunk at every stage, in the order of the chunks. *)
Definition no_loss (env : Env) (cfg : Config) (s : State) : Prop :=
  length (transcripts s) = length (accepted s) /\
  length (translations s) = length (accepted s) /\
  length (played s) = length (accepted s) /\
  transcripts s = omap (stt_out env cfg) (accepted s) /\
  translations s = omap (mt_out env cfg) (transcripts s) /\
  played s = omap (tts_out env cfg) (translations s).

(** The engines carry the chunk [a] through the pipeline: each of the calls
    the chunk gives rise to succeeds, Whisper with a text that is not
    blank. *)
Definition carried (env : Env) (cfg : Config) (a : AudioChunk) : Prop :=
  exists t u v, stt_out env cfg a = Some t /\ mt_out env cfg t = Some u /\
                tts_out env cfg u = Some v.

End Whisper.


(** ** Well-formedness of what travels through the queues *)

Module RealtimeMore.
Import Realtime.

(** An [AudioData] as [continuous_audio_capture] builds it. *)
Definition good_audio (a : AudioData) : Prop :=
  frame_data a <> [] /\ sample_rate a = RATE /\ sample_width a = 2%Z.

Record Wf (s : State) : Prop := mkWf {
  wf_queued_audio : Forall good_audio (items (audio_queue s));
  wf_produced : Forall good_audio (produced s);
  wf_queued_texts : Forall (fun t => t <> EmptyString) (items (text_queue s));
  wf_transcripts : Forall (fun t => t <> EmptyString) (transcripts s);
  wf_numbers : Forall (fun n => 1 <= n) (chunk_numbers s)
}.



End RealtimeMore.

Module WhisperMore.
Import Whisper.

(** A chunk as [record_audio_chunk] enqueues it. *)
Definition good_chunk (cfg : Config) (a : AudioChunk) : Prop :=
  a <> [] /\ is_speech a = true /\ length a <= buffer_maxlen cfg.

(** A text as [transcribe_audio] enqueues it. *)
Definition good_text (t : string) : Prop :=
  t <> EmptyString /\ PyStr.strip t = t.

Record Wf (env : Env) (cfg : Config) (s : State) : Prop := mkWf {
  wf_buffer : length (audio_buffer s) <= buffer_maxlen cfg;
  wf_queued_chunks : Forall (good_chunk cfg) (items (audio_queue s));
  wf_accepted : Forall (good_chunk cfg) (accepted s);
  wf_queued_texts : Forall good_text (items (text_queue s));
  wf_transcripts : Forall good_text (transcripts s);
  wf_queued_known :
    Forall (fun t => t ∈ transcripts s) (items (text_queue s));
  wf_calls_known : Forall (fun t => t ∈ transcripts s) (engine_calls s);
  wf_keys_called :
    forall t, is_Some (translation_cache s !! t) -> t ∈ engine_calls s;
  wf_size : size (translation_cache s) <= length (engine_calls s);
  wf_once :
    forall t, is_Some (mt_out env cfg t) ->
      (translation_cache s !! t = None -> t ∉ engine_calls s) /\
      length (filter (eq t) (engine_calls s)) <= 1
}.

End WhisperMore.

(** ** More of [str] *)

Module PyText.

(** [str.lower] on a code point below 256: the capital letters are
    [A]-[Z], 0xc0-0xd6 and 0xd8-0xde, each 32 below its small letter. *)
Definition lower_char (c : Ascii.ascii) : Ascii.ascii :=
  let n := Ascii.nat_of_ascii c in
  if ((65 <=? n) && (n <=? 90)) || ((192 <=? n) && (n <=? 214))
     || ((216 <=? n) && (n <=? 222))
  then Ascii.ascii_of_nat (n + 32) else c.

Definition lower (s : string) : string :=
  String.string_of_list_ascii (map lower_char (String.list_ascii_of_string s)).

(** [str.isdigit]: below 256 the digits are [0]-[9] and the superscripts
    two, three (0xb2, 0xb3) and one (0xb9); the empty string has none. *)
Definition isdigit_char (c : Ascii.ascii) : bool :=
  let n := Ascii.nat_of_ascii c in
  ((48 <=? n) && (n <=? 57)) || (n =? 178) || (n =? 179) || (n =? 185).

Definition isdigit (s : string) : bool :=
  match String.list_ascii_of_string s with
  | [] => false
  | l => forallb isdigit_char l
  end.

(** [s.split(sep)] for a separator of one character: never an empty list. *)
Fixpoint split_chars (sep : Ascii.ascii) (l : list Ascii.ascii)
  : list (list Ascii.ascii) :=
  match l with
  | [] => [[]]
  | c :: l' =>
      if Ascii.eqb c sep then [] :: split_chars sep l'
      else match split_chars sep l' with
           | p :: ps => (c :: p) :: ps
           | [] => [[c]]
           end
  end.

Fixpoint lstrip_char (x : Ascii.ascii) (l : list Ascii.ascii)
  : list Ascii.ascii :=
  match l with
  | [] => []
  | c :: l' => if Ascii.eqb c x then lstrip_char x l' else l
  end.

(** [s.rstrip(x)] for a set of one character. *)
Definition rstrip_char (x : Ascii.ascii) (l : list Ascii.ascii)
  : list Ascii.ascii :=
  rev (lstrip_char x (rev l)).

End PyText.

(** ** The command line of [realtime_translator.py] *)

Module Cli.

(** What [input()] does next: it returns a line, or the user presses
    Ctrl+C.  When the list is used up, standard input is at its end and
    [input()] raises [EOFError]. *)
Inductive Input : Type :=
| Line (s : string)
| KeyboardInterrupt.

(** How a function that reads from the user ends: it returns and leaves
    the rest of the input, it calls [exit(0)], it never returns, or it
    lets [EOFError] escape. *)
Inductive Outcome (A : Type) : Type :=
| Returned (a : A) (rest : list Input)
| Exited
| Loops
| RaisesEOFError.
Arguments Returned {A} _ _.
Arguments Exited {A}.
Arguments Loops {A}.
Arguments RaisesEOFError {A}.

(** [LANGUAGES] of [main], in insertion order. *)
Definition LANGUAGES : list (string * string) :=
  [("English", "en"); ("Spanish", "es"); ("French", "fr"); ("German", "de");
   ("Italian", "it"); ("Portuguese", "pt"); ("Russian", "ru");
   ("Japanese", "ja"); ("Korean", "ko"); ("Chinese", "zh-CN");
   ("Arabic", "ar"); ("Hindi", "hi"); ("Bengali", "bn"); ("Dutch", "nl");
   ("Turkish", "tr"); ("Vietnamese", "vi"); ("Thai", "th"); ("Polish", "pl");
   ("Swedish", "sv"); ("Greek", "el"); ("Hebrew", "he");
   ("Indonesian", "id"); ("Malay", "ms"); ("Urdu", "ur")]%string.

Section WithInt.
(** The builtin [int] on a string; [None] is [ValueError]. *)
Variable py_int : string -> option Z.

(** One turn of the loop of [select_language] on the stripped, lower-cased
    line: the code selected, or [None] when the loop goes round again (an
    error message is printed, or the [ValueError] of [int] is caught by
    [except Exception]). *)
Definition pick (language_dict : list (string * string)) (choice : string)
  : option string :=
  let languages := language_dict in
  if PyText.isdigit choice then
    match py_int choice with
    | Some n =>
        let idx := (n - 1)%Z in
        if (0 <=? idx)%Z && (idx <? Z.of_nat (length languages))%Z
        then snd <$> languages !! Z.to_nat idx
        else None
    | None => None
    end
  else if bool_decide (choice ∈ language_dict.*2) then Some choice
  else None.

(** An input on which the loop of [select_language] goes round again: a
    line that selects nothing. *)
Definition rejected (language_dict : list (string * string)) (i : Input)
  : Prop :=
  match i with
  | Line l => pick language_dict (PyText.lower (PyStr.strip l)) = None
  | KeyboardInterrupt => False
  end.

(** [select_language]: [KeyboardInterrupt] leads to [exit(0)]; at the end of
    the input the [EOFError] of [input()] is caught by [except Exception]
    time and again. *)
Fixpoint select_language (language_dict : list (string * string))
    (inputs : list Input) : Outcome string :=
  match inputs with
  | [] => Loops
  | KeyboardInterrupt :: _ => Exited
  | Line l :: rest =>
      match pick language_dict (PyText.lower (PyStr.strip l)) with
      | Some code => Returned code rest
      | None => select_language language_dict rest
      end
  end.

(** A line that settles the chunk duration [d]: a blank line stands for 3,
    any other line must read as a number from 2 to 5. *)
Definition settles (l : string) (d : Z) : Prop :=
  (PyStr.strip l = EmptyString /\ d = 3%Z) \/
  (PyStr.strip l <> EmptyString /\ py_int (PyStr.strip l) = Some d /\
   (2 <= d <= 5)%Z).

(** An input on which the loop that asks for the chunk duration goes round
    again: a line that is not blank and that [int] rejects or reads as a
    number below 2 or above 5. *)
Definition unsettled (i : Input) : Prop :=
  match i with
  | Line l =>
      PyStr.strip l <> EmptyString /\
      match py_int (PyStr.strip l) with
      | Some n => ~ (2 <= n <= 5)%Z
      | None => True
      end
  | KeyboardInterrupt => False
  end.

(** The loop of [main] that asks for the chunk duration: only [ValueError]
    and [KeyboardInterrupt] are caught. *)
Fixpoint read_chunk_duration (inputs : list Input) : Outcome Z :=
  match inputs with
  | [] => RaisesEOFError
  | KeyboardInterrupt :: _ => Exited
  | Line l :: rest =>
      let chunk_input := PyStr.strip l in
      if negb (PyStr.truthy chunk_input) then Returned 3%Z rest
      else match py_int chunk_input with
           | Some chunk_duration =>
               if (2 <=? chunk_duration)%Z && (chunk_duration <=? 5)%Z
               then Returned chunk_duration rest
               else read_chunk_duration rest
           | None => read_chunk_duration rest
           end
  end.

(** [main] up to the construction of the translator: the arguments it
    passes to [RealtimeTranslator]. *)
Definition main (inputs : list Input) : Outcome Realtime.Config :=
  match select_language LANGUAGES inputs with
  | Returned source_lang rest =>
      match select_language LANGUAGES rest with
      | Returned target_lang rest' =>
          match read_chunk_duration rest' with
          | Returned chunk_duration rest'' =>
              Returned (Realtime.mkConfig source_lang target_lang chunk_duration)
                       rest''
          | Exited => Exited
          | Loops => Loops
          | RaisesEOFError => RaisesEOFError
          end
      | Exited => Exited
      | Loops => Loops
      | RaisesEOFError => RaisesEOFError
      end
  | Exited => Exited
  | Loops => Loops
  | RaisesEOFError => RaisesEOFError
  end.
End WithInt.

End Cli.

(** ** [gui_translator.py] *)

Module Gui.

(** The values of the two comboboxes. *)
Definition COMBOBOX_VALUES : list string :=
  ["English (en)"; "Spanish (es)"; "French (fr)"; "German (de)";
   "Chinese (zh-CN)"; "Japanese (ja)"; "Arabic (ar)"; "Hindi (hi)";
   "Portuguese (pt)"; "Russian (ru)"; "Korean (ko)"; "Italian (it)"]%string.

(** The characters [(] and [)]. *)
Definition LPAREN : Ascii.ascii := Ascii.ascii_of_nat 40.
Definition RPAREN : Ascii.ascii := Ascii.ascii_of_nat 41.

(** [get_language_code]: [selection.split('(')[1].rstrip(')')]; [None] is
    the [IndexError] of a selection without an opening parenthesis. *)
Definition get_language_code (selection : string) : option string :=
  match PyText.split_chars LPAREN (String.list_ascii_of_string selection) !! 1 with
  | Some piece =>
      Some (String.string_of_list_ascii (PyText.rstrip_char RPAREN piece))
  | None => None
  end.

End Gui.

(** ** [simple_example.py] *)

Module SimpleExample.

Definition bytes := list Byte.byte.

(** The exception classes that [simple_translate] tells apart, and
    [KeyboardInterrupt], which stands for the exceptions that are not
    instances of [Exception] ([KeyboardInterrupt], [SystemExit]). *)
Inductive Exc : Type :=
| WaitTimeoutError
| UnknownValueError
| RequestError
| OtherException
| KeyboardInterrupt.

Inductive Result (A : Type) : Type :=
| Ok (a : A)
| Raise (e : Exc).
Arguments Ok {A} _.
Arguments Raise {A} _.

(** The external collaborators; each call returns or raises.  [gTTS] is
    the synthesis together with [tts.save]; [play] is loading the file and
    playing it to the end, after which the translation has been heard;
    [cleanup] is [pygame.mixer.music.unload] and [os.unlink]. *)
Record Env : Type := mkEnv {
  listen : Result bytes;
  recognize_google : bytes -> string -> Result string;
  translate : string -> string -> string -> Result string;
  gTTS : string -> string -> Result bytes;
  play : bytes -> Result unit;
  cleanup : bytes -> Result unit
}.

(** One constructor per [print] of the [try] statement; [Separator] is
    the line of [=] printed after the completion message. *)
Inductive Event : Type :=
| Listening
| AudioCaptured
| Recognizing
| YouSaid (text : string)
| Translating
| Translation (translated : string)
| SpeakingTranslation
| Done
| Separator
| NoSpeechDetected
| CouldNotUnderstand
| CouldNotRequest
| Error.

(** What has been printed and what has been played. *)
Record Out : Type := mkOut {
  log : list Event;
  played : list bytes
}.

(** Computations that print, play and may raise. *)
Definition M (A : Type) : Type := Out -> Result A * Out.

Definition ret {A} (a : A) : M A := fun o => (Ok a, o).
Definition bind {A B} (m : M A) (k : A -> M B) : M B :=
  fun o => match m o with
           | (Ok a, o') => k a o'
           | (Raise e, o') => (Raise e, o')
           end.
Definition print (ev : Event) : M unit :=
  fun o => (Ok tt, mkOut (log o ++ [ev]) (played o)).
Definition call {A} (r : Result A) : M A := fun o => (r, o).
Definition play_audio (env : Env) (audio : bytes) : M unit :=
  fun o => match play env audio with
           | Ok _ => (Ok tt, mkOut (log o) (played o ++ [audio]))
           | Raise e => (Raise e, o)
           end.

#[local] Notation "x <- m ;; k" := (bind m (fun x => k))
  (at level 100, m at next level, right associativity).
#[local] Notation "m ;;; k" := (bind m (fun _ => k))
  (at level 100, right associativity).

(** The body of the [try] statement. *)
Definition try_body (env : Env) (source_lang target_lang : string) : M unit :=
  print Listening ;;;
  audio <- call (listen env) ;;
  print AudioCaptured ;;;
  print Recognizing ;;;
  text <- call (recognize_google env audio source_lang) ;;
  print (YouSaid text) ;;;
  print Translating ;;;
  translated_text <- call (translate env text source_lang target_lang) ;;
  print (Translation translated_text) ;;;
  print SpeakingTranslation ;;;
  mp3 <- call (gTTS env translated_text target_lang) ;;
  play_audio env mp3 ;;;
  call (cleanup env mp3) ;;;
  print Done ;;;
  print Separator.

(** The message of the [except] clause that catches [e]; [None] when no
    clause does. *)
Definition handler (e : Exc) : option Event :=
  match e with
  | WaitTimeoutError => Some NoSpeechDetected
  | UnknownValueError => Some CouldNotUnderstand
  | RequestError => Some CouldNotRequest
  | OtherException => Some Error
  | KeyboardInterrupt => None
  end.

(** What the [try] statement makes of the exception [e] raised when [o] has
    been printed and played: a clause catches it and prints its message, or
    the exception goes on to the caller. *)
Definition caught (e : Exc) (o : Out) : Result unit * Out :=
  match handler e with
  | Some ev => (Ok tt, mkOut (log o ++ [ev]) (played o))
  | None => (Raise e, o)
  end.

(** [simple_translate], from the [try] on: how it ends, and what it has
    printed and played by then. *)
Definition simple_translate (env : Env) (source_lang target_lang : string)
  : Result unit * Out :=
  match try_body env source_lang target_lang (mkOut [] []) with
  | (Ok _, o) => (Ok tt, o)
  | (Raise e, o) => caught e o
  end.

End SimpleExample.
(** ** The worker threads, guard and iteration apart

    In [run] above an iteration of a worker is one step: the guard of the
    [while] loop and the body are taken together.  In the source a worker
    tests [self.is_running], then sleeps ([time.sleep(chunk_duration)]) or
    waits for an item ([get(timeout=1)]), and then carries out the rest of
    the iteration without testing the flag again; [stop] may be called in
    between.  [stop] itself only clears the flag, sleeps and returns, after
    which the main thread ends and the four threads, which are daemon
    threads, die with the process wherever they are.  The machine below
    keeps for every thread where it is in its loop, separates the test of
    the guard from the iteration it lets in, and has the end of the process
    as an action. *)

Module Threads.

(** [threading.Thread(target=..., daemon=True)], four times. *)
Inductive Worker : Type :=
| CapturerThread
| TranscriberThread
| TranslatorThread
| SpeakerThread.

#[global] Instance Worker_eq_dec : EqDecision Worker.
Proof. solve_decision. Defined.

(** Where a thread is in its [while] loop: about to evaluate the guard;
    past the guard, that is asleep, waiting on its queue or at work on the
    iteration; or out of the loop, for good. *)
Inductive Phase : Type :=
| AtGuard
| InIteration
| Finished.

Record Phases : Type := mkPhases {
  capturer : Phase;
  transcriber : Phase;
  translator : Phase;
  speaker : Phase
}.

Definition phase_of (w : Worker) (p : Phases) : Phase :=
  match w with
  | CapturerThread => capturer p
  | TranscriberThread => transcriber p
  | TranslatorThread => translator p
  | SpeakerThread => speaker p
  end.

Definition set_phase (w : Worker) (x : Phase) (p : Phases) : Phases :=
  match w with
  | CapturerThread => mkPhases x (transcriber p) (translator p) (speaker p)
  | TranscriberThread => mkPhases (capturer p) x (translator p) (speaker p)
  | TranslatorThread => mkPhases (capturer p) (transcriber p) x (speaker p)
  | SpeakerThread => mkPhases (capturer p) (transcriber p) (translator p) x
  end.

(** [thread.start()] for the four threads. *)
Definition all_at_guard : Phases := mkPhases AtGuard AtGuard AtGuard AtGuard.

(** The number of iterations the thread has entered and not yet finished. *)
Definition in_flight (w : Worker) (p : Phases) : nat :=
  match phase_of w p with InIteration => 1 | _ => 0 end.

(** The three threads that feed a queue. *)
Definition upstream (w : Worker) : bool :=
  match w with SpeakerThread => false | _ => true end.

(** None of the three is inside an iteration. *)
Definition upstream_idle (p : Phases) : Prop :=
  capturer p <> InIteration /\ transcriber p <> InIteration /\
  translator p <> InIteration.

(** What the threads of a pipeline do with the shared object [self]: the
    stream callback, the guard and the body of the loop of each worker, and
    what [stop] does to the object. *)
Record Machine (D S : Type) : Type := mkMachine {
  callback : D -> S -> S;
  guard : Worker -> S -> bool;
  body : Worker -> S -> S;
  halt : S -> S
}.
Arguments mkMachine {D S} _ _ _ _.
Arguments callback {D S} _ _ _.
Arguments guard {D S} _ _ _.
Arguments body {D S} _ _ _.
Arguments halt {D S} _ _.

(** The object shared by the threads, where each thread is, and whether
    the process is still there. *)
Record State (S : Type) : Type := mkState {
  shared : S;
  phases : Phases;
  process_alive : bool
}.
Arguments mkState {S} _ _ _.
Arguments shared {S} _.
Arguments phases {S} _.
Arguments process_alive {S} _.

(** What may happen next: the audio device delivers a buffer; a thread
    evaluates the guard of its loop; a thread carries out the iteration it
    has entered; [stop] clears the flag; [stop] has returned, the main
    thread ends and the daemon threads die with the process. *)
Inductive Action (D : Type) : Type :=
| Device (d : D)
| Guard (w : Worker)
| Iterate (w : Worker)
| CallStop
| Exit.
Arguments Device {D} _.
Arguments Guard {D} _.
Arguments Iterate {D} _.
Arguments CallStop {D}.
Arguments Exit {D}.

Section Machine.
Context {D S : Type}.
Variable M : Machine D S.

(** The stream delivers buffers until the capturing thread has left its
    loop and closed it. *)
Definition step (st : State S) (a : Action D) : State S :=
  if process_alive st then
    match a with
    | Device d =>
        match capturer (phases st) with
        | Finished => st
        | _ => mkState (callback M d (shared st)) (phases st) true
        end
    | Guard w =>
        match phase_of w (phases st) with
        | AtGuard =>
            let x := if guard M w (shared st) then InIteration else Finished in
            mkState (shared st) (set_phase w x (phases st)) true
        | _ => st
        end
    | Iterate w =>
        match phase_of w (phases st) with
        | InIteration =>
            mkState (body M w (shared st)) (set_phase w AtGuard (phases st)) true
        | _ => st
        end
    | CallStop => mkState (halt M (shared st)) (phases st) true
    | Exit => mkState (shared st) (phases st) false
    end
  else st.

Definition run (sched : list (Action D)) (st : State S) : State S :=
  fold_left step sched st.

(** One turn of a thread through its loop, nothing happening in between. *)
Definition turn (w : Worker) : list (Action D) := [Guard w; Iterate w].

End Machine.

End Threads.

Module RealtimeThreads.
Import Threads.

(** The four threads of [RealtimeTranslator.start]: AudioCapture,
    Recognizer, Translator and Speaker. *)
Definition machine (env : Realtime.Env) (cfg : Realtime.Config) :
    Machine Realtime.bytes Realtime.State :=
  mkMachine
    Realtime.audio_callback
    (fun w s => match w with
                | SpeakerThread => Realtime.speak_guard s
                | _ => Realtime.is_running s
                end)
    (fun w s => match w with
                | CapturerThread => Realtime.capture_body s
                | TranscriberThread => Realtime.recognize_body env cfg s
                | TranslatorThread => Realtime.translate_body env cfg s
                | SpeakerThread => Realtime.speak_body env cfg s
                end)
    Realtime.stop.

(** Right after [start] has set the flag and started the threads. *)
Definition started : State Realtime.State :=
  mkState Realtime.started all_at_guard true.

(** The same schedule for the machine: an iteration is a test of the guard
    followed at once by the body. *)
Definition refine (a : Realtime.Action) : list (Action Realtime.bytes) :=
  match a with
  | Realtime.AudioCallback d => [Device d]
  | Realtime.AudioCapture => turn CapturerThread
  | Realtime.Recognizer => turn TranscriberThread
  | Realtime.Translator => turn TranslatorThread
  | Realtime.Speaker => turn SpeakerThread
  | Realtime.Stop => [CallStop]
  end.

Definition refined (sched : list Realtime.Action) :
    list (Action Realtime.bytes) :=
  concat (map refine sched).

(** [s'] differs from [s] by nothing but what the Speaker has taken off
    the translation queue and handed to the speech synthesis. *)
Definition only_spoken (s s' : Realtime.State) : Prop :=
  Realtime.audio_frames s' = Realtime.audio_frames s /\
  Realtime.chunk_number s' = Realtime.chunk_number s /\
  Realtime.audio_queue s' = Realtime.audio_queue s /\
  Realtime.text_queue s' = Realtime.text_queue s /\
  items (Realtime.translation_queue s')
    `suffix_of` items (Realtime.translation_queue s) /\
  Realtime.produced s' = Realtime.produced s /\
  Realtime.transcripts s' = Realtime.transcripts s /\
  Realtime.engine_calls s' = Realtime.engine_calls s /\
  Realtime.translations s' = Realtime.translations s /\
  Realtime.spoken s' ++ items (Realtime.translation_queue s')
  = Realtime.spoken s ++ items (Realtime.translation_queue s).

End RealtimeThreads.

Module WhisperThreads.
Import Threads.

(** The four threads of [WhisperRealtimeTranslator.start]: Recorder,
    Whisper, Translator and Speaker. *)
Definition machine (env : Whisper.Env) (cfg : Whisper.Config) :
    Machine (list Q) Whisper.State :=
  mkMachine
    (Whisper.audio_callback cfg)
    (fun w s => match w with
                | SpeakerThread => Whisper.speak_guard s
                | _ => Whisper.is_running s
                end)
    (fun w s => match w with
                | CapturerThread => Whisper.record_body s
                | TranscriberThread => Whisper.transcribe_body env cfg s
                | TranslatorThread => Whisper.translate_body env cfg s
                | SpeakerThread => Whisper.speak_body env cfg s
                end)
    Whisper.stop.

Definition started : State Whisper.State :=
  mkState Whisper.started all_at_guard true.

Definition refine (a : Whisper.Action) : list (Action (list Q)) :=
  match a with
  | Whisper.AudioCallback d => [Device d]
  | Whisper.Recorder => turn CapturerThread
  | Whisper.Transcriber => turn TranscriberThread
  | Whisper.Translator => turn TranslatorThread
  | Whisper.Speaker => turn SpeakerThread
  | Whisper.Stop => [CallStop]
  end.

Definition refined (sched : list Whisper.Action) : list (Action (list Q)) :=
  concat (map refine sched).

(** [s'] differs from [s] by nothing but the samples the device has
    delivered and what the Speaker has taken off the translation queue and
    handed to the speech synthesis. *)
Definition only_spoken (s s' : Whisper.State) : Prop :=
  Whisper.audio_queue s' = Whisper.audio_queue s /\
  Whisper.text_queue s' = Whisper.text_queue s /\
  Whisper.translation_cache s' = Whisper.translation_cache s /\
  items (Whisper.translation_queue s')
    `suffix_of` items (Whisper.translation_queue s) /\
  Whisper.accepted s' = Whisper.accepted s /\
  Whisper.transcripts s' = Whisper.transcripts s /\
  Whisper.engine_calls s' = Whisper.engine_calls s /\
  Whisper.translations s' = Whisper.translations s /\
  Whisper.spoken s' ++ items (Whisper.translation_queue s')
  = Whisper.spoken s ++ items (Whisper.translation_queue s).

End WhisperThreads.

(** ** Concrete collaborators and runs *)

Module Examples.
#[local] Open Scope string_scope.

(** A phrase book standing for the translation engine. *)
Definition phrase_book (text : string) : string :=
  if String.eqb text "hello" then "hola" else text.

Definition rt_cfg : Realtime.Config := Realtime.mkConfig "en" "es" 3.

(** Every engine answers. *)
Definition rt_env : Realtime.Env :=
  Realtime.mkEnv (fun _ _ => Realtime.RecText "hello")
                 (fun text _ _ => Some (phrase_book text))
                 (fun _ _ => Some [Byte.x49; Byte.x44; Byte.x33])
                 (fun _ => true)
                 (fun _ => true).

(** The recognizer answers with a single space. *)
Definition rt_env_blank : Realtime.Env :=
  Realtime.mkEnv (fun _ _ => Realtime.RecText " ")
                 (fun text _ _ => Some (phrase_book text))
                 (fun _ _ => Some [Byte.x49; Byte.x44; Byte.x33])
                 (fun _ => true)
                 (fun _ => true).

(** The translation engine raises. *)
Definition rt_env_mt_down : Realtime.Env :=
  Realtime.mkEnv (fun _ _ => Realtime.RecText "hello")
                 (fun _ _ _ => None)
                 (fun _ _ => Some [Byte.x49; Byte.x44; Byte.x33])
                 (fun _ => true)
                 (fun _ => true).

(** Two bytes of 16-bit PCM: one sample of value zero, one loud sample. *)
Definition pcm_zero : Realtime.bytes := [Byte.x00; Byte.x00].
Definition pcm_loud : Realtime.bytes := [Byte.xff; Byte.x7f].

(** The device delivers a buffer, the Capturer cuts a chunk, the
    Recognizer transcribes it. *)
Definition rt_round : list Realtime.Action :=
  [Realtime.AudioCallback pcm_loud; Realtime.AudioCapture; Realtime.Recognizer].

Definition rt_rounds (n : nat) : list Realtime.Action :=
  concat (replicate n rt_round).

(** The device delivers a buffer and the Capturer cuts a chunk, [n]
    times over, while nothing is consumed. *)
Definition rt_captures (n : nat) : list Realtime.Action :=
  concat (replicate n [Realtime.AudioCallback pcm_loud; Realtime.AudioCapture]).

Definition wh_cfg : Whisper.Config := Whisper.mkConfig "en" "es" 5 16000.

Definition wh_env : Whisper.Env :=
  Whisper.mkEnv (fun _ _ => Some " hello ")
                (fun text _ _ => Some (phrase_book text))
                (fun _ _ => Some [Byte.x49; Byte.x44; Byte.x33])
                (fun _ => true)
                (fun _ => true).

(** Whisper hears no words in the chunk. *)
Definition wh_env_wordless : Whisper.Env :=
  Whisper.mkEnv (fun _ _ => Some "")
                (fun text _ _ => Some (phrase_book text))
                (fun _ _ => Some [Byte.x49; Byte.x44; Byte.x33])
                (fun _ => true)
                (fun _ => true).

Definition wh_env_mt_down : Whisper.Env :=
  Whisper.mkEnv (fun _ _ => Some " hello ")
                (fun _ _ _ => None)
                (fun _ _ => Some [Byte.x49; Byte.x44; Byte.x33])
                (fun _ => true)
                (fun _ => true).

(** A chunk at full amplitude and a chunk of zeros. *)
Definition loud : Whisper.AudioChunk := [1%Q; (-1)%Q; (1 # 2)%Q].
Definition zeros : Whisper.AudioChunk := [0%Q; 0%Q; 0%Q].

Definition wh_round : list Whisper.Action :=
  [Whisper.AudioCallback loud; Whisper.Recorder; Whisper.Transcriber].

Definition wh_pipeline_once : list Whisper.Action :=
  wh_round ++ [Whisper.Translator; Whisper.Speaker].

(** Engines that know two utterances: the recognizer tells them apart by
    the length of the recording and returns the empty text for anything
    else; the translation engine and the speech synthesis raise on what
    they do not know. *)
Definition two_phrases (text : string) : option string :=
  if String.eqb text "hello" then Some "hola"
  else if String.eqb text "world" then Some "mundo" else None.

Definition two_voices (text : string) : option Realtime.bytes :=
  if String.eqb text "hola" then Some [Byte.x01]
  else if String.eqb text "mundo" then Some [Byte.x02] else None.

Definition pcm_long : Realtime.bytes :=
  [Byte.x10; Byte.x27; Byte.xf0; Byte.xd8].

Definition rt_env_two : Realtime.Env :=
  Realtime.mkEnv (fun a _ => match Realtime.frame_data a with
                             | [_; _] => Realtime.RecText "hello"
                             | [_; _; _; _] => Realtime.RecText "world"
                             | _ => Realtime.RecText ""
                             end)
                 (fun text _ _ => two_phrases text)
                 (fun text _ => two_voices text)
                 (fun _ => true)
                 (fun _ => true).

(** Two chunks are captured one after the other while the consumers work
    on them in turn. *)
Definition rt_two_chunks : list Realtime.Action :=
  [Realtime.AudioCallback pcm_loud; Realtime.AudioCapture;
   Realtime.AudioCallback pcm_long; Realtime.AudioCapture;
   Realtime.Recognizer; Realtime.Translator; Realtime.Recognizer;
   Realtime.Speaker; Realtime.Translator; Realtime.Speaker].

Definition short_loud : Whisper.AudioChunk := [(1 # 2)%Q].

Definition wh_env_two : Whisper.Env :=
  Whisper.mkEnv (fun a _ => match a with
                            | [_; _; _] => Some " hello "
                            | [_] => Some "world"
                            | _ => Some ""
                            end)
                (fun text _ _ => two_phrases text)
                (fun text _ => two_voices text)
                (fun _ => true)
                (fun _ => true).

Definition wh_two_chunks : list Whisper.Action :=
  [Whisper.AudioCallback loud; Whisper.Recorder;
   Whisper.AudioCallback short_loud; Whisper.Recorder;
   Whisper.Transcriber; Whisper.Translator; Whisper.Transcriber;
   Whisper.Speaker; Whisper.Translator; Whisper.Speaker].


Definition wh_two_queued : list Whisper.Action :=
  wh_round ++ wh_round ++
  [Whisper.Translator; Whisper.Translator; Whisper.Stop].


(** The file of the utterance cannot be removed once it has been played. *)
Definition rt_env_no_cleanup : Realtime.Env :=
  Realtime.mkEnv (fun _ _ => Realtime.RecText "hello")
                 (fun text _ _ => Some (phrase_book text))
                 (fun _ _ => Some [Byte.x49; Byte.x44; Byte.x33])
                 (fun _ => true)
                 (fun _ => false).

End Examples.

Module MoreExamples.
#[local] Open Scope string_scope.
Import Examples.

(** The recognizer does not understand the audio. *)
Definition rt_env_deaf : Realtime.Env :=
  Realtime.mkEnv (fun _ _ => Realtime.UnknownValueError)
                 (fun text _ _ => Some (phrase_book text))
                 (fun _ _ => Some [Byte.x49; Byte.x44; Byte.x33])
                 (fun _ => true)
                 (fun _ => true).

(** Whisper raises. *)
Definition wh_env_deaf : Whisper.Env :=
  Whisper.mkEnv (fun _ _ => None)
                (fun text _ _ => Some (phrase_book text))
                (fun _ _ => Some [Byte.x49; Byte.x44; Byte.x33])
                (fun _ => true)
                (fun _ => true).

(** The playback device raises. *)
Definition wh_env_mute : Whisper.Env :=
  Whisper.mkEnv (fun _ _ => Some " hello ")
                (fun text _ _ => Some (phrase_book text))
                (fun _ _ => Some [Byte.x49; Byte.x44; Byte.x33])
                (fun _ => false)
                (fun _ => true).

(** A buffer of two samples per chunk. *)
Definition wh_cfg_tiny : Whisper.Config := Whisper.mkConfig "en" "es" 1 2.

(** A buffer of eight samples per chunk. *)
Definition wh_cfg_short : Whisper.Config := Whisper.mkConfig "en" "es" 2 4.

(** An [int] that reads plain decimal numerals and nothing else. *)
Definition digit_value (c : Ascii.ascii) : option Z :=
  let n := Ascii.nat_of_ascii c in
  if ((48 <=? n) && (n <=? 57))%nat then Some (Z.of_nat (n - 48)%nat) else None.

Fixpoint decimal_digits (acc : Z) (l : list Ascii.ascii) : option Z :=
  match l with
  | [] => Some acc
  | c :: l' =>
      match digit_value c with
      | Some d => decimal_digits (10 * acc + d)%Z l'
      | None => None
      end
  end.

Definition int_of_decimal (s : string) : option Z :=
  match String.list_ascii_of_string s with
  | [] => None
  | l => decimal_digits 0%Z l
  end.

(** Every engine of the one-shot translator works, but the file of the
    utterance cannot be removed. *)
Definition se_env_no_cleanup : SimpleExample.Env :=
  SimpleExample.mkEnv (SimpleExample.Ok [Byte.x52; Byte.x49])
                      (fun _ _ => SimpleExample.Ok "hello")
                      (fun text _ _ => SimpleExample.Ok (phrase_book text))
                      (fun _ _ => SimpleExample.Ok [Byte.x49; Byte.x44])
                      (fun _ => SimpleExample.Ok tt)
                      (fun _ => SimpleExample.Raise SimpleExample.OtherException).

(** The user presses Ctrl+C while the translation is fetched. *)
Definition se_env_interrupted : SimpleExample.Env :=
  SimpleExample.mkEnv (SimpleExample.Ok [Byte.x52; Byte.x49])
                      (fun _ _ => SimpleExample.Ok "hello")
                      (fun _ _ _ =>
                         SimpleExample.Raise SimpleExample.KeyboardInterrupt)
                      (fun _ _ => SimpleExample.Ok [Byte.x49; Byte.x44])
                      (fun _ => SimpleExample.Ok tt)
                      (fun _ => SimpleExample.Ok tt).
End MoreExamples.
(** * Properties *)

(** ** Queues *)

Module PyQueueFacts.
Section Facts.
Context {A : Type}.
Implicit Types (q : Queue A) (x : A).

Lemma full_false_unbounded q : (maxsize q <= 0)%Z -> full q = false.
Proof.
  intros H. unfold full.
  destruct (Z.ltb_spec 0 (maxsize q)); [lia | reflexivity].
Qed.

Lemma full_true_iff q :
  full q = true <-> (0 < maxsize q <= qsize q)%Z.
Proof.
  unfold full. rewrite andb_true_iff, Z.ltb_lt, Z.leb_le. tauto.
Qed.

Lemma put_unbounded q x :
  (maxsize q <= 0)%Z -> put q x = Some (mkQueue (maxsize q) (items q ++ [x])).
Proof. intros H. unfold put. now rewrite full_false_unbounded. Qed.

Lemma put_Some q x q' :
  put q x = Some q' -> maxsize q' = maxsize q /\ items q' = items q ++ [x].
Proof.
  unfold put. destruct (full q); [discriminate |].
  intros [= <-]. split; reflexivity.
Qed.

Lemma put_nowait_Some q x q' :
  put_nowait q x = Some q' ->
  maxsize q' = maxsize q /\ items q' = items q ++ [x] /\ full q = false.
Proof.
  unfold put_nowait. destruct (full q) eqn:E; [discriminate |].
  intros [= <-]. repeat split; reflexivity.
Qed.

Lemma put_nowait_None q x : put_nowait q x = None <-> full q = true.
Proof. unfold put_nowait. destruct (full q); split; congruence. Qed.

Lemma put_nowait_within q x q' :
  (0 < maxsize q)%Z -> put_nowait q x = Some q' -> (qsize q' <= maxsize q')%Z.
Proof.
  intros Hm H. destruct (put_nowait_Some _ _ _ H) as (Hmax & Hit & Hf).
  unfold full in Hf. unfold qsize in *. rewrite Hmax, Hit, length_app. simpl.
  destruct (Z.ltb_spec 0 (maxsize q)); [| lia]. simpl in Hf.
  apply Z.leb_gt in Hf. lia.
Qed.

Lemma get_Some q x q' :
  get q = Some (x, q') -> maxsize q' = maxsize q /\ items q = x :: items q'.
Proof.
  unfold get. destruct (items q) as [| y l] eqn:E; [discriminate |].
  intros [= <- <-]. split; reflexivity.
Qed.

Lemma get_None q : get q = None <-> items q = [].
Proof. unfold get. destruct (items q); split; congruence. Qed.

Lemma empty_true_iff q : empty q = true <-> items q = [].
Proof. unfold empty. destruct (items q); split; congruence. Qed.
End Facts.
End PyQueueFacts.

(** ** Strings *)

Module PyStrFacts.
Import PyStr.

Lemma lstrip_chars_nil_iff l :
  lstrip_chars l = [] <-> forallb isspace l = true.
Proof.
  induction l as [| c l IH]; simpl; [tauto |].
  destruct (isspace c); simpl; [exact IH |]. split; discriminate.
Qed.

Lemma lstrip_chars_head l c l' :
  lstrip_chars l = c :: l' -> isspace c = false.
Proof.
  induction l as [| d l IH]; simpl; [discriminate |].
  destruct (isspace d) eqn:E; [exact IH |]. intros [= <- <-]. exact E.
Qed.

Lemma forallb_isspace_rev l :
  forallb isspace (rev l) = forallb isspace l.
Proof.
  induction l as [| c l IH]; simpl; [reflexivity |].
  rewrite forallb_app, IH. simpl. rewrite andb_true_r. apply andb_comm.
Qed.

Lemma strip_chars_nil_iff l :
  strip_chars l = [] <-> forallb isspace l = true.
Proof.
  unfold strip_chars, rstrip_chars. split.
  - intros H. apply (f_equal (@rev _)) in H. rewrite rev_involutive in H.
    simpl in H. apply lstrip_chars_nil_iff in H.
    rewrite forallb_isspace_rev in H.
    destruct (lstrip_chars l) as [| c l'] eqn:E.
    + now apply lstrip_chars_nil_iff.
    + apply lstrip_chars_head in E. simpl in H. rewrite E in H. discriminate.
  - intros H. apply lstrip_chars_nil_iff in H. rewrite H. reflexivity.
Qed.

Lemma string_of_list_ascii_nil_iff l :
  String.string_of_list_ascii l = EmptyString <-> l = [].
Proof. destruct l; simpl; split; congruence. Qed.

(** [s.strip()] is empty exactly when [s] is empty or whitespace only. *)
Lemma strip_empty_iff s :
  strip s = EmptyString <-> whitespace_only s = true.
Proof.
  unfold strip, whitespace_only.
  rewrite string_of_list_ascii_nil_iff. apply strip_chars_nil_iff.
Qed.

Lemma truthy_false_iff s : truthy s = false <-> s = EmptyString.
Proof. destruct s; simpl; split; congruence. Qed.

Lemma truthy_strip s : truthy (strip s) = negb (whitespace_only s).
Proof.
  destruct (whitespace_only s) eqn:E; simpl.
  - apply truthy_false_iff, strip_empty_iff, E.
  - destruct (truthy (strip s)) eqn:T; [reflexivity |].
    apply truthy_false_iff, strip_empty_iff in T. congruence.
Qed.
End PyStrFacts.

(** ** Lists *)

Module ListFacts.
Lemma omap_snoc {A B} (f : A -> option B) (l : list A) (x : A) :
  omap f (l ++ [x]) = omap f l ++ match f x with Some y => [y] | None => [] end.
Proof. rewrite omap_app. simpl. destruct (f x); reflexivity. Qed.

Lemma omap_cons {A B} (f : A -> option B) (x : A) (l : list A) :
  omap f (x :: l) = match f x with Some y => y :: omap f l | None => omap f l end.
Proof. reflexivity. Qed.

Lemma sorted_snoc (l : list nat) (n : nat) :
  StronglySorted lt l -> Forall (fun m => m < n) l ->
  StronglySorted lt (l ++ [n]).
Proof.
  induction 1 as [| x l Hs IH Hx]; intros Hn; simpl.
  - repeat constructor.
  - inversion Hn; subst. constructor; [auto |].
    apply Forall_app. split; [assumption | repeat constructor; assumption].
Qed.

Lemma omap_all_Some_length {A B} (f : A -> option B) (l : list A) :
  (forall x, is_Some (f x)) -> length (omap f l) = length l.
Proof.
  intros H. induction l as [| x l IH]; simpl; [reflexivity |].
  destruct (H x) as [y Hy]. rewrite Hy. simpl. f_equal. exact IH.
Qed.

Lemma omap_elem_Some_length {A B} (f : A -> option B) (l : list A) :
  (forall x, x ∈ l -> is_Some (f x)) -> length (omap f l) = length l.
Proof.
  induction l as [| x l IH]; intros H; [reflexivity |].
  rewrite omap_cons. destruct (H x) as [y Hy]; [left |].
  rewrite Hy. simpl. f_equal. apply IH. intros z Hz. apply H. now right.
Qed.

(** When every element of [l] goes through [f], [g] and [h] in turn, no
    element is lost on the way. *)
Lemma omap_chain_length {A B C D} (f : A -> option B) (g : B -> option C)
      (h : C -> option D) (l : list A) :
  (forall x, x ∈ l ->
     exists y z w, f x = Some y /\ g y = Some z /\ h z = Some w) ->
  length (omap f l) = length l /\
  length (omap g (omap f l)) = length l /\
  length (omap h (omap g (omap f l))) = length l.
Proof.
  induction l as [| x l IH]; intros H; [repeat split; reflexivity |].
  destruct (H x) as (y & z & w & Hy & Hz & Hw); [left |].
  destruct IH as (I1 & I2 & I3); [intros x' Hx'; apply H; now right |].
  rewrite !omap_cons, Hy, !omap_cons, Hz, !omap_cons, Hw. simpl length.
  rewrite I1, I2, I3. repeat split; reflexivity.
Qed.

End ListFacts.

(** ** The basic pipeline *)

Module RealtimeFacts.
Import Realtime PyQueueFacts ListFacts.

#[local] Arguments stt_out : simpl never.
#[local] Arguments mt_out : simpl never.
#[local] Arguments tts_out : simpl never.

Ltac unfold_state :=
  unfold quiescent, produced, accepted, dropped, chunk_numbers, transcripts,
    engine_calls, translations, spoken, emit, add_played, set_is_running,
    set_audio_frames, set_chunk_number, set_audio_queue, set_text_queue,
    set_translation_queue in *;
  simpl in *.

Ltac snoc := rewrite ?omap_snoc; simpl; rewrite ?app_nil_r.

Section Invariant.
Variable env : Env.
Variable cfg : Config.

Lemma rt_Inv_started : Inv env cfg started.
Proof.
  constructor; unfold_state; try reflexivity; try constructor.
  unfold qsize, AUDIO_QUEUE_MAXSIZE. simpl. lia.
Qed.

Lemma rt_Inv_audio_callback d s :
  Inv env cfg s -> Inv env cfg (audio_callback d s).
Proof.
  intros H. unfold audio_callback. destruct (is_running s); [| exact H].
  destruct H. constructor; unfold_state; assumption.
Qed.

Lemma rt_Inv_stop s : Inv env cfg s -> Inv env cfg (stop s).
Proof. intros []. constructor; unfold stop; unfold_state; assumption. Qed.

Lemma rt_Inv_capture_body s :
  Inv env cfg s -> Inv env cfg (capture_body s).
Proof.
  intros H.
  unfold capture_body. destruct (audio_frames s) as [| f fs] eqn:Ef; [exact H |].
  assert (Hle : Forall (fun n => n <= S (chunk_number s)) (chunk_numbers s)).
  { eapply Forall_impl; [apply (inv_numbers_bound _ _ _ H) |]. simpl. lia. }
  assert (Hlt : Forall (fun n => n < S (chunk_number s)) (chunk_numbers s)).
  { eapply Forall_impl; [apply (inv_numbers_bound _ _ _ H) |]. simpl. lia. }
  destruct (concat (f :: fs)) as [| b bs] eqn:Ec.
  { destruct H. constructor; unfold_state; assumption. }
  set (ad := mkAudioData (b :: bs) RATE 2).
  destruct (put_nowait _ ad) as [q |] eqn:Ep.
  - simpl in Ep. apply put_nowait_Some in Ep as Hp.
    destruct Hp as (Hmax & Hit & Hfull).
    assert (Hw : (qsize q <= maxsize q)%Z).
    { eapply put_nowait_within; [| exact Ep].
      rewrite (inv_audio_max _ _ _ H). unfold AUDIO_QUEUE_MAXSIZE. lia. }
    destruct H. constructor; unfold_state; snoc; try assumption.
    + congruence.
    + rewrite Hmax, inv_audio_max0 in Hw. exact Hw.
    + rewrite Hit, !omap_snoc, app_assoc, inv_transcripts0. reflexivity.
    + apply Forall_app. split; [assumption | repeat constructor].
    + apply sorted_snoc; assumption.
  - destruct H. constructor; unfold_state; snoc; try assumption.
    + apply Forall_app. split; [assumption | repeat constructor].
    + apply sorted_snoc; assumption.
Qed.

Lemma Inv_capture s :
  Inv env cfg s -> Inv env cfg (continuous_audio_capture s).
Proof.
  intros H. unfold continuous_audio_capture.
  destruct (is_running s); [now apply rt_Inv_capture_body | exact H].
Qed.

Lemma rt_Inv_recognize_body s :
  Inv env cfg s -> Inv env cfg (recognize_body env cfg s).
Proof.
  intros H.
  unfold recognize_body.
  destruct (get (audio_queue s)) as [[a q] |] eqn:Eg; [| exact H].
  apply get_Some in Eg as [Hmax Hit].
  assert (Hstt : stt_out env cfg a
                 = match recognize_google env a (source_lang cfg) with
                   | RecText text => if PyStr.truthy text then Some text else None
                   | _ => None
                   end) by reflexivity.
  assert (Hlen : (qsize q <= AUDIO_QUEUE_MAXSIZE)%Z).
  { pose proof (inv_audio_len _ _ _ H) as Hl. unfold qsize in *.
    rewrite Hit in Hl. simpl in Hl. lia. }
  pose proof (inv_transcripts _ _ _ H) as HT.
  rewrite Hit, omap_cons, Hstt in HT.
  destruct (recognize_google env a (source_lang cfg)) as [text | | |] eqn:Er;
    [destruct (PyStr.truthy text) eqn:Et;
     [rewrite put_unbounded by (simpl; rewrite (inv_text_max _ _ _ H); lia) |] | ..];
    destruct H; constructor; unfold_state; snoc;
    try assumption; try congruence.
  - rewrite <- HT, <- app_assoc. reflexivity.
  - rewrite app_assoc, inv_calls0. reflexivity.
  - rewrite !omap_snoc, app_assoc, inv_translations0. reflexivity.
Qed.

Lemma Inv_recognize s :
  Inv env cfg s -> Inv env cfg (recognize_speech env cfg s).
Proof.
  intros H. unfold recognize_speech.
  destruct (is_running s); [now apply rt_Inv_recognize_body | exact H].
Qed.

Lemma rt_Inv_translate_body s :
  Inv env cfg s -> Inv env cfg (translate_body env cfg s).
Proof.
  intros H.
  unfold translate_body.
  destruct (get (text_queue s)) as [[t q] |] eqn:Eg; [| exact H].
  apply get_Some in Eg as [Hmax Hit].
  assert (Hmt : mt_out env cfg t
                = translate env t (source_lang cfg) (target_lang cfg))
    by reflexivity.
  pose proof (inv_translations _ _ _ H) as HT.
  rewrite Hit, omap_cons, Hmt in HT.
  pose proof (inv_calls _ _ _ H) as HC. rewrite Hit in HC.
  destruct (translate env t (source_lang cfg) (target_lang cfg))
    as [tr |] eqn:Et;
    [rewrite put_unbounded
       by (simpl; rewrite (inv_translation_max _ _ _ H); lia) |];
    destruct H; constructor; unfold_state; snoc;
    try assumption; try congruence.
  - rewrite <- HC, <- app_assoc. reflexivity.
  - rewrite <- HT, <- app_assoc. reflexivity.
  - rewrite app_assoc, inv_spoken0. reflexivity.
  - rewrite !omap_snoc, app_assoc, inv_played0. reflexivity.
  - rewrite <- HC, <- app_assoc. reflexivity.
Qed.

Lemma rt_Inv_translate s :
  Inv env cfg s -> Inv env cfg (translate_text env cfg s).
Proof.
  intros H. unfold translate_text.
  destruct (is_running s); [now apply rt_Inv_translate_body | exact H].
Qed.

Lemma rt_Inv_speak_body s :
  Inv env cfg s -> Inv env cfg (speak_body env cfg s).
Proof.
  intros H. unfold speak_body.
  destruct (get (translation_queue s)) as [[t q] |] eqn:Eg; [| exact H].
  apply get_Some in Eg as [Hmax Hit].
  assert (Htts : tts_out env cfg t
                 = match gTTS env t (target_lang cfg) with
                   | Some audio => if play env audio then Some audio else None
                   | None => None
                   end) by reflexivity.
  pose proof (inv_played _ _ _ H) as HP.
  rewrite Hit, omap_cons, Htts in HP.
  pose proof (inv_spoken _ _ _ H) as HS. rewrite Hit in HS.
  destruct (gTTS env t (target_lang cfg)) as [audio |] eqn:Es;
    [destruct (play env audio) eqn:Ep; [destruct (cleanup env audio) |] |];
    destruct H; constructor; unfold_state; snoc;
    try assumption; try congruence;
    try (rewrite <- HS, <- app_assoc; reflexivity);
    try (rewrite <- HP, <- app_assoc; reflexivity).
Qed.

Lemma rt_Inv_speak s :
  Inv env cfg s -> Inv env cfg (speak_translation env cfg s).
Proof.
  intros H. unfold speak_translation.
  destruct (speak_guard s); [now apply rt_Inv_speak_body | exact H].
Qed.

Lemma rt_Inv_step s a : Inv env cfg s -> Inv env cfg (step env cfg s a).
Proof.
  destruct a; simpl;
    auto using rt_Inv_audio_callback, Inv_capture, Inv_recognize,
      rt_Inv_translate, rt_Inv_speak, rt_Inv_stop.
Qed.

Lemma rt_Inv_run sched s : Inv env cfg s -> Inv env cfg (run env cfg sched s).
Proof.
  revert s. induction sched as [| a sched IH]; intros s H; simpl; [exact H |].
  apply IH, rt_Inv_step, H.
Qed.

Lemma rt_Inv_reachable sched : Inv env cfg (run env cfg sched started).
Proof. apply rt_Inv_run, rt_Inv_started. Qed.

(** *** Draining *)

Lemma rt_run_app l1 l2 s :
  run env cfg (l1 ++ l2) s = run env cfg l2 (run env cfg l1 s).
Proof. unfold run. apply fold_left_app. Qed.

Lemma recognize_progress s :
  Inv env cfg s -> is_running s = true ->
  let s' := recognize_speech env cfg s in
  is_running s' = true /\ translation_queue s' = translation_queue s /\
  length (items (audio_queue s')) = pred (length (items (audio_queue s))) /\
  length (items (audio_queue s')) + length (items (text_queue s'))
  <= length (items (audio_queue s)) + length (items (text_queue s)).
Proof.
  intros H Hr. unfold recognize_speech. rewrite Hr. unfold recognize_body.
  destruct (get (audio_queue s)) as [[a q] |] eqn:Eg.
  - apply get_Some in Eg as [Hmax Hit]. rewrite Hit.
    destruct (recognize_google env a (source_lang cfg)) as [text | | |];
      [destruct (PyStr.truthy text);
       [rewrite put_unbounded by (simpl; rewrite (inv_text_max _ _ _ H); lia) |] | ..];
      unfold_state; rewrite ?length_app; simpl; repeat split; auto; lia.
  - apply get_None in Eg. simpl. rewrite Eg. simpl. repeat split; auto.
Qed.

Lemma rt_translate_progress s :
  Inv env cfg s -> is_running s = true ->
  let s' := translate_text env cfg s in
  is_running s' = true /\ audio_queue s' = audio_queue s /\
  length (items (text_queue s')) = pred (length (items (text_queue s))) /\
  length (items (text_queue s')) + length (items (translation_queue s'))
  <= length (items (text_queue s)) + length (items (translation_queue s)).
Proof.
  intros H Hr. unfold translate_text. rewrite Hr. unfold translate_body.
  destruct (get (text_queue s)) as [[t q] |] eqn:Eg.
  - apply get_Some in Eg as [Hmax Hit]. rewrite Hit.
    destruct (translate env t (source_lang cfg) (target_lang cfg));
      [rewrite put_unbounded
         by (simpl; rewrite (inv_translation_max _ _ _ H); lia) |];
      unfold_state; rewrite ?length_app; simpl; repeat split; auto; lia.
  - apply get_None in Eg. simpl. rewrite Eg. simpl. repeat split; auto.
Qed.

Lemma rt_speak_progress s :
  let s' := speak_translation env cfg s in
  is_running s' = is_running s /\ audio_queue s' = audio_queue s /\
  text_queue s' = text_queue s /\
  length (items (translation_queue s'))
  = pred (length (items (translation_queue s))).
Proof.
  unfold speak_translation, speak_guard, speak_body, empty, get.
  destruct (items (translation_queue s)) as [| t l] eqn:Ei.
  - destruct (is_running s) eqn:Er; simpl; rewrite ?Ei, ?Er; repeat split; reflexivity.
  - rewrite orb_true_r.
    destruct (gTTS env t (target_lang cfg)) as [audio |];
      [destruct (play env audio); [destruct (cleanup env audio) |] |]; unfold_state; repeat split; reflexivity.
Qed.

Lemma recognizers_drain n s :
  Inv env cfg s -> is_running s = true ->
  length (items (audio_queue s)) <= n ->
  let s' := run env cfg (replicate n Recognizer) s in
  is_running s' = true /\ items (audio_queue s') = [] /\
  translation_queue s' = translation_queue s /\
  length (items (text_queue s'))
  <= length (items (audio_queue s)) + length (items (text_queue s)).
Proof.
  revert s. induction n as [| n IH]; intros s H Hr Hn; simpl.
  - repeat split; auto; try lia. destruct (items (audio_queue s)); [reflexivity | simpl in Hn; lia].
  - destruct (recognize_progress s H Hr) as (Hr' & Ht & Hl & Hs).
    destruct (IH (recognize_speech env cfg s)) as (R1 & R2 & R3 & R4);
      [now apply Inv_recognize | assumption | lia |].
    repeat split; auto; [congruence | lia].
Qed.

Lemma rt_translators_drain n s :
  Inv env cfg s -> is_running s = true ->
  length (items (text_queue s)) <= n ->
  let s' := run env cfg (replicate n Translator) s in
  is_running s' = true /\ items (text_queue s') = [] /\
  audio_queue s' = audio_queue s /\
  length (items (translation_queue s'))
  <= length (items (text_queue s)) + length (items (translation_queue s)).
Proof.
  revert s. induction n as [| n IH]; intros s H Hr Hn; simpl.
  - repeat split; auto; try lia. destruct (items (text_queue s)); [reflexivity | simpl in Hn; lia].
  - destruct (rt_translate_progress s H Hr) as (Hr' & Ht & Hl & Hs).
    destruct (IH (translate_text env cfg s)) as (R1 & R2 & R3 & R4);
      [now apply rt_Inv_translate | assumption | lia |].
    repeat split; auto; [congruence | lia].
Qed.

Lemma rt_speakers_drain n s :
  length (items (translation_queue s)) <= n ->
  let s' := run env cfg (replicate n Speaker) s in
  is_running s' = is_running s /\ items (translation_queue s') = [] /\
  audio_queue s' = audio_queue s /\ text_queue s' = text_queue s.
Proof.
  revert s. induction n as [| n IH]; intros s Hn; simpl.
  - repeat split; auto.
    destruct (items (translation_queue s)); [reflexivity | simpl in Hn; lia].
  - destruct (rt_speak_progress s) as (Hr' & Ha & Ht & Hl).
    destruct (IH (speak_translation env cfg s)) as (R1 & R2 & R3 & R4); [lia |].
    repeat split; auto; congruence.
Qed.

(** While the pipeline runs, the consumers alone empty the queues. *)
Lemma rt_drain_quiescent s :
  Inv env cfg s -> is_running s = true ->
  quiescent (run env cfg (drain_schedule s) s).
Proof.
  intros H Hr. unfold drain_schedule. rewrite !rt_run_app.
  destruct (recognizers_drain (length (items (audio_queue s))) s H Hr)
    as (R1 & R2 & R3 & R4); [lia |].
  set (s1 := run env cfg (replicate _ Recognizer) s) in *.
  assert (H1 : Inv env cfg s1) by now apply rt_Inv_run.
  destruct (rt_translators_drain
              (length (items (audio_queue s)) + length (items (text_queue s)))
              s1 H1 R1) as (T1 & T2 & T3 & T4); [lia |].
  set (s2 := run env cfg (replicate _ Translator) s1) in *.
  destruct (rt_speakers_drain
              (length (items (audio_queue s)) + length (items (text_queue s))
               + length (items (translation_queue s))) s2)
    as (S1 & S2 & S3 & S4); [rewrite R3 in T4; lia |].
  unfold quiescent. rewrite S2, S3, S4, T2, T3, R2. auto.
Qed.

(** The consumers do not touch what the Capturer has logged. *)
Lemma capture_log_step s a :
  match a with AudioCapture => False | _ => True end ->
  produced (step env cfg s a) = produced s /\
  dropped (step env cfg s a) = dropped s.
Proof.
  destruct a; simpl; intros Ha; try contradiction.
  - unfold audio_callback. destruct (is_running s); auto.
  - unfold recognize_speech, recognize_body.
    destruct (is_running s); auto.
    destruct (get (audio_queue s)) as [[a q] |]; auto.
    destruct (recognize_google env a (source_lang cfg)) as [text | | |];
      [destruct (PyStr.truthy text);
       [destruct (put _ text) |] | ..];
      unfold_state; snoc; auto.
  - unfold translate_text, translate_body.
    destruct (is_running s); auto.
    destruct (get (text_queue s)) as [[t q] |]; auto.
    destruct (translate env t (source_lang cfg) (target_lang cfg)) as [tr |];
      [destruct (put _ tr) |]; unfold_state; snoc; auto.
  - unfold speak_translation, speak_body.
    destruct (speak_guard s); auto.
    destruct (get (translation_queue s)) as [[t q] |]; auto.
    destruct (gTTS env t (target_lang cfg)) as [audio |];
      [destruct (play env audio); [destruct (cleanup env audio) |] |]; unfold_state; snoc; auto.
  - auto.
Qed.

Lemma capture_log_run sched s :
  Forall (fun a => match a with AudioCapture => False | _ => True end) sched ->
  produced (run env cfg sched s) = produced s /\
  dropped (run env cfg sched s) = dropped s.
Proof.
  revert s. induction sched as [| a sched IH]; intros s Hs; simpl; [auto |].
  inversion Hs as [| ? ? Ha Hs']; subst.
  destruct (IH (step env cfg s a) Hs') as [-> ->].
  now apply capture_log_step.
Qed.

Lemma drain_schedule_no_capture s :
  Forall (fun a => match a with AudioCapture => False | _ => True end)
         (drain_schedule s).
Proof.
  unfold drain_schedule. rewrite !Forall_app.
  repeat split; apply Forall_replicate; exact I.
Qed.
End Invariant.

(** *** Readings of the log *)

Lemma produced_accepted_dropped (l : list Event) :
  omap dropped_of l = [] -> omap produced_of l = omap accepted_of l.
Proof.
  induction l as [| ev l IH]; [reflexivity |].
  rewrite !omap_cons. destruct ev; simpl; try exact IH; try discriminate.
  intros H. f_equal. exact (IH H).
Qed.

Lemma accepted_sublist_produced (l : list Event) :
  omap accepted_of l `sublist_of` omap produced_of l.
Proof.
  induction l as [| ev l IH]; [constructor |].
  rewrite !omap_cons. destruct ev; simpl; try exact IH.
  - now constructor.
  - now constructor.
Qed.

Lemma numbers_length_produced (l : list Event) :
  length (omap number_of l) = length (omap produced_of l).
Proof.
  induction l as [| ev l IH]; [reflexivity |].
  rewrite !omap_cons. destruct ev; simpl; congruence.
Qed.

(** When every engine call succeeds and nothing was dropped, a state
    without items in flight has one output per chunk at every stage. *)
Lemma rt_no_loss_quiescent env cfg s :
  (forall a, a ∈ produced s -> carried env cfg a) ->
  Inv env cfg s -> dropped s = [] -> quiescent s -> no_loss env cfg s.
Proof.
  intros Hc H Hd (Ha & Ht & Hu).
  pose proof (inv_transcripts _ _ _ H) as E1.
  pose proof (inv_translations _ _ _ H) as E2.
  pose proof (inv_played _ _ _ H) as E3.
  rewrite Ha in E1. rewrite Ht in E2. rewrite Hu in E3.
  simpl in E1, E2, E3. rewrite app_nil_r in E1, E2, E3.
  assert (Hp : produced s = accepted s)
    by (apply produced_accepted_dropped, Hd).
  rewrite Hp in Hc.
  destruct (omap_chain_length (stt_out env cfg) (mt_out env cfg)
              (tts_out env cfg) (accepted s) Hc) as (L1 & L2 & L3).
  unfold no_loss. rewrite Hp, E3, E2, E1.
  repeat split; assumption || reflexivity.
Qed.
(** *** The Speaker, item by item *)

Lemma rt_speak_cons env cfg s t l :
  items (translation_queue s) = t :: l ->
  let s' := speak_translation env cfg s in
  items (translation_queue s') = l /\ is_running s' = is_running s /\
  spoken s' = spoken s ++ [t] /\
  played s' = played s ++ omap (tts_out env cfg) [t].
Proof.
  intros Hi. unfold speak_translation, speak_guard, speak_body, empty, get.
  rewrite Hi, orb_true_r.
  assert (Htts : tts_out env cfg t
                 = match gTTS env t (target_lang cfg) with
                   | Some audio => if play env audio then Some audio else None
                   | None => None
                   end) by reflexivity.
  rewrite omap_cons, Htts.
  destruct (gTTS env t (target_lang cfg)) as [audio |];
    [destruct (play env audio); [destruct (cleanup env audio) |] |];
    unfold_state; snoc; repeat split; reflexivity.
Qed.

Lemma rt_speakers_process env cfg q :
  forall s, items (translation_queue s) = q ->
  let s' := run env cfg (replicate (length q) Speaker) s in
  items (translation_queue s') = [] /\ is_running s' = is_running s /\
  spoken s' = spoken s ++ q /\
  played s' = played s ++ omap (tts_out env cfg) q.
Proof.
  induction q as [| t l IH]; intros s Hi; simpl.
  - rewrite !app_nil_r. auto.
  - destruct (rt_speak_cons env cfg s t l Hi) as (E1 & E2 & E3 & E4).
    destruct (IH (speak_translation env cfg s) E1) as (F1 & F2 & F3 & F4).
    rewrite F1, F2, F3, F4, E2, E3, E4, <- !app_assoc.
    repeat split; try reflexivity. f_equal. rewrite !omap_cons.
    destruct (tts_out env cfg t); reflexivity.
Qed.

Lemma rt_speaker_alive env cfg k :
  forall s, k < length (items (translation_queue s)) ->
  speak_guard (run env cfg (replicate k Speaker) s) = true.
Proof.
  induction k as [| k IH]; intros s Hk; simpl.
  - unfold speak_guard, empty.
    destruct (items (translation_queue s)); [simpl in Hk; lia |].
    apply orb_true_r.
  - apply IH. destruct (rt_speak_progress env cfg s) as (_ & _ & _ & ->). lia.
Qed.
End RealtimeFacts.

(** ** The Whisper pipeline *)

Module WhisperFacts.
Import Whisper PyQueueFacts ListFacts.

#[local] Arguments stt_out : simpl never.
#[local] Arguments mt_out : simpl never.
#[local] Arguments tts_out : simpl never.
#[local] Arguments is_speech : simpl never.

Ltac unfold_state :=
  unfold quiescent, accepted, transcripts, engine_calls, translations, spoken,
    emit, add_played, set_is_running, set_audio_buffer, set_audio_queue,
    set_text_queue, set_translation_queue, set_translation_cache in *;
  simpl in *.

Ltac snoc := rewrite ?omap_snoc; simpl; rewrite ?app_nil_r.

(** *** The silence filter *)

Lemma Qgtb_true_iff x y : Qgtb x y = true <-> (y < x)%Q.
Proof.
  unfold Qgtb. rewrite negb_true_iff. split.
  - intros H. apply Qnot_le_lt. intros Hle.
    apply Qle_bool_iff in Hle. congruence.
  - intros H. destruct (Qle_bool x y) eqn:E; [| reflexivity].
    apply Qle_bool_iff in E. exfalso. exact (Qlt_not_le _ _ H E).
Qed.

Lemma fold_max_gt (t : Q) (l : list Q) (a : Q) :
  (t < fold_left Qmax l a)%Q <-> (t < a)%Q \/ Exists (fun x => (t < x)%Q) l.
Proof.
  revert a. induction l as [| x l IH]; intros a; simpl.
  - rewrite Exists_nil. tauto.
  - rewrite IH, Exists_cons, Q.max_lt_iff. tauto.
Qed.

(** The test of [record_audio_chunk] succeeds exactly when some sample is
    louder than the threshold. *)
Lemma is_speech_true_iff (chunk : AudioChunk) :
  is_speech chunk = true
  <-> Exists (fun x => (SILENCE_THRESHOLD < Qabs x)%Q) chunk.
Proof.
  unfold is_speech, np_max, np_abs. destruct chunk as [| x l]; simpl.
  - rewrite Exists_nil. split; [discriminate | tauto].
  - rewrite Qgtb_true_iff, fold_max_gt, Exists_cons, Exists_fmap. reflexivity.
Qed.

Lemma is_speech_false_iff (chunk : AudioChunk) :
  is_speech chunk = false
  <-> Forall (fun x => (Qabs x <= SILENCE_THRESHOLD)%Q) chunk.
Proof.
  rewrite <- not_true_iff_false, is_speech_true_iff, <- Forall_Exists_neg.
  apply Forall_proper; [| reflexivity]. intros x. split.
  - apply Qnot_lt_le.
  - intros H1 H2. exact (Qlt_not_le _ _ H2 H1).
Qed.

Section Invariant.
Variable env : Env.
Variable cfg : Config.

Lemma wh_Inv_started : Inv env cfg started.
Proof.
  constructor; unfold_state; try reflexivity; try constructor.
  intros t v. rewrite lookup_empty. discriminate.
Qed.

Lemma wh_Inv_audio_callback d s :
  Inv env cfg s -> Inv env cfg (audio_callback cfg d s).
Proof. intros []. constructor; unfold audio_callback; unfold_state; assumption. Qed.

Lemma wh_Inv_stop s : Inv env cfg s -> Inv env cfg (stop s).
Proof. intros []. constructor; unfold stop; unfold_state; assumption. Qed.

Lemma wh_Inv_record_body s :
  Inv env cfg s -> Inv env cfg (record_body s).
Proof.
  intros H.
  unfold record_body. destruct (audio_buffer s) as [| x l] eqn:Eb; [exact H |].
  destruct (is_speech (x :: l)) eqn:Es.
  - rewrite put_unbounded by (rewrite (inv_audio_max _ _ _ H); lia).
    destruct H. constructor; unfold_state; snoc; try assumption.
    + apply Forall_app. split; [assumption | repeat constructor; exact Es].
    + rewrite !omap_snoc, app_assoc, inv_transcripts0. reflexivity.
  - destruct H. constructor; unfold_state; assumption.
Qed.

Lemma Inv_record s :
  Inv env cfg s -> Inv env cfg (record_audio_chunk s).
Proof.
  intros H. unfold record_audio_chunk.
  destruct (is_running s); [now apply wh_Inv_record_body | exact H].
Qed.

Lemma wh_Inv_transcribe_body s :
  Inv env cfg s -> Inv env cfg (transcribe_body env cfg s).
Proof.
  intros H.
  unfold transcribe_body.
  destruct (get (audio_queue s)) as [[a q] |] eqn:Eg; [| exact H].
  apply get_Some in Eg as [Hmax Hit].
  assert (Hstt : stt_out env cfg a
                 = match whisper_transcribe env a (source_lang cfg) with
                   | Some raw =>
                       if PyStr.truthy (PyStr.strip raw)
                       then Some (PyStr.strip raw) else None
                   | None => None
                   end) by reflexivity.
  pose proof (inv_transcripts _ _ _ H) as HT.
  rewrite Hit, omap_cons, Hstt in HT.
  destruct (whisper_transcribe env a (source_lang cfg)) as [raw |] eqn:Er;
    [destruct (PyStr.truthy (PyStr.strip raw)) eqn:Et;
     [rewrite put_unbounded by (simpl; rewrite (inv_text_max _ _ _ H); lia) |] |];
    destruct H; constructor; unfold_state; snoc;
    try assumption; try congruence.
  - rewrite <- HT, <- app_assoc. reflexivity.
  - rewrite !omap_snoc, app_assoc, inv_translations0. reflexivity.
Qed.

Lemma Inv_transcribe s :
  Inv env cfg s -> Inv env cfg (transcribe_audio env cfg s).
Proof.
  intros H. unfold transcribe_audio.
  destruct (is_running s); [now apply wh_Inv_transcribe_body | exact H].
Qed.

Lemma wh_Inv_translate_body s :
  Inv env cfg s -> Inv env cfg (translate_body env cfg s).
Proof.
  intros H.
  unfold translate_body.
  destruct (get (text_queue s)) as [[t q] |] eqn:Eg; [| exact H].
  apply get_Some in Eg as [Hmax Hit].
  assert (Hmt : mt_out env cfg t
                = translate env t (source_lang cfg) (target_lang cfg))
    by reflexivity.
  pose proof (inv_translations _ _ _ H) as HT.
  rewrite Hit, omap_cons in HT. simpl.
  destruct (translation_cache s !! t) as [v |] eqn:Ec.
  - rewrite (inv_cache _ _ _ H _ _ Ec) in HT.
    rewrite put_unbounded by (simpl; rewrite (inv_translation_max _ _ _ H); lia).
    destruct H; constructor; unfold_state; snoc;
      try assumption; try congruence.
    + rewrite <- HT, <- app_assoc. reflexivity.
    + rewrite app_assoc, inv_spoken0. reflexivity.
    + rewrite !omap_snoc, app_assoc, inv_played0. reflexivity.
  - rewrite Hmt in HT.
    destruct (translate env t (source_lang cfg) (target_lang cfg))
      as [tr |] eqn:Et;
      [rewrite put_unbounded
         by (simpl; rewrite (inv_translation_max _ _ _ H); lia) |];
      destruct H; constructor; unfold_state; snoc;
      try assumption; try congruence.
    + intros t' v Hl. apply lookup_insert_Some in Hl as [[<- <-] | [Hne Hl]].
      * congruence.
      * now apply inv_cache0.
    + rewrite <- HT, <- app_assoc. reflexivity.
    + rewrite app_assoc, inv_spoken0. reflexivity.
    + rewrite !omap_snoc, app_assoc, inv_played0. reflexivity.
Qed.

Lemma wh_Inv_translate s :
  Inv env cfg s -> Inv env cfg (translate_text env cfg s).
Proof.
  intros H. unfold translate_text.
  destruct (is_running s); [now apply wh_Inv_translate_body | exact H].
Qed.

Lemma wh_Inv_speak_body s :
  Inv env cfg s -> Inv env cfg (speak_body env cfg s).
Proof.
  intros H. unfold speak_body.
  destruct (get (translation_queue s)) as [[t q] |] eqn:Eg; [| exact H].
  apply get_Some in Eg as [Hmax Hit].
  assert (Htts : tts_out env cfg t
                 = match gTTS env t (target_lang cfg) with
                   | Some audio => if play env audio then Some audio else None
                   | None => None
                   end) by reflexivity.
  pose proof (inv_played _ _ _ H) as HP.
  rewrite Hit, omap_cons, Htts in HP.
  pose proof (inv_spoken _ _ _ H) as HS. rewrite Hit in HS.
  destruct (gTTS env t (target_lang cfg)) as [audio |] eqn:Es;
    [destruct (play env audio) eqn:Ep; [destruct (cleanup env audio) |] |];
    destruct H; constructor; unfold_state; snoc;
    try assumption; try congruence;
    try (rewrite <- HS, <- app_assoc; reflexivity);
    try (rewrite <- HP, <- app_assoc; reflexivity).
Qed.

Lemma wh_Inv_speak s :
  Inv env cfg s -> Inv env cfg (speak_translation env cfg s).
Proof.
  intros H. unfold speak_translation.
  destruct (speak_guard s); [now apply wh_Inv_speak_body | exact H].
Qed.

Lemma wh_Inv_step s a : Inv env cfg s -> Inv env cfg (step env cfg s a).
Proof.
  destruct a; simpl;
    auto using wh_Inv_audio_callback, Inv_record, Inv_transcribe,
      wh_Inv_translate, wh_Inv_speak, wh_Inv_stop.
Qed.

Lemma wh_Inv_run sched s : Inv env cfg s -> Inv env cfg (run env cfg sched s).
Proof.
  revert s. induction sched as [| a sched IH]; intros s H; simpl; [exact H |].
  apply IH, wh_Inv_step, H.
Qed.

Lemma wh_Inv_reachable sched : Inv env cfg (run env cfg sched started).
Proof. apply wh_Inv_run, wh_Inv_started. Qed.

(** *** Draining *)

Lemma wh_run_app l1 l2 s :
  run env cfg (l1 ++ l2) s = run env cfg l2 (run env cfg l1 s).
Proof. unfold run. apply fold_left_app. Qed.

Lemma transcribe_progress s :
  Inv env cfg s -> is_running s = true ->
  let s' := transcribe_audio env cfg s in
  is_running s' = true /\ translation_queue s' = translation_queue s /\
  length (items (audio_queue s')) = pred (length (items (audio_queue s))) /\
  length (items (audio_queue s')) + length (items (text_queue s'))
  <= length (items (audio_queue s)) + length (items (text_queue s)).
Proof.
  intros H Hr. unfold transcribe_audio. rewrite Hr. unfold transcribe_body.
  destruct (get (audio_queue s)) as [[a q] |] eqn:Eg.
  - apply get_Some in Eg as [Hmax Hit]. rewrite Hit.
    destruct (whisper_transcribe env a (source_lang cfg)) as [raw |];
      [destruct (PyStr.truthy (PyStr.strip raw));
       [rewrite put_unbounded by (simpl; rewrite (inv_text_max _ _ _ H); lia) |] |];
      unfold_state; rewrite ?length_app; simpl; repeat split; auto; lia.
  - apply get_None in Eg. simpl. rewrite Eg. simpl. repeat split; auto.
Qed.

Lemma wh_translate_progress s :
  Inv env cfg s -> is_running s = true ->
  let s' := translate_text env cfg s in
  is_running s' = true /\ audio_queue s' = audio_queue s /\
  length (items (text_queue s')) = pred (length (items (text_queue s))) /\
  length (items (text_queue s')) + length (items (translation_queue s'))
  <= length (items (text_queue s)) + length (items (translation_queue s)).
Proof.
  intros H Hr. unfold translate_text. rewrite Hr. unfold translate_body.
  destruct (get (text_queue s)) as [[t q] |] eqn:Eg.
  - apply get_Some in Eg as [Hmax Hit]. rewrite Hit. simpl.
    destruct (translation_cache s !! t) as [v |];
      [| destruct (translate env t (source_lang cfg) (target_lang cfg))];
      rewrite ?put_unbounded
        by (simpl; rewrite (inv_translation_max _ _ _ H); lia);
      unfold_state; rewrite ?length_app; simpl; repeat split; auto; lia.
  - apply get_None in Eg. simpl. rewrite Eg. simpl. repeat split; auto.
Qed.

Lemma wh_speak_progress s :
  let s' := speak_translation env cfg s in
  is_running s' = is_running s /\ audio_queue s' = audio_queue s /\
  text_queue s' = text_queue s /\
  length (items (translation_queue s'))
  = pred (length (items (translation_queue s))).
Proof.
  unfold speak_translation, speak_guard, speak_body, empty, get.
  destruct (items (translation_queue s)) as [| t l] eqn:Ei.
  - destruct (is_running s) eqn:Er; simpl; rewrite ?Ei, ?Er;
      repeat split; reflexivity.
  - rewrite orb_true_r.
    destruct (gTTS env t (target_lang cfg)) as [audio |];
      [destruct (play env audio); [destruct (cleanup env audio) |] |]; unfold_state; repeat split; reflexivity.
Qed.

Lemma transcribers_drain n s :
  Inv env cfg s -> is_running s = true ->
  length (items (audio_queue s)) <= n ->
  let s' := run env cfg (replicate n Transcriber) s in
  is_running s' = true /\ items (audio_queue s') = [] /\
  translation_queue s' = translation_queue s /\
  length (items (text_queue s'))
  <= length (items (audio_queue s)) + length (items (text_queue s)).
Proof.
  revert s. induction n as [| n IH]; intros s H Hr Hn; simpl.
  - repeat split; auto; try lia.
    destruct (items (audio_queue s)); [reflexivity | simpl in Hn; lia].
  - destruct (transcribe_progress s H Hr) as (Hr' & Ht & Hl & Hs).
    destruct (IH (transcribe_audio env cfg s)) as (R1 & R2 & R3 & R4);
      [now apply Inv_transcribe | assumption | lia |].
    repeat split; auto; [congruence | lia].
Qed.

Lemma wh_translators_drain n s :
  Inv env cfg s -> is_running s = true ->
  length (items (text_queue s)) <= n ->
  let s' := run env cfg (replicate n Translator) s in
  is_running s' = true /\ items (text_queue s') = [] /\
  audio_queue s' = audio_queue s /\
  length (items (translation_queue s'))
  <= length (items (text_queue s)) + length (items (translation_queue s)).
Proof.
  revert s. induction n as [| n IH]; intros s H Hr Hn; simpl.
  - repeat split; auto; try lia.
    destruct (items (text_queue s)); [reflexivity | simpl in Hn; lia].
  - destruct (wh_translate_progress s H Hr) as (Hr' & Ht & Hl & Hs).
    destruct (IH (translate_text env cfg s)) as (R1 & R2 & R3 & R4);
      [now apply wh_Inv_translate | assumption | lia |].
    repeat split; auto; [congruence | lia].
Qed.

Lemma wh_speakers_drain n s :
  length (items (translation_queue s)) <= n ->
  let s' := run env cfg (replicate n Speaker) s in
  is_running s' = is_running s /\ items (translation_queue s') = [] /\
  audio_queue s' = audio_queue s /\ text_queue s' = text_queue s.
Proof.
  revert s. induction n as [| n IH]; intros s Hn; simpl.
  - repeat split; auto.
    destruct (items (translation_queue s)); [reflexivity | simpl in Hn; lia].
  - destruct (wh_speak_progress s) as (Hr' & Ha & Ht & Hl).
    destruct (IH (speak_translation env cfg s)) as (R1 & R2 & R3 & R4); [lia |].
    repeat split; auto; congruence.
Qed.

(** While the pipeline runs, the consumers alone empty the queues. *)
Lemma wh_drain_quiescent s :
  Inv env cfg s -> is_running s = true ->
  quiescent (run env cfg (drain_schedule s) s).
Proof.
  intros H Hr. unfold drain_schedule. rewrite !wh_run_app.
  destruct (transcribers_drain (length (items (audio_queue s))) s H Hr)
    as (R1 & R2 & R3 & R4); [lia |].
  set (s1 := run env cfg (replicate _ Transcriber) s) in *.
  assert (H1 : Inv env cfg s1) by now apply wh_Inv_run.
  destruct (wh_translators_drain
              (length (items (audio_queue s)) + length (items (text_queue s)))
              s1 H1 R1) as (T1 & T2 & T3 & T4); [lia |].
  set (s2 := run env cfg (replicate _ Translator) s1) in *.
  destruct (wh_speakers_drain
              (length (items (audio_queue s)) + length (items (text_queue s))
               + length (items (translation_queue s))) s2)
    as (S1 & S2 & S3 & S4); [rewrite R3 in T4; lia |].
  unfold quiescent. rewrite S2, S3, S4, T2, T3, R2. auto.
Qed.

(** The consumers do not touch what the Recorder has logged. *)
Lemma accepted_step s a :
  match a with Recorder => False | _ => True end ->
  accepted (step env cfg s a) = accepted s.
Proof.
  destruct a; simpl; intros Ha; try contradiction.
  - reflexivity.
  - unfold transcribe_audio, transcribe_body.
    destruct (is_running s); auto.
    destruct (get (audio_queue s)) as [[a q] |]; auto.
    destruct (whisper_transcribe env a (source_lang cfg)) as [raw |];
      [destruct (PyStr.truthy (PyStr.strip raw));
       [destruct (put _ (PyStr.strip raw)) |] |];
      unfold_state; snoc; auto.
  - unfold translate_text, translate_body.
    destruct (is_running s); auto.
    destruct (get (text_queue s)) as [[t q] |]; auto. simpl.
    destruct (translation_cache s !! t) as [v |];
      [destruct (put _ v)
      | destruct (translate env t (source_lang cfg) (target_lang cfg)) as [tr |];
        [destruct (put _ tr) |]];
      unfold_state; snoc; auto.
  - unfold speak_translation, speak_body.
    destruct (speak_guard s); auto.
    destruct (get (translation_queue s)) as [[t q] |]; auto.
    destruct (gTTS env t (target_lang cfg)) as [audio |];
      [destruct (play env audio); [destruct (cleanup env audio) |] |]; unfold_state; snoc; auto.
  - reflexivity.
Qed.

Lemma accepted_run sched s :
  Forall (fun a => match a with Recorder => False | _ => True end) sched ->
  accepted (run env cfg sched s) = accepted s.
Proof.
  revert s. induction sched as [| a sched IH]; intros s Hs; simpl; [auto |].
  inversion Hs as [| ? ? Ha Hs']; subst.
  rewrite (IH (step env cfg s a) Hs'). now apply accepted_step.
Qed.

Lemma drain_schedule_no_record s :
  Forall (fun a => match a with Recorder => False | _ => True end)
         (drain_schedule s).
Proof.
  unfold drain_schedule. rewrite !Forall_app.
  repeat split; apply Forall_replicate; exact I.
Qed.
End Invariant.

(** When every engine call succeeds, a state without items in flight has
    one output per chunk at every stage. *)
Lemma wh_no_loss_quiescent env cfg s :
  (forall a, a ∈ accepted s -> carried env cfg a) ->
  Inv env cfg s -> quiescent s -> no_loss env cfg s.
Proof.
  intros Hc H (Ha & Ht & Hu).
  pose proof (inv_transcripts _ _ _ H) as E1.
  pose proof (inv_translations _ _ _ H) as E2.
  pose proof (inv_played _ _ _ H) as E3.
  rewrite Ha in E1. rewrite Ht in E2. rewrite Hu in E3.
  simpl in E1, E2, E3. rewrite app_nil_r in E1, E2, E3.
  destruct (omap_chain_length (stt_out env cfg) (mt_out env cfg)
              (tts_out env cfg) (accepted s) Hc) as (L1 & L2 & L3).
  unfold no_loss. rewrite E3, E2, E1.
  repeat split; assumption || reflexivity.
Qed.
(** *** The cache *)

Lemma cache_step_mono env cfg s a t v :
  translation_cache s !! t = Some v ->
  translation_cache (step env cfg s a) !! t = Some v.
Proof.
  intros Hc. destruct a; simpl; try exact Hc.
  - unfold record_audio_chunk, record_body.
    destruct (is_running s); [| exact Hc].
    destruct (audio_buffer s); [exact Hc |].
    destruct (is_speech _); [destruct (put _ _) |]; exact Hc.
  - unfold transcribe_audio, transcribe_body.
    destruct (is_running s); [| exact Hc].
    destruct (get (audio_queue s)) as [[a q] |]; [| exact Hc].
    destruct (whisper_transcribe env a (source_lang cfg)) as [raw |];
      [destruct (PyStr.truthy (PyStr.strip raw));
       [destruct (put _ (PyStr.strip raw)) |] |]; exact Hc.
  - unfold translate_text, translate_body.
    destruct (is_running s); [| exact Hc].
    destruct (get (text_queue s)) as [[t' q] |]; [| exact Hc]. simpl.
    destruct (translation_cache s !! t') as [v' |] eqn:Ec;
      [destruct (put _ v'); exact Hc |].
    destruct (translate env t' (source_lang cfg) (target_lang cfg)) as [tr |];
      [destruct (put _ tr); [| exact Hc] | exact Hc].
    simpl. rewrite lookup_insert_ne; [exact Hc | congruence].
  - unfold speak_translation, speak_body.
    destruct (speak_guard s); [| exact Hc].
    destruct (get (translation_queue s)) as [[t' q] |]; [| exact Hc].
    destruct (gTTS env t' (target_lang cfg)) as [audio |];
      [destruct (play env audio); [destruct (cleanup env audio) |] |]; exact Hc.
Qed.

Lemma cache_run_mono env cfg sched s t v :
  translation_cache s !! t = Some v ->
  translation_cache (run env cfg sched s) !! t = Some v.
Proof.
  revert s. induction sched as [| a sched IH]; intros s Hc; simpl; [exact Hc |].
  apply IH, cache_step_mono, Hc.
Qed.

Lemma cache_step_new env cfg s a t v :
  translation_cache s !! t = None ->
  translation_cache (step env cfg s a) !! t = Some v ->
  a = Translator /\ is_running s = true /\
  (exists q, get (text_queue s) = Some (t, q)) /\
  translate env t (source_lang cfg) (target_lang cfg) = Some v /\
  engine_calls (step env cfg s a) = engine_calls s ++ [t].
Proof.
  intros Hn. destruct a; simpl; try congruence.
  - unfold record_audio_chunk, record_body.
    destruct (is_running s); [| congruence].
    destruct (audio_buffer s); [congruence |].
    destruct (is_speech _); [destruct (put _ _) |]; simpl; congruence.
  - unfold transcribe_audio, transcribe_body.
    destruct (is_running s); [| congruence].
    destruct (get (audio_queue s)) as [[a q] |]; [| congruence].
    destruct (whisper_transcribe env a (source_lang cfg)) as [raw |];
      [destruct (PyStr.truthy (PyStr.strip raw));
       [destruct (put _ (PyStr.strip raw)) |] |]; simpl; congruence.
  - unfold translate_text, translate_body.
    destruct (is_running s); [| congruence].
    destruct (get (text_queue s)) as [[t' q] |]; [| congruence]. simpl.
    destruct (translation_cache s !! t') as [v' |] eqn:Ec;
      [destruct (put _ v'); simpl; congruence |].
    destruct (translate env t' (source_lang cfg) (target_lang cfg))
      as [tr |] eqn:Et;
      [destruct (put _ tr); [| congruence] | simpl; congruence].
    simpl. intros Hl. apply lookup_insert_Some in Hl as [[<- <-] | [_ Hl]];
      [| congruence].
    repeat split; eauto. unfold_state. snoc. reflexivity.
  - unfold speak_translation, speak_body.
    destruct (speak_guard s); [| congruence].
    destruct (get (translation_queue s)) as [[t' q] |]; [| congruence].
    destruct (gTTS env t' (target_lang cfg)) as [audio |];
      [destruct (play env audio); [destruct (cleanup env audio) |] |]; simpl; congruence.
Qed.

(** *** The Speaker, item by item *)

Lemma wh_speak_cons env cfg s t l :
  items (translation_queue s) = t :: l ->
  let s' := speak_translation env cfg s in
  items (translation_queue s') = l /\ is_running s' = is_running s /\
  spoken s' = spoken s ++ [t] /\
  played s' = played s ++ omap (tts_out env cfg) [t].
Proof.
  intros Hi. unfold speak_translation, speak_guard, speak_body, empty, get.
  rewrite Hi, orb_true_r.
  assert (Htts : tts_out env cfg t
                 = match gTTS env t (target_lang cfg) with
                   | Some audio => if play env audio then Some audio else None
                   | None => None
                   end) by reflexivity.
  rewrite omap_cons, Htts.
  destruct (gTTS env t (target_lang cfg)) as [audio |];
    [destruct (play env audio); [destruct (cleanup env audio) |] |];
    unfold_state; snoc; repeat split; reflexivity.
Qed.

Lemma wh_speakers_process env cfg q :
  forall s, items (translation_queue s) = q ->
  let s' := run env cfg (replicate (length q) Speaker) s in
  items (translation_queue s') = [] /\ is_running s' = is_running s /\
  spoken s' = spoken s ++ q /\
  played s' = played s ++ omap (tts_out env cfg) q.
Proof.
  induction q as [| t l IH]; intros s Hi; simpl.
  - rewrite !app_nil_r. auto.
  - destruct (wh_speak_cons env cfg s t l Hi) as (E1 & E2 & E3 & E4).
    destruct (IH (speak_translation env cfg s) E1) as (F1 & F2 & F3 & F4).
    rewrite F1, F2, F3, F4, E2, E3, E4, <- !app_assoc.
    repeat split; try reflexivity. f_equal. rewrite !omap_cons.
    destruct (tts_out env cfg t); reflexivity.
Qed.

Lemma wh_speaker_alive env cfg k :
  forall s, k < length (items (translation_queue s)) ->
  speak_guard (run env cfg (replicate k Speaker) s) = true.
Proof.
  induction k as [| k IH]; intros s Hk; simpl.
  - unfold speak_guard, empty.
    destruct (items (translation_queue s)); [simpl in Hk; lia |].
    apply orb_true_r.
  - apply IH. destruct (wh_speak_progress env cfg s) as (_ & _ & _ & ->). lia.
Qed.
End WhisperFacts.
(** ** The worker threads, guard and iteration apart *)

Module ThreadsFacts.
Import Threads.

Lemma phase_of_set_same w x p : phase_of w (set_phase w x p) = x.
Proof. destruct w; reflexivity. Qed.

Lemma phase_of_set_other w w' x p :
  w <> w' -> phase_of w' (set_phase w x p) = phase_of w' p.
Proof. destruct w, w'; intros H; try reflexivity; congruence. Qed.

Lemma set_phase_same w p : set_phase w (phase_of w p) p = p.
Proof. destruct w, p; reflexivity. Qed.

Lemma set_phase_twice w x y p :
  set_phase w y (set_phase w x p) = set_phase w y p.
Proof. destruct w; reflexivity. Qed.

Lemma in_flight_set_other w w' x p :
  w <> w' -> in_flight w' (set_phase w x p) = in_flight w' p.
Proof. intros H. unfold in_flight. now rewrite phase_of_set_other. Qed.

Section Machine.
Context {D St : Type}.
Variable M : Machine D St.

Lemma th_run_app l1 l2 st : run M (l1 ++ l2) st = run M l2 (run M l1 st).
Proof. unfold run. apply fold_left_app. Qed.



(** A turn of a thread that is at its guard: if the guard holds the body
    runs and the thread is back at its guard, otherwise the thread has left
    its loop. *)
Lemma th_turn w st :
  process_alive st = true -> phase_of w (phases st) = AtGuard ->
  run M (turn w) st
  = if guard M w (shared st)
    then mkState (body M w (shared st)) (phases st) true
    else mkState (shared st) (set_phase w Finished (phases st)) true.
Proof.
  intros Ha Hp. unfold turn, run. simpl. unfold step at 2.
  rewrite Ha, Hp. cbv zeta.
  destruct (guard M w (shared st)); unfold step; simpl;
    rewrite phase_of_set_same; [| reflexivity].
  rewrite set_phase_twice, <- Hp, set_phase_same. reflexivity.
Qed.


(** A thread that has left its loop stays out of it, and a turn of it
    changes nothing. *)
Lemma th_turn_finished w st :
  phase_of w (phases st) = Finished -> run M (turn w) st = st.
Proof.
  intros Hp. unfold turn, run. simpl. unfold step.
  destruct (process_alive st) eqn:Ha; rewrite ?Ha, ?Hp; simpl;
    rewrite ?Ha, ?Hp; reflexivity.
Qed.

(** *** A property of the shared object that no action breaks *)

Section Invariant.
Variable I : St -> Prop.
Hypothesis I_callback : forall d s, I s -> I (callback M d s).
Hypothesis I_body : forall w s, I s -> I (body M w s).
Hypothesis I_halt : forall s, I s -> I (halt M s).

Lemma th_inv_step st a : I (shared st) -> I (shared (step M st a)).
Proof.
  intros H. unfold step. destruct (process_alive st); [| exact H].
  destruct a as [d | w | w | |]; simpl.
  - destruct (capturer (phases st)); simpl; auto.
  - destruct (phase_of w (phases st)); simpl; auto.
  - destruct (phase_of w (phases st)); simpl; auto.
  - auto.
  - exact H.
Qed.

Lemma th_inv_run sched st : I (shared st) -> I (shared (run M sched st)).
Proof.
  revert st. induction sched as [| a sched IH]; intros st H; simpl;
    [exact H |].
  apply IH, th_inv_step, H.
Qed.
End Invariant.

(** *** Once the flag is cleared *)

Section AfterStop.
Variable off : St -> Prop.
Hypothesis off_guard :
  forall w s, upstream w = true -> off s -> guard M w s = false.
Hypothesis off_callback : forall d s, off s -> off (callback M d s).
Hypothesis off_body : forall w s, off s -> off (body M w s).
Hypothesis off_halt : forall s, off s -> off (halt M s).

Lemma th_off_run sched st : off (shared st) -> off (shared (run M sched st)).
Proof. apply th_inv_run; assumption. Qed.

(** A quantity [m] that only the iterations of the thread [w] can raise, by
    one at a time, grows after [stop] by at most the iteration [w] is in. *)
Section Measure.
Variable m : St -> nat.
Variable w : Worker.
Hypothesis w_upstream : upstream w = true.
Hypothesis m_callback : forall d s, off s -> m (callback M d s) <= m s.
Hypothesis m_halt : forall s, m (halt M s) <= m s.
Hypothesis m_own : forall s, m (body M w s) <= S (m s).
Hypothesis m_other : forall w' s, w' <> w -> m (body M w' s) <= m s.

Lemma th_bound_step st a :
  off (shared st) ->
  m (shared (step M st a)) + in_flight w (phases (step M st a))
  <= m (shared st) + in_flight w (phases st).
Proof.
  intros Hoff. unfold step. destruct (process_alive st); [| lia].
  destruct a as [d | w' | w' | |]; simpl.
  - destruct (capturer (phases st)); simpl; try lia;
      pose proof (m_callback d _ Hoff); lia.
  - destruct (phase_of w' (phases st)) eqn:Hp; simpl; try lia.
    destruct (decide (w' = w)) as [-> | Hne].
    + rewrite (off_guard w _ w_upstream Hoff). unfold in_flight.
      rewrite phase_of_set_same, Hp. lia.
    + rewrite in_flight_set_other by exact Hne. lia.
  - destruct (phase_of w' (phases st)) eqn:Hp; simpl; try lia.
    destruct (decide (w' = w)) as [-> | Hne].
    + unfold in_flight. rewrite phase_of_set_same, Hp.
      pose proof (m_own (shared st)). lia.
    + rewrite in_flight_set_other by exact Hne.
      pose proof (m_other w' (shared st) Hne). lia.
  - pose proof (m_halt (shared st)). lia.
  - lia.
Qed.

Lemma th_bound_run sched st :
  off (shared st) ->
  m (shared (run M sched st)) + in_flight w (phases (run M sched st))
  <= m (shared st) + in_flight w (phases st).
Proof.
  revert st. induction sched as [| a sched IH]; intros st Hoff; simpl;
    [lia |].
  etrans; [apply IH | apply th_bound_step, Hoff].
  apply (th_off_run [a]), Hoff.
Qed.
End Measure.

(** When none of the three upstream threads is inside an iteration, only
    the callback, the Speaker and [stop] still touch the shared object. *)
Section Idle.
Variable R : St -> St -> Prop.
Hypothesis R_refl : forall s, R s s.
Hypothesis R_trans : forall s1 s2 s3, R s1 s2 -> R s2 s3 -> R s1 s3.
Hypothesis R_callback : forall d s, off s -> R s (callback M d s).
Hypothesis R_speak : forall s, off s -> R s (body M SpeakerThread s).
Hypothesis R_halt : forall s, off s -> R s (halt M s).

Lemma th_idle_step st a :
  off (shared st) -> upstream_idle (phases st) ->
  upstream_idle (phases (step M st a)) /\
  R (shared st) (shared (step M st a)).
Proof.
  intros Hoff Hi. unfold step.
  destruct (process_alive st); [| auto].
  destruct a as [d | w | w | |]; simpl; auto.
  - destruct (capturer (phases st)); simpl; auto.
  - destruct (phase_of w (phases st)) eqn:Hp; simpl; auto.
    split; [| auto]. destruct Hi as (H1 & H2 & H3).
    destruct w; simpl in *;
      rewrite ?(off_guard CapturerThread _ eq_refl Hoff),
              ?(off_guard TranscriberThread _ eq_refl Hoff),
              ?(off_guard TranslatorThread _ eq_refl Hoff);
      repeat split; simpl; auto; discriminate.
  - destruct (phase_of w (phases st)) eqn:Hp; simpl; auto.
    destruct Hi as (H1 & H2 & H3).
    destruct w; simpl in *; try congruence.
    split; [repeat split; assumption | auto].
Qed.

Lemma th_idle_run sched st :
  off (shared st) -> upstream_idle (phases st) ->
  upstream_idle (phases (run M sched st)) /\
  R (shared st) (shared (run M sched st)).
Proof.
  revert st. induction sched as [| a sched IH]; intros st Hoff Hi; simpl;
    [auto |].
  destruct (th_idle_step st a Hoff Hi) as [Hi' HR].
  destruct (IH (step M st a)) as [Hi'' HR'];
    [apply (th_off_run [a]), Hoff | exact Hi' |].
  split; [exact Hi'' | eapply R_trans; eassumption].
Qed.
End Idle.
End AfterStop.
End Machine.
End ThreadsFacts.

(** ** The threads of the basic pipeline *)

Module RealtimeThreadsFacts.
Import Realtime PyQueueFacts ListFacts RealtimeFacts.
Import Threads(Worker, CapturerThread, TranscriberThread, TranslatorThread,
               SpeakerThread, Phase, AtGuard, InIteration, Finished).

Section Threads.
Variable env : Env.
Variable cfg : Config.

Abbreviation M := (RealtimeThreads.machine env cfg).

(** *** What an iteration of each thread can change *)

Lemma rt_capture_footprint s :
  let s' := capture_body s in
  is_running s' = is_running s /\
  length (produced s') <= S (length (produced s)) /\
  chunk_number s' <= S (chunk_number s) /\
  transcripts s' = transcripts s /\ engine_calls s' = engine_calls s /\
  translations s' = translations s.
Proof.
  unfold capture_body. destruct (audio_frames s); [repeat split; auto |].
  destruct (concat _); [unfold_state; repeat split; auto |].
  destruct (put_nowait _ _); unfold_state; snoc; rewrite ?length_app; simpl;
    repeat split; auto; lia.
Qed.

Lemma rt_recognize_footprint s :
  let s' := recognize_body env cfg s in
  is_running s' = is_running s /\
  produced s' = produced s /\ chunk_number s' = chunk_number s /\
  length (transcripts s') <= S (length (transcripts s)) /\
  engine_calls s' = engine_calls s /\ translations s' = translations s.
Proof.
  unfold recognize_body.
  destruct (get (audio_queue s)) as [[a q] |]; [| repeat split; auto].
  destruct (recognize_google env a (source_lang cfg)) as [text | | |];
    [destruct (PyStr.truthy text); [destruct (put _ _) |] | ..];
    unfold_state; snoc; rewrite ?length_app; simpl; repeat split; auto; lia.
Qed.

Lemma rt_translate_footprint s :
  let s' := translate_body env cfg s in
  is_running s' = is_running s /\
  produced s' = produced s /\ chunk_number s' = chunk_number s /\
  transcripts s' = transcripts s /\
  length (engine_calls s') <= S (length (engine_calls s)) /\
  length (translations s') <= S (length (translations s)).
Proof.
  unfold translate_body.
  destruct (get (text_queue s)) as [[t q] |]; [| repeat split; auto].
  destruct (translate env t (source_lang cfg) (target_lang cfg));
    [destruct (put _ _) |];
    unfold_state; snoc; rewrite ?length_app; simpl; repeat split; auto; lia.
Qed.

Lemma rt_speak_footprint s :
  let s' := speak_body env cfg s in
  is_running s' = is_running s /\
  produced s' = produced s /\ chunk_number s' = chunk_number s /\
  transcripts s' = transcripts s /\ engine_calls s' = engine_calls s /\
  translations s' = translations s.
Proof.
  unfold speak_body.
  destruct (get (translation_queue s)) as [[t q] |]; [| repeat split; auto].
  destruct (gTTS env t (target_lang cfg)) as [audio |];
    [destruct (play env audio); [destruct (cleanup env audio) |] |];
    unfold_state; snoc; repeat split; auto.
Qed.

Lemma rt_body_is_running w s :
  is_running (Threads.body M w s) = is_running s.
Proof.
  destruct w; simpl.
  - apply rt_capture_footprint.
  - apply rt_recognize_footprint.
  - apply rt_translate_footprint.
  - apply rt_speak_footprint.
Qed.

Lemma rt_callback_stopped d s : is_running s = false -> audio_callback d s = s.
Proof. intros H. unfold audio_callback. now rewrite H. Qed.

(** *** The invariant of the pipeline, whatever the threads do *)


(** *** After [stop] *)

Lemma rt_threads_off sched st :
  is_running (Threads.shared st) = false ->
  is_running (Threads.shared (Threads.run M sched st)) = false.
Proof.
  apply (ThreadsFacts.th_inv_run M (fun s => is_running s = false)).
  - intros d s H. now rewrite rt_callback_stopped.
  - intros w s H. now rewrite rt_body_is_running.
  - reflexivity.
Qed.

(** A quantity that only the iterations of one upstream thread raise. *)
Lemma rt_threads_bound (m : State -> nat) (w : Worker) sched st :
  Threads.upstream w = true ->
  (forall s, m (stop s) <= m s) ->
  (forall s, m (Threads.body M w s) <= S (m s)) ->
  (forall w' s, w' <> w -> m (Threads.body M w' s) <= m s) ->
  is_running (Threads.shared st) = false ->
  m (Threads.shared (Threads.run M sched st))
  + Threads.in_flight w (Threads.phases (Threads.run M sched st))
  <= m (Threads.shared st) + Threads.in_flight w (Threads.phases st).
Proof.
  intros Hw Hstop Hown Hother Hoff.
  apply (ThreadsFacts.th_bound_run M (fun s => is_running s = false));
    try assumption.
  - intros [] s Hu H; simpl in *; try exact H; discriminate.
  - intros d s H. now rewrite rt_callback_stopped.
  - intros w' s H. now rewrite rt_body_is_running.
  - reflexivity.
  - intros d s H. simpl. rewrite rt_callback_stopped by exact H. lia.
Qed.

Lemma rt_speak_only_spoken s :
  RealtimeThreads.only_spoken s (speak_body env cfg s).
Proof.
  unfold RealtimeThreads.only_spoken, speak_body.
  destruct (get (translation_queue s)) as [[t q] |] eqn:Eg;
    [| repeat split; auto].
  apply get_Some in Eg as [_ Hit]. rewrite Hit.
  destruct (gTTS env t (target_lang cfg)) as [audio |];
    [destruct (play env audio); [destruct (cleanup env audio) |] |];
    unfold_state; snoc; rewrite <- ?app_assoc;
    repeat split; auto; apply suffix_cons_r; reflexivity.
Qed.

Lemma rt_only_spoken_trans s1 s2 s3 :
  RealtimeThreads.only_spoken s1 s2 -> RealtimeThreads.only_spoken s2 s3 ->
  RealtimeThreads.only_spoken s1 s3.
Proof.
  intros (E1 & E2 & E3 & E4 & E5 & E6 & E7 & E8 & E9 & E10)
         (F1 & F2 & F3 & F4 & F5 & F6 & F7 & F8 & F9 & F10).
  unfold RealtimeThreads.only_spoken.
  repeat split; try congruence. etrans; eassumption.
Qed.

(** With no upstream thread inside an iteration, what happens after [stop]
    is the work of the Speaker alone. *)
Lemma rt_threads_idle sched st :
  is_running (Threads.shared st) = false ->
  Threads.upstream_idle (Threads.phases st) ->
  Threads.upstream_idle (Threads.phases (Threads.run M sched st)) /\
  RealtimeThreads.only_spoken (Threads.shared st)
    (Threads.shared (Threads.run M sched st)).
Proof.
  apply (ThreadsFacts.th_idle_run M (fun s => is_running s = false)).
  - intros [] s Hu H; simpl in *; try exact H; discriminate.
  - intros d s H. now rewrite rt_callback_stopped.
  - intros w' s H. now rewrite rt_body_is_running.
  - reflexivity.
  - intros s. unfold RealtimeThreads.only_spoken. repeat split; auto.
  - apply rt_only_spoken_trans.
  - intros d s H. rewrite rt_callback_stopped by exact H.
    unfold RealtimeThreads.only_spoken. repeat split; auto.
  - intros s _. apply rt_speak_only_spoken.
  - intros s _. unfold RealtimeThreads.only_spoken, stop. unfold_state.
    repeat split; auto.
Qed.

(** After [stop] each upstream thread finishes at most the iteration it
    is in. *)
Lemma rt_threads_after_stop sched st :
  is_running (Threads.shared st) = false ->
  let s := Threads.shared st in
  let s' := Threads.shared (Threads.run M sched st) in
  let p := Threads.phases st in
  length (produced s')
  <= length (produced s) + Threads.in_flight CapturerThread p /\
  chunk_number s' <= chunk_number s + Threads.in_flight CapturerThread p /\
  length (transcripts s')
  <= length (transcripts s) + Threads.in_flight TranscriberThread p /\
  length (engine_calls s')
  <= length (engine_calls s) + Threads.in_flight TranslatorThread p /\
  length (translations s')
  <= length (translations s) + Threads.in_flight TranslatorThread p.
Proof.
  intros Hoff s s' p.
  pose proof (rt_threads_bound (fun s => length (produced s)) CapturerThread
                sched st eq_refl) as B1.
  pose proof (rt_threads_bound chunk_number CapturerThread
                sched st eq_refl) as B2.
  pose proof (rt_threads_bound (fun s => length (transcripts s))
                TranscriberThread sched st eq_refl) as B3.
  pose proof (rt_threads_bound (fun s => length (engine_calls s))
                TranslatorThread sched st eq_refl) as B4.
  pose proof (rt_threads_bound (fun s => length (translations s))
                TranslatorThread sched st eq_refl) as B5.
  assert (F1 := rt_capture_footprint). assert (F2 := rt_recognize_footprint).
  assert (F3 := rt_translate_footprint). assert (F4 := rt_speak_footprint).
  cbv zeta in F1, F2, F3, F4.
  repeat split.
  - cut (length (produced s')
         + Threads.in_flight CapturerThread
             (Threads.phases (Threads.run M sched st))
         <= length (produced s) + Threads.in_flight CapturerThread p);
      [lia |].
    apply B1; [reflexivity | intros s0; simpl; apply F1 | | exact Hoff].
    intros [] s0 Hne; simpl; try congruence;
      [destruct (F2 s0) as (_ & -> & _) | destruct (F3 s0) as (_ & -> & _)
       | destruct (F4 s0) as (_ & -> & _)]; lia.
  - cut (chunk_number s'
         + Threads.in_flight CapturerThread
             (Threads.phases (Threads.run M sched st))
         <= chunk_number s + Threads.in_flight CapturerThread p);
      [lia |].
    apply B2; [reflexivity | intros s0; simpl; apply F1 | | exact Hoff].
    intros [] s0 Hne; simpl; try congruence;
      [destruct (F2 s0) as (_ & _ & -> & _)
       | destruct (F3 s0) as (_ & _ & -> & _)
       | destruct (F4 s0) as (_ & _ & -> & _)]; lia.
  - cut (length (transcripts s')
         + Threads.in_flight TranscriberThread
             (Threads.phases (Threads.run M sched st))
         <= length (transcripts s) + Threads.in_flight TranscriberThread p);
      [lia |].
    apply B3; [reflexivity | intros s0; simpl; apply F2 | | exact Hoff].
    intros [] s0 Hne; simpl; try congruence;
      [destruct (F1 s0) as (_ & _ & _ & -> & _)
       | destruct (F3 s0) as (_ & _ & _ & -> & _)
       | destruct (F4 s0) as (_ & _ & _ & -> & _)]; lia.
  - cut (length (engine_calls s')
         + Threads.in_flight TranslatorThread
             (Threads.phases (Threads.run M sched st))
         <= length (engine_calls s) + Threads.in_flight TranslatorThread p);
      [lia |].
    apply B4; [reflexivity | intros s0; simpl; apply F3 | | exact Hoff].
    intros [] s0 Hne; simpl; try congruence;
      [destruct (F1 s0) as (_ & _ & _ & _ & -> & _)
       | destruct (F2 s0) as (_ & _ & _ & _ & -> & _)
       | destruct (F4 s0) as (_ & _ & _ & _ & -> & _)]; lia.
  - cut (length (translations s')
         + Threads.in_flight TranslatorThread
             (Threads.phases (Threads.run M sched st))
         <= length (translations s) + Threads.in_flight TranslatorThread p);
      [lia |].
    apply B5; [reflexivity | intros s0; simpl; apply F3 | | exact Hoff].
    intros [] s0 Hne; simpl; try congruence;
      [destruct (F1 s0) as (_ & _ & _ & _ & _ & ->)
       | destruct (F2 s0) as (_ & _ & _ & _ & _ & ->)
       | destruct (F4 s0) as (_ & _ & _ & _ & _ & ->)]; lia.
Qed.

(** *** The Speaker, turn by turn *)



(** *** The pipeline of one-step iterations inside the machine *)

Lemma rt_guard_false w s :
  Threads.guard M w s = false -> is_running s = false.
Proof.
  destruct w; simpl; auto. unfold speak_guard. intros H.
  now apply orb_false_elim in H.
Qed.

(** A guard that has failed never holds again. *)
Lemma rt_guard_false_stays w s a :
  Threads.guard M w s = false ->
  Threads.guard M w (step env cfg s a) = false.
Proof.
  intros H. pose proof (rt_guard_false w s H) as Hr.
  destruct a; simpl step.
  - now rewrite rt_callback_stopped.
  - unfold continuous_audio_capture. now rewrite Hr.
  - unfold recognize_speech. now rewrite Hr.
  - unfold translate_text. now rewrite Hr.
  - unfold speak_translation.
    destruct (speak_guard s) eqn:Hg; [| exact H].
    destruct w; simpl in *; try congruence;
      rewrite (proj1 (rt_speak_footprint s)); exact Hr.
  - destruct w; simpl in *; try reflexivity.
    unfold speak_guard in *. simpl. rewrite Hr in H. exact H.
Qed.

Lemma rt_refine_step a st :
  Threads.process_alive st = true ->
  (forall w, Threads.phase_of w (Threads.phases st) = AtGuard \/
             (Threads.phase_of w (Threads.phases st) = Finished /\
              Threads.guard M w (Threads.shared st) = false)) ->
  let st' := Threads.run M (RealtimeThreads.refine a) st in
  Threads.shared st' = step env cfg (Threads.shared st) a /\
  Threads.process_alive st' = true /\
  (forall w, Threads.phase_of w (Threads.phases st') = AtGuard \/
             (Threads.phase_of w (Threads.phases st') = Finished /\
              Threads.guard M w (Threads.shared st') = false)).
Proof.
  intros Ha HJ st'.
  assert (Hturn : forall w b,
             RealtimeThreads.refine a = Threads.turn w ->
             step env cfg (Threads.shared st) a
             = (if Threads.guard M w (Threads.shared st)
                then Threads.body M w (Threads.shared st)
                else Threads.shared st) ->
             b = Threads.run M (Threads.turn w) st ->
             Threads.shared b = step env cfg (Threads.shared st) a /\
             Threads.process_alive b = true /\
             (forall w', Threads.phase_of w' (Threads.phases b) = AtGuard \/
                         (Threads.phase_of w' (Threads.phases b) = Finished /\
                          Threads.guard M w' (Threads.shared b) = false))).
  { intros w b _ Hs ->.
    destruct (HJ w) as [Hp | [Hp Hg]].
    - rewrite ThreadsFacts.th_turn by assumption. rewrite Hs.
      destruct (Threads.guard M w (Threads.shared st)) eqn:Hg; simpl.
      + repeat split; auto. intros w'.
        destruct (HJ w') as [Hp' | [Hp' Hg']]; [now left | right].
        split; [exact Hp' |].
        change (Threads.guard M w' (Threads.body M w (Threads.shared st))
                = false).
        rewrite <- Hs. now apply rt_guard_false_stays.
      + repeat split; auto. intros w'.
        destruct (decide (w = w')) as [<- | Hne].
        * right. now rewrite ThreadsFacts.phase_of_set_same.
        * rewrite ThreadsFacts.phase_of_set_other by exact Hne. apply HJ.
    - rewrite ThreadsFacts.th_turn_finished by assumption.
      rewrite Hs, Hg. repeat split; auto. }
  destruct a; simpl RealtimeThreads.refine in *.
  - unfold st', Threads.run. simpl. unfold Threads.step. rewrite Ha.
    destruct (HJ CapturerThread) as [Hp | [Hp Hg]]; simpl in Hp; rewrite Hp;
      simpl.
    + repeat split; auto. intros w.
      destruct (HJ w) as [Hp' | [Hp' Hg']]; [now left | right].
      split; [exact Hp' |].
      now apply (rt_guard_false_stays w _ (AudioCallback in_data)).
    + simpl in Hg. rewrite rt_callback_stopped by exact Hg.
      repeat split; auto.
  - apply (Hturn CapturerThread); reflexivity.
  - apply (Hturn TranscriberThread); reflexivity.
  - apply (Hturn TranslatorThread); reflexivity.
  - apply (Hturn SpeakerThread); reflexivity.
  - unfold st', Threads.run. simpl. unfold Threads.step. rewrite Ha. simpl.
    repeat split; auto. intros w.
    destruct (HJ w) as [Hp' | [Hp' Hg']]; [now left | right].
    split; [exact Hp' |]. now apply (rt_guard_false_stays w _ Stop).
Qed.

Lemma rt_refine_run sched :
  forall st,
  Threads.process_alive st = true ->
  (forall w, Threads.phase_of w (Threads.phases st) = AtGuard \/
             (Threads.phase_of w (Threads.phases st) = Finished /\
              Threads.guard M w (Threads.shared st) = false)) ->
  let st' := Threads.run M (RealtimeThreads.refined sched) st in
  Threads.shared st' = run env cfg sched (Threads.shared st) /\
  Threads.process_alive st' = true /\
  (forall w, Threads.phase_of w (Threads.phases st') <> InIteration).
Proof.
  induction sched as [| a sched IH]; intros st Ha HJ.
  - simpl. repeat split; auto. intros w.
    destruct (HJ w) as [-> | [-> _]]; discriminate.
  - unfold RealtimeThreads.refined. simpl map. simpl concat.
    rewrite ThreadsFacts.th_run_app.
    destruct (rt_refine_step a st Ha HJ) as (E1 & E2 & E3).
    destruct (IH _ E2 E3) as (F1 & F2 & F3).
    unfold RealtimeThreads.refined in F1, F2, F3.
    cbv zeta in F1, F2, F3. simpl run. rewrite <- E1.
    repeat split; assumption.
Qed.
End Threads.
End RealtimeThreadsFacts.

(** ** The threads of the Whisper pipeline *)

Module WhisperThreadsFacts.
Import Whisper PyQueueFacts ListFacts WhisperFacts.
Import Threads(Worker, CapturerThread, TranscriberThread, TranslatorThread,
               SpeakerThread, Phase, AtGuard, InIteration, Finished).

Section Threads.
Variable env : Env.
Variable cfg : Config.

Abbreviation M := (WhisperThreads.machine env cfg).

(** *** What an iteration of each thread can change *)

Lemma wh_record_footprint s :
  let s' := record_body s in
  is_running s' = is_running s /\
  length (accepted s') <= S (length (accepted s)) /\
  transcripts s' = transcripts s /\ engine_calls s' = engine_calls s /\
  translations s' = translations s /\
  translation_cache s' = translation_cache s.
Proof.
  unfold record_body. destruct (audio_buffer s); [repeat split; auto |].
  destruct (is_speech _); [destruct (put _ _) |];
    unfold_state; snoc; rewrite ?length_app; simpl; repeat split; auto; lia.
Qed.

Lemma wh_transcribe_footprint s :
  let s' := transcribe_body env cfg s in
  is_running s' = is_running s /\
  accepted s' = accepted s /\
  length (transcripts s') <= S (length (transcripts s)) /\
  engine_calls s' = engine_calls s /\ translations s' = translations s /\
  translation_cache s' = translation_cache s.
Proof.
  unfold transcribe_body.
  destruct (get (audio_queue s)) as [[a q] |]; [| repeat split; auto].
  destruct (whisper_transcribe env a (source_lang cfg)) as [raw |];
    [destruct (PyStr.truthy (PyStr.strip raw)); [destruct (put _ _) |] |];
    unfold_state; snoc; rewrite ?length_app; simpl; repeat split; auto; lia.
Qed.

Lemma wh_translate_footprint s :
  let s' := translate_body env cfg s in
  is_running s' = is_running s /\
  accepted s' = accepted s /\ transcripts s' = transcripts s /\
  length (engine_calls s') <= S (length (engine_calls s)) /\
  length (translations s') <= S (length (translations s)) /\
  size (translation_cache s') <= S (size (translation_cache s)).
Proof.
  unfold translate_body.
  destruct (get (text_queue s)) as [[t q] |]; [| repeat split; auto].
  cbv zeta. simpl translation_cache.
  destruct (translation_cache s !! t) as [v |] eqn:Ec.
  - destruct (put _ _); unfold_state; snoc; rewrite ?length_app; simpl;
      repeat split; auto; lia.
  - destruct (translate env t (source_lang cfg) (target_lang cfg)) as [v |];
      [destruct (put _ _) |];
      unfold_state; snoc; rewrite ?length_app; simpl;
      rewrite ?map_size_insert, ?Ec; repeat split; auto; lia.
Qed.

Lemma wh_speak_footprint s :
  let s' := speak_body env cfg s in
  is_running s' = is_running s /\
  accepted s' = accepted s /\ transcripts s' = transcripts s /\
  engine_calls s' = engine_calls s /\ translations s' = translations s /\
  translation_cache s' = translation_cache s.
Proof.
  unfold speak_body.
  destruct (get (translation_queue s)) as [[t q] |]; [| repeat split; auto].
  destruct (gTTS env t (target_lang cfg)) as [audio |];
    [destruct (play env audio); [destruct (cleanup env audio) |] |];
    unfold_state; snoc; repeat split; auto.
Qed.

Lemma wh_body_is_running w s :
  is_running (Threads.body M w s) = is_running s.
Proof.
  destruct w; simpl.
  - apply wh_record_footprint.
  - apply wh_transcribe_footprint.
  - apply wh_translate_footprint.
  - apply wh_speak_footprint.
Qed.

(** *** The invariant of the pipeline, whatever the threads do *)


(** *** After [stop] *)

Lemma wh_threads_off sched st :
  is_running (Threads.shared st) = false ->
  is_running (Threads.shared (Threads.run M sched st)) = false.
Proof.
  apply (ThreadsFacts.th_inv_run M (fun s => is_running s = false)).
  - intros d s H. exact H.
  - intros w s H. now rewrite wh_body_is_running.
  - reflexivity.
Qed.

(** A quantity that only the iterations of one upstream thread raise. *)
Lemma wh_threads_bound (m : State -> nat) (w : Worker) sched st :
  Threads.upstream w = true ->
  (forall d s, m (audio_callback cfg d s) <= m s) ->
  (forall s, m (stop s) <= m s) ->
  (forall s, m (Threads.body M w s) <= S (m s)) ->
  (forall w' s, w' <> w -> m (Threads.body M w' s) <= m s) ->
  is_running (Threads.shared st) = false ->
  m (Threads.shared (Threads.run M sched st))
  + Threads.in_flight w (Threads.phases (Threads.run M sched st))
  <= m (Threads.shared st) + Threads.in_flight w (Threads.phases st).
Proof.
  intros Hw Hcb Hstop Hown Hother Hoff.
  apply (ThreadsFacts.th_bound_run M (fun s => is_running s = false));
    try assumption.
  - intros [] s Hu H; simpl in *; try exact H; discriminate.
  - intros d s H. exact H.
  - intros w' s H. now rewrite wh_body_is_running.
  - reflexivity.
  - intros d s _. apply Hcb.
Qed.

Lemma wh_speak_only_spoken s :
  WhisperThreads.only_spoken s (speak_body env cfg s).
Proof.
  unfold WhisperThreads.only_spoken, speak_body.
  destruct (get (translation_queue s)) as [[t q] |] eqn:Eg;
    [| repeat split; auto].
  apply get_Some in Eg as [_ Hit]. rewrite Hit.
  destruct (gTTS env t (target_lang cfg)) as [audio |];
    [destruct (play env audio); [destruct (cleanup env audio) |] |];
    unfold_state; snoc; rewrite <- ?app_assoc;
    repeat split; auto; apply suffix_cons_r; reflexivity.
Qed.

Lemma wh_only_spoken_trans s1 s2 s3 :
  WhisperThreads.only_spoken s1 s2 -> WhisperThreads.only_spoken s2 s3 ->
  WhisperThreads.only_spoken s1 s3.
Proof.
  intros (E1 & E2 & E3 & E4 & E5 & E6 & E7 & E8 & E9)
         (F1 & F2 & F3 & F4 & F5 & F6 & F7 & F8 & F9).
  unfold WhisperThreads.only_spoken.
  repeat split; try congruence. etrans; eassumption.
Qed.

(** With no upstream thread inside an iteration, what happens after [stop]
    is the work of the Speaker alone. *)
Lemma wh_threads_idle sched st :
  is_running (Threads.shared st) = false ->
  Threads.upstream_idle (Threads.phases st) ->
  Threads.upstream_idle (Threads.phases (Threads.run M sched st)) /\
  WhisperThreads.only_spoken (Threads.shared st)
    (Threads.shared (Threads.run M sched st)).
Proof.
  apply (ThreadsFacts.th_idle_run M (fun s => is_running s = false)).
  - intros [] s Hu H; simpl in *; try exact H; discriminate.
  - intros d s H. exact H.
  - intros w' s H. now rewrite wh_body_is_running.
  - reflexivity.
  - intros s. unfold WhisperThreads.only_spoken. repeat split; auto.
  - apply wh_only_spoken_trans.
  - intros d s H. unfold WhisperThreads.only_spoken. simpl.
    unfold audio_callback. unfold_state. repeat split; auto.
  - intros s _. apply wh_speak_only_spoken.
  - intros s _. unfold WhisperThreads.only_spoken, stop. unfold_state.
    repeat split; auto.
Qed.

(** After [stop] each upstream thread finishes at most the iteration it
    is in. *)
Lemma wh_threads_after_stop sched st :
  is_running (Threads.shared st) = false ->
  let s := Threads.shared st in
  let s' := Threads.shared (Threads.run M sched st) in
  let p := Threads.phases st in
  length (accepted s')
  <= length (accepted s) + Threads.in_flight CapturerThread p /\
  length (transcripts s')
  <= length (transcripts s) + Threads.in_flight TranscriberThread p /\
  length (engine_calls s')
  <= length (engine_calls s) + Threads.in_flight TranslatorThread p /\
  length (translations s')
  <= length (translations s) + Threads.in_flight TranslatorThread p /\
  size (translation_cache s')
  <= size (translation_cache s) + Threads.in_flight TranslatorThread p.
Proof.
  intros Hoff s s' p.
  pose proof (wh_threads_bound (fun s => length (accepted s)) CapturerThread
                sched st eq_refl) as B1.
  pose proof (wh_threads_bound (fun s => length (transcripts s))
                TranscriberThread sched st eq_refl) as B2.
  pose proof (wh_threads_bound (fun s => length (engine_calls s))
                TranslatorThread sched st eq_refl) as B3.
  pose proof (wh_threads_bound (fun s => length (translations s))
                TranslatorThread sched st eq_refl) as B4.
  pose proof (wh_threads_bound (fun s => size (translation_cache s))
                TranslatorThread sched st eq_refl) as B5.
  assert (F1 := wh_record_footprint). assert (F2 := wh_transcribe_footprint).
  assert (F3 := wh_translate_footprint). assert (F4 := wh_speak_footprint).
  cbv zeta in F1, F2, F3, F4.
  repeat split.
  - cut (length (accepted s')
         + Threads.in_flight CapturerThread
             (Threads.phases (Threads.run M sched st))
         <= length (accepted s) + Threads.in_flight CapturerThread p);
      [lia |].
    apply B1; [reflexivity | reflexivity | intros s0; simpl; apply F1 |
               | exact Hoff].
    intros [] s0 Hne; simpl; try congruence;
      [destruct (F2 s0) as (_ & -> & _) | destruct (F3 s0) as (_ & -> & _)
       | destruct (F4 s0) as (_ & -> & _)]; lia.
  - cut (length (transcripts s')
         + Threads.in_flight TranscriberThread
             (Threads.phases (Threads.run M sched st))
         <= length (transcripts s) + Threads.in_flight TranscriberThread p);
      [lia |].
    apply B2; [reflexivity | reflexivity | intros s0; simpl; apply F2 |
               | exact Hoff].
    intros [] s0 Hne; simpl; try congruence;
      [destruct (F1 s0) as (_ & _ & -> & _)
       | destruct (F3 s0) as (_ & _ & -> & _)
       | destruct (F4 s0) as (_ & _ & -> & _)]; lia.
  - cut (length (engine_calls s')
         + Threads.in_flight TranslatorThread
             (Threads.phases (Threads.run M sched st))
         <= length (engine_calls s) + Threads.in_flight TranslatorThread p);
      [lia |].
    apply B3; [reflexivity | reflexivity | intros s0; simpl; apply F3 |
               | exact Hoff].
    intros [] s0 Hne; simpl; try congruence;
      [destruct (F1 s0) as (_ & _ & _ & -> & _)
       | destruct (F2 s0) as (_ & _ & _ & -> & _)
       | destruct (F4 s0) as (_ & _ & _ & -> & _)]; lia.
  - cut (length (translations s')
         + Threads.in_flight TranslatorThread
             (Threads.phases (Threads.run M sched st))
         <= length (translations s) + Threads.in_flight TranslatorThread p);
      [lia |].
    apply B4; [reflexivity | reflexivity | intros s0; simpl; apply F3 |
               | exact Hoff].
    intros [] s0 Hne; simpl; try congruence;
      [destruct (F1 s0) as (_ & _ & _ & _ & -> & _)
       | destruct (F2 s0) as (_ & _ & _ & _ & -> & _)
       | destruct (F4 s0) as (_ & _ & _ & _ & -> & _)]; lia.
  - cut (size (translation_cache s')
         + Threads.in_flight TranslatorThread
             (Threads.phases (Threads.run M sched st))
         <= size (translation_cache s) + Threads.in_flight TranslatorThread p);
      [lia |].
    apply B5; [reflexivity | reflexivity | intros s0; simpl; apply F3 |
               | exact Hoff].
    intros [] s0 Hne; simpl; try congruence;
      [destruct (F1 s0) as (_ & _ & _ & _ & _ & ->)
       | destruct (F2 s0) as (_ & _ & _ & _ & _ & ->)
       | destruct (F4 s0) as (_ & _ & _ & _ & _ & ->)]; lia.
Qed.

(** *** The Speaker, turn by turn *)



(** *** The pipeline of one-step iterations inside the machine *)

Lemma wh_guard_false w s :
  Threads.guard M w s = false -> is_running s = false.
Proof.
  destruct w; simpl; auto. unfold speak_guard. intros H.
  now apply orb_false_elim in H.
Qed.

(** A guard that has failed never holds again. *)
Lemma wh_guard_false_stays w s a :
  Threads.guard M w s = false ->
  Threads.guard M w (step env cfg s a) = false.
Proof.
  intros H. pose proof (wh_guard_false w s H) as Hr.
  destruct a; simpl step.
  - destruct w; exact H.
  - unfold record_audio_chunk. now rewrite Hr.
  - unfold transcribe_audio. now rewrite Hr.
  - unfold translate_text. now rewrite Hr.
  - unfold speak_translation.
    destruct (speak_guard s) eqn:Hg; [| exact H].
    destruct w; simpl in *; try congruence;
      rewrite (proj1 (wh_speak_footprint s)); exact Hr.
  - destruct w; simpl in *; try reflexivity.
    unfold speak_guard in *. simpl. rewrite Hr in H. exact H.
Qed.

(** Only [stop] clears the flag. *)
Lemma wh_flag_cleared s a :
  is_running s = true -> is_running (step env cfg s a) = false -> a = Stop.
Proof.
  intros Hr H. destruct a; simpl in H; try reflexivity; exfalso.
  - unfold audio_callback in H. simpl in H. congruence.
  - unfold record_audio_chunk in H. rewrite Hr in H.
    rewrite (proj1 (wh_record_footprint s)) in H. congruence.
  - unfold transcribe_audio in H. rewrite Hr in H.
    rewrite (proj1 (wh_transcribe_footprint s)) in H. congruence.
  - unfold translate_text in H. rewrite Hr in H.
    rewrite (proj1 (wh_translate_footprint s)) in H. congruence.
  - unfold speak_translation in H. destruct (speak_guard s); [| congruence].
    rewrite (proj1 (wh_speak_footprint s)) in H. congruence.
Qed.

Lemma wh_refine_step a st :
  Threads.process_alive st = true ->
  (forall w, Threads.phase_of w (Threads.phases st) = AtGuard \/
             (Threads.phase_of w (Threads.phases st) = Finished /\
              Threads.guard M w (Threads.shared st) = false)) ->
  (forall d, a = AudioCallback d -> is_running (Threads.shared st) = true) ->
  let st' := Threads.run M (WhisperThreads.refine a) st in
  Threads.shared st' = step env cfg (Threads.shared st) a /\
  Threads.process_alive st' = true /\
  (forall w, Threads.phase_of w (Threads.phases st') = AtGuard \/
             (Threads.phase_of w (Threads.phases st') = Finished /\
              Threads.guard M w (Threads.shared st') = false)).
Proof.
  intros Ha HJ Hcb st'.
  assert (Hturn : forall w b,
             WhisperThreads.refine a = Threads.turn w ->
             step env cfg (Threads.shared st) a
             = (if Threads.guard M w (Threads.shared st)
                then Threads.body M w (Threads.shared st)
                else Threads.shared st) ->
             b = Threads.run M (Threads.turn w) st ->
             Threads.shared b = step env cfg (Threads.shared st) a /\
             Threads.process_alive b = true /\
             (forall w', Threads.phase_of w' (Threads.phases b) = AtGuard \/
                         (Threads.phase_of w' (Threads.phases b) = Finished /\
                          Threads.guard M w' (Threads.shared b) = false))).
  { intros w b _ Hs ->.
    destruct (HJ w) as [Hp | [Hp Hg]].
    - rewrite ThreadsFacts.th_turn by assumption. rewrite Hs.
      destruct (Threads.guard M w (Threads.shared st)) eqn:Hg; simpl.
      + repeat split; auto. intros w'.
        destruct (HJ w') as [Hp' | [Hp' Hg']]; [now left | right].
        split; [exact Hp' |].
        change (Threads.guard M w' (Threads.body M w (Threads.shared st))
                = false).
        rewrite <- Hs. now apply wh_guard_false_stays.
      + repeat split; auto. intros w'.
        destruct (decide (w = w')) as [<- | Hne].
        * right. now rewrite ThreadsFacts.phase_of_set_same.
        * rewrite ThreadsFacts.phase_of_set_other by exact Hne. apply HJ.
    - rewrite ThreadsFacts.th_turn_finished by assumption.
      rewrite Hs, Hg. repeat split; auto. }
  destruct a; simpl WhisperThreads.refine in *.
  - unfold st', Threads.run. simpl. unfold Threads.step. rewrite Ha.
    destruct (HJ CapturerThread) as [Hp | [Hp Hg]]; simpl in Hp; rewrite Hp;
      simpl.
    + repeat split; auto.
    + simpl in Hg. rewrite (Hcb indata eq_refl) in Hg. discriminate.
  - apply (Hturn CapturerThread); reflexivity.
  - apply (Hturn TranscriberThread); reflexivity.
  - apply (Hturn TranslatorThread); reflexivity.
  - apply (Hturn SpeakerThread); reflexivity.
  - unfold st', Threads.run. simpl. unfold Threads.step. rewrite Ha. simpl.
    repeat split; auto. intros w.
    destruct (HJ w) as [Hp' | [Hp' Hg']]; [now left | right].
    split; [exact Hp' |]. now apply (wh_guard_false_stays w _ Stop).
Qed.

Lemma wh_refine_run sched :
  forall st,
  Threads.process_alive st = true ->
  (forall w, Threads.phase_of w (Threads.phases st) = AtGuard \/
             (Threads.phase_of w (Threads.phases st) = Finished /\
              Threads.guard M w (Threads.shared st) = false)) ->
  (is_running (Threads.shared st) = false ->
   forall d, AudioCallback d ∉ sched) ->
  (forall pre d post, sched = pre ++ AudioCallback d :: post -> Stop ∉ pre) ->
  let st' := Threads.run M (WhisperThreads.refined sched) st in
  Threads.shared st' = run env cfg sched (Threads.shared st) /\
  Threads.process_alive st' = true /\
  (forall w, Threads.phase_of w (Threads.phases st') <> InIteration).
Proof.
  induction sched as [| a sched IH]; intros st Ha HJ Hq Hs.
  - simpl. repeat split; auto. intros w.
    destruct (HJ w) as [-> | [-> _]]; discriminate.
  - unfold WhisperThreads.refined. simpl map. simpl concat.
    rewrite ThreadsFacts.th_run_app.
    assert (Hcb : forall d, a = AudioCallback d ->
                            is_running (Threads.shared st) = true).
    { intros d ->. destruct (is_running (Threads.shared st)) eqn:Hr;
        [reflexivity |].
      exfalso. apply (Hq eq_refl d). left. }
    destruct (wh_refine_step a st Ha HJ Hcb) as (E1 & E2 & E3).
    destruct (IH (Threads.run M (WhisperThreads.refine a) st) E2 E3)
      as (F1 & F2 & F3).
    + intros Hoff d Hin. rewrite E1 in Hoff.
      destruct (is_running (Threads.shared st)) eqn:Hr.
      * apply wh_flag_cleared in Hoff; [| exact Hr]. subst a.
        apply list_elem_of_split in Hin as (pre & post & ->).
        apply (Hs (Stop :: pre) d post eq_refl). left.
      * apply (Hq eq_refl d). now right.
    + intros pre d post ->. intros Hin.
      apply (Hs (a :: pre) d post eq_refl). now right.
    + unfold WhisperThreads.refined in F1, F2, F3.
      cbv zeta in F1, F2, F3. simpl run. rewrite <- E1.
      repeat split; assumption.
Qed.
End Threads.
End WhisperThreadsFacts.

(** * The claims of the specification *)

Import Examples.

(** ** C1: no loss under capacity *)

(** C1, as stated, fails: a chunk that passes the silence test of the Whisper
    pipeline, in which Whisper hears no words, is fed while every queue is
    unbounded and therefore never full; once all the queues are empty again
    there is one chunk, no transcript, no translation and no utterance. *)
Lemma no_loss_fails_on_wordless_chunk :
  let s := Whisper.run wh_env_wordless wh_cfg wh_pipeline_once Whisper.started in
  Whisper.accepted s = [loud] /\ Whisper.is_speech loud = true /\
  Whisper.quiescent s /\
  Whisper.transcripts s = [] /\ Whisper.translations s = [] /\
  Whisper.played s = [] /\
  length (Whisper.transcripts s) <> length (Whisper.accepted s).
Proof. vm_compute. repeat split; discriminate. Qed.

(** C1, amended: for every interleaving of the workers in which no chunk
    was dropped on a full queue and in which the engines carry every chunk
    that was produced (each call made for it succeeds, the speech-to-text
    engine with a non-empty text; nothing is asked of the engines on any
    other input), a state whose queues are all empty has exactly as many
    transcripts, translations (from the engine or the cache) and played
    utterances as chunks were produced, each the image of the one before
    and in the order of the chunks; and while the pipeline runs, letting
    the three consumers work off the queues leads to such a state. *)
Theorem no_loss_under_capacity :
  (forall (env : Realtime.Env) (cfg : Realtime.Config)
          (sched : list Realtime.Action),
      let s := Realtime.run env cfg sched Realtime.started in
      Realtime.dropped s = [] ->
      (forall a, a ∈ Realtime.produced s -> Realtime.carried env cfg a) ->
      (Realtime.quiescent s -> Realtime.no_loss env cfg s) /\
      (Realtime.is_running s = true ->
       let s' := Realtime.run env cfg (Realtime.drain_schedule s) s in
       Realtime.produced s' = Realtime.produced s /\
       Realtime.quiescent s' /\ Realtime.no_loss env cfg s')) /\
  (forall (env : Whisper.Env) (cfg : Whisper.Config)
          (sched : list Whisper.Action),
      let s := Whisper.run env cfg sched Whisper.started in
      (forall a, a ∈ Whisper.accepted s -> Whisper.carried env cfg a) ->
      (Whisper.quiescent s -> Whisper.no_loss env cfg s) /\
      (Whisper.is_running s = true ->
       let s' := Whisper.run env cfg (Whisper.drain_schedule s) s in
       Whisper.accepted s' = Whisper.accepted s /\
       Whisper.quiescent s' /\ Whisper.no_loss env cfg s')).
Proof.
  split.
  - intros env cfg sched s Hd Hc.
    assert (H : Realtime.Inv env cfg s) by apply RealtimeFacts.rt_Inv_reachable.
    split.
    + intros Hq. now apply RealtimeFacts.rt_no_loss_quiescent.
    + intros Hr s'.
      destruct (RealtimeFacts.capture_log_run env cfg
                  (Realtime.drain_schedule s) s
                  (RealtimeFacts.drain_schedule_no_capture s)) as [Hp Hd'].
      assert (Hq : Realtime.quiescent s')
        by now apply RealtimeFacts.rt_drain_quiescent.
      split; [exact Hp | split; [exact Hq |]].
      apply RealtimeFacts.rt_no_loss_quiescent.
      * unfold s'. rewrite Hp. exact Hc.
      * now apply RealtimeFacts.rt_Inv_run.
      * unfold s'. congruence.
      * exact Hq.
  - intros env cfg sched s Hc.
    assert (H : Whisper.Inv env cfg s) by apply WhisperFacts.wh_Inv_reachable.
    split.
    + intros Hq. now apply WhisperFacts.wh_no_loss_quiescent.
    + intros Hr s'.
      assert (Hq : Whisper.quiescent s')
        by now apply WhisperFacts.wh_drain_quiescent.
      assert (Ha : Whisper.accepted s' = Whisper.accepted s)
        by apply WhisperFacts.accepted_run, WhisperFacts.drain_schedule_no_record.
      split; [exact Ha | split; [exact Hq |]].
      apply WhisperFacts.wh_no_loss_quiescent.
      * rewrite Ha. exact Hc.
      * now apply WhisperFacts.wh_Inv_run.
      * exact Hq.
Qed.

Lemma no_loss_under_capacity_witness :
  (let s := Realtime.run rt_env_two rt_cfg rt_two_chunks Realtime.started in
   Realtime.stt_out rt_env_two rt_cfg (Realtime.mkAudioData [] 16000 2) = None /\
   Realtime.mt_out rt_env_two rt_cfg "bye" = None /\
   Realtime.translations s = ["hola"; "mundo"]%string /\
   Realtime.played s = [[Byte.x01]; [Byte.x02]] /\
   Realtime.no_loss rt_env_two rt_cfg s) /\
  (let s := Whisper.run wh_env_two wh_cfg wh_two_chunks Whisper.started in
   Whisper.stt_out wh_env_two wh_cfg [0%Q; 0%Q] = None /\
   Whisper.mt_out wh_env_two wh_cfg "bye" = None /\
   Whisper.translations s = ["hola"; "mundo"]%string /\
   Whisper.played s = [[Byte.x01]; [Byte.x02]] /\
   Whisper.no_loss wh_env_two wh_cfg s).
Proof.
  split; (do 4 (split; [vm_compute; reflexivity |])).
  - assert (Hd : Realtime.dropped
                   (Realtime.run rt_env_two rt_cfg rt_two_chunks Realtime.started)
                 = []) by (vm_compute; reflexivity).
    assert (Hc : forall a,
               a ∈ Realtime.produced
                     (Realtime.run rt_env_two rt_cfg rt_two_chunks
                        Realtime.started) ->
               Realtime.carried rt_env_two rt_cfg a).
    { intros a Ha.
      assert (E : Realtime.produced
                    (Realtime.run rt_env_two rt_cfg rt_two_chunks
                       Realtime.started)
                  = [Realtime.mkAudioData pcm_loud 16000 2;
                     Realtime.mkAudioData pcm_long 16000 2])
        by (vm_compute; reflexivity).
      rewrite E in Ha.
      apply elem_of_cons in Ha as [-> | Ha];
        [| apply list_elem_of_singleton in Ha as ->].
      - exists "hello"%string, "hola"%string, [Byte.x01].
        vm_compute. repeat split; reflexivity.
      - exists "world"%string, "mundo"%string, [Byte.x02].
        vm_compute. repeat split; reflexivity. }
    assert (Hq : Realtime.quiescent
                   (Realtime.run rt_env_two rt_cfg rt_two_chunks Realtime.started))
      by (vm_compute; repeat split; reflexivity).
    exact (proj1 (proj1 no_loss_under_capacity rt_env_two rt_cfg rt_two_chunks
                    Hd Hc) Hq).
  - assert (Hc : forall a,
               a ∈ Whisper.accepted
                     (Whisper.run wh_env_two wh_cfg wh_two_chunks
                        Whisper.started) ->
               Whisper.carried wh_env_two wh_cfg a).
    { intros a Ha.
      assert (E : Whisper.accepted
                    (Whisper.run wh_env_two wh_cfg wh_two_chunks
                       Whisper.started)
                  = [loud; short_loud])
        by (vm_compute; reflexivity).
      rewrite E in Ha.
      apply elem_of_cons in Ha as [-> | Ha];
        [| apply list_elem_of_singleton in Ha as ->].
      - exists "hello"%string, "hola"%string, [Byte.x01].
        vm_compute. repeat split; reflexivity.
      - exists "world"%string, "mundo"%string, [Byte.x02].
        vm_compute. repeat split; reflexivity. }
    assert (Hq : Whisper.quiescent
                   (Whisper.run wh_env_two wh_cfg wh_two_chunks Whisper.started))
      by (vm_compute; repeat split; reflexivity).
    exact (proj1 (proj2 no_loss_under_capacity wh_env_two wh_cfg wh_two_chunks
                    Hc) Hq).
Defined.

(** ** C2: backpressure drops, it does not block *)

(** C2: when the capture queue of the basic pipeline is full, the iteration of
    the Capturer that has a chunk to enqueue completes ([put_nowait] raises
    [queue.Full] at once), the three queues, the running flag and the played
    audio are what they were, so that no consumer can see the chunk, the log
    gains the warning for that chunk and nothing else, and the loop goes on
    with the next chunk number and an empty frame buffer.  The capture queue
    of the Whisper pipeline is unbounded and therefore never full. *)
Theorem capture_drops_when_full :
  (forall (s : Realtime.State) (f : Realtime.bytes) (fs : list Realtime.bytes),
      Realtime.is_running s = true ->
      Realtime.audio_frames s = f :: fs ->
      concat (f :: fs) <> [] ->
      full (Realtime.audio_queue s) = true ->
      let chunk := Realtime.mkAudioData (concat (f :: fs)) Realtime.RATE 2 in
      let s' := Realtime.continuous_audio_capture s in
      put_nowait (Realtime.audio_queue s) chunk = None /\
      Realtime.audio_queue s' = Realtime.audio_queue s /\
      Realtime.text_queue s' = Realtime.text_queue s /\
      Realtime.translation_queue s' = Realtime.translation_queue s /\
      Realtime.played s' = Realtime.played s /\
      Realtime.log s'
      = Realtime.log s
        ++ [Realtime.QueueFullSkip (S (Realtime.chunk_number s)) chunk] /\
      Realtime.is_running s' = true /\
      Realtime.chunk_number s' = S (Realtime.chunk_number s) /\
      Realtime.audio_frames s' = []) /\
  (forall (env : Whisper.Env) (cfg : Whisper.Config)
          (sched : list Whisper.Action),
      full (Whisper.audio_queue (Whisper.run env cfg sched Whisper.started))
      = false).
Proof.
  split.
  - intros s f fs Hr Hf Hc Hfull. cbv zeta.
    unfold Realtime.continuous_audio_capture, Realtime.capture_body.
    rewrite Hr, Hf.
    destruct (concat (f :: fs)) as [| b bs] eqn:Ec; [congruence |].
    assert (Hp : forall x, put_nowait (Realtime.audio_queue s) x = None)
      by (intros x; now apply PyQueueFacts.put_nowait_None).
    simpl. rewrite !Hp. simpl. repeat split; assumption.
  - intros env cfg sched. apply PyQueueFacts.full_false_unbounded.
    rewrite (Whisper.inv_audio_max env cfg _ (WhisperFacts.wh_Inv_reachable env cfg sched)).
    lia.
Qed.

Lemma capture_drops_when_full_witness :
  let s := Realtime.run rt_env rt_cfg
             (rt_captures 10 ++ [Realtime.AudioCallback pcm_loud])
             Realtime.started in
  let s' := Realtime.continuous_audio_capture s in
  length (items (Realtime.audio_queue s)) = 10 /\
  Realtime.audio_queue s' = Realtime.audio_queue s /\
  Realtime.chunk_number s' = 11.
Proof.
  intros s s'.
  assert (Hr : Realtime.is_running s = true) by (vm_compute; reflexivity).
  assert (Hf : Realtime.audio_frames s = pcm_loud :: [])
    by (vm_compute; reflexivity).
  assert (Hc : concat (pcm_loud :: []) <> []) by (vm_compute; discriminate).
  assert (Hfull : full (Realtime.audio_queue s) = true)
    by (vm_compute; reflexivity).
  pose proof (proj1 capture_drops_when_full s pcm_loud [] Hr Hf Hc Hfull) as H.
  split; [vm_compute; reflexivity |].
  split; [exact (proj1 (proj2 H)) |].
  vm_compute. reflexivity.
Defined.

(** ** C3: the translation cache *)

(** C3, as stated, fails twice.  The basic pipeline has no cache: translating
    the same text twice calls the engine twice.  In the Whisper pipeline a
    call of the engine that raises stores nothing, so the second translation
    of the text calls the engine again. *)
Lemma cache_claim_fails :
  (let s := Realtime.run rt_env rt_cfg
              (rt_rounds 2 ++ [Realtime.Translator; Realtime.Translator])
              Realtime.started in
   Realtime.transcripts s = ["hello"; "hello"]%string /\
   Realtime.engine_calls s = ["hello"; "hello"]%string) /\
  (let s := Whisper.run wh_env_mt_down wh_cfg
              (wh_round ++ wh_round ++ [Whisper.Translator; Whisper.Translator])
              Whisper.started in
   Whisper.transcripts s = ["hello"; "hello"]%string /\
   Whisper.engine_calls s = ["hello"; "hello"]%string /\
   Whisper.translation_cache s = ∅ /\
   Whisper.translations s = []).
Proof. vm_compute. repeat split; reflexivity. Qed.

(** C3, amended: in the Whisper pipeline, when the Translator takes a text [T]
    that is not in the cache and the engine returns [v], the engine is called
    once, [v] is stored under the key [T] and no other key changes (the
    lookup is by exact string) and [v] is passed on; whenever [T] comes up
    again later, whatever ran in between, it is served from the cache: [v]
    is passed on, the cache is unchanged and no engine is called, whatever
    the engine would answer then.  (The basic pipeline has no cache; a call
    that raises stores nothing.) *)
Theorem cache_hit_after_miss
    (env : Whisper.Env) (cfg : Whisper.Config) (sched0 : list Whisper.Action)
    (T v : string) (q : Queue string) :
  let s := Whisper.run env cfg sched0 Whisper.started in
  Whisper.is_running s = true ->
  get (Whisper.text_queue s) = Some (T, q) ->
  Whisper.translation_cache s !! T = None ->
  Whisper.translate env T (Whisper.source_lang cfg) (Whisper.target_lang cfg)
  = Some v ->
  let s1 := Whisper.translate_text env cfg s in
  (Whisper.engine_calls s1 = Whisper.engine_calls s ++ [T] /\
   Whisper.translation_cache s1 = <[T := v]> (Whisper.translation_cache s) /\
   items (Whisper.translation_queue s1)
   = items (Whisper.translation_queue s) ++ [v]) /\
  (forall T' : string,
      T' <> T ->
      Whisper.translation_cache s1 !! T' = Whisper.translation_cache s !! T') /\
  (forall (sched : list Whisper.Action) (q2 : Queue string) (env' : Whisper.Env),
      let s2 := Whisper.run env cfg sched s1 in
      Whisper.is_running s2 = true ->
      get (Whisper.text_queue s2) = Some (T, q2) ->
      let s3 := Whisper.translate_text env' cfg s2 in
      Whisper.engine_calls s3 = Whisper.engine_calls s2 /\
      Whisper.translation_cache s3 = Whisper.translation_cache s2 /\
      Whisper.log s3 = Whisper.log s2 ++ [Whisper.FromCache v] /\
      items (Whisper.translation_queue s3)
      = items (Whisper.translation_queue s2) ++ [v]).
Proof.
  intros s Hr Hg Hc Ht s1.
  assert (HI : Whisper.Inv env cfg s) by apply WhisperFacts.wh_Inv_reachable.
  assert (E1 : s1 = Whisper.set_translation_queue
                      (mkQueue (maxsize (Whisper.translation_queue s))
                               (items (Whisper.translation_queue s) ++ [v]))
                      (Whisper.emit (Whisper.Translation v)
                         (Whisper.set_translation_cache
                            (<[T := v]> (Whisper.translation_cache s))
                            (Whisper.emit (Whisper.Translating T)
                               (Whisper.set_text_queue q s))))).
  { unfold s1, Whisper.translate_text, Whisper.translate_body.
    rewrite Hr, Hg. simpl. rewrite Hc, Ht.
    rewrite PyQueueFacts.put_unbounded
      by (simpl; rewrite (Whisper.inv_translation_max _ _ _ HI); lia).
    reflexivity. }
  assert (Hc1 : Whisper.translation_cache s1 !! T = Some v).
  { rewrite E1. simpl. apply lookup_insert_eq. }
  split; [| split].
  - rewrite E1. unfold Whisper.engine_calls. simpl.
    rewrite !ListFacts.omap_snoc. simpl. rewrite app_nil_r. auto.
  - intros T' Hne. rewrite E1. simpl. now apply lookup_insert_ne.
  - intros sched q2 env' s2 Hr2 Hg2 s3.
    assert (HI2 : Whisper.Inv env cfg s2).
    { apply WhisperFacts.wh_Inv_run, WhisperFacts.wh_Inv_translate, HI. }
    assert (Hc2 : Whisper.translation_cache s2 !! T = Some v)
      by now apply WhisperFacts.cache_run_mono.
    unfold s3, Whisper.translate_text, Whisper.translate_body.
    rewrite Hr2, Hg2. simpl. rewrite Hc2.
    rewrite PyQueueFacts.put_unbounded
      by (simpl; rewrite (Whisper.inv_translation_max _ _ _ HI2); lia).
    unfold Whisper.engine_calls. simpl.
    rewrite ListFacts.omap_snoc. simpl. rewrite app_nil_r. auto.
Qed.

Lemma cache_hit_after_miss_witness :
  let s := Whisper.run wh_env wh_cfg (wh_round ++ wh_round) Whisper.started in
  let s1 := Whisper.translate_text wh_env wh_cfg s in
  let s2 := Whisper.run wh_env wh_cfg [Whisper.Speaker] s1 in
  let s3 := Whisper.translate_text wh_env wh_cfg s2 in
  items (Whisper.text_queue s) = ["hello"; "hello"]%string /\
  Whisper.engine_calls s1 = Whisper.engine_calls s ++ ["hello"%string] /\
  Whisper.translation_cache s1
  = <["hello"%string := "hola"%string]> (Whisper.translation_cache s) /\
  Whisper.engine_calls s3 = Whisper.engine_calls s2 /\
  Whisper.log s3 = Whisper.log s2 ++ [Whisper.FromCache "hola"%string].
Proof.
  intros s s1 s2 s3.
  assert (Hr : Whisper.is_running s = true) by (vm_compute; reflexivity).
  assert (Hg : get (Whisper.text_queue s)
               = Some ("hello"%string, mkQueue 0 ["hello"%string]))
    by (vm_compute; reflexivity).
  assert (Hc : Whisper.translation_cache s !! "hello"%string = None)
    by (vm_compute; reflexivity).
  assert (Ht : Whisper.translate wh_env "hello"%string
                 (Whisper.source_lang wh_cfg) (Whisper.target_lang wh_cfg)
               = Some "hola"%string) by (vm_compute; reflexivity).
  assert (Hr2 : Whisper.is_running s2 = true) by (vm_compute; reflexivity).
  assert (Hg2 : get (Whisper.text_queue s2)
                = Some ("hello"%string, mkQueue 0 []))
    by (vm_compute; reflexivity).
  destruct (cache_hit_after_miss wh_env wh_cfg (wh_round ++ wh_round)
              "hello"%string "hola"%string (mkQueue 0 ["hello"%string])
              Hr Hg Hc Ht) as ((E1 & E2 & _) & _ & H3).
  destruct (H3 [Whisper.Speaker] (mkQueue 0 []) wh_env Hr2 Hg2)
    as (F1 & _ & F3 & _).
  split; [vm_compute; reflexivity |].
  split; [exact E1 |]. split; [exact E2 |]. split; [exact F1 | exact F3].
Defined.

(** ** C4: silence filtering *)

(** C4, as stated, fails on the basic pipeline, which has no silence test: a
    chunk in which every sample is zero is enqueued like any other. *)
Lemma silent_chunk_enqueued_by_basic_pipeline :
  let s := Realtime.run rt_env rt_cfg
             [Realtime.AudioCallback (pcm_zero ++ pcm_zero);
              Realtime.AudioCapture]
             Realtime.started in
  items (Realtime.audio_queue s)
  = [Realtime.mkAudioData [Byte.x00; Byte.x00; Byte.x00; Byte.x00] 16000 2] /\
  Realtime.log s
  = [Realtime.ChunkCaptured 1
       (Realtime.mkAudioData [Byte.x00; Byte.x00; Byte.x00; Byte.x00] 16000 2)].
Proof. vm_compute. split; reflexivity. Qed.

(** C4, amended: in the Whisper pipeline, a chunk in which no sample has a
    magnitude above the threshold 0.01 is discarded (the capture queue and
    the log are unchanged, the buffer is cleared), and a chunk in which some
    sample has a magnitude above 0.01 is always put on the capture queue,
    which is unbounded.  (The basic pipeline enqueues every non-empty
    chunk.) *)
Theorem silence_filter
    (env : Whisper.Env) (cfg : Whisper.Config) (sched : list Whisper.Action)
    (x : Q) (l : list Q) :
  let s := Whisper.run env cfg sched Whisper.started in
  Whisper.is_running s = true ->
  Whisper.audio_buffer s = x :: l ->
  let s' := Whisper.record_audio_chunk s in
  (Forall (fun y => (Qabs y <= Whisper.SILENCE_THRESHOLD)%Q) (x :: l) ->
   Whisper.audio_queue s' = Whisper.audio_queue s /\
   Whisper.log s' = Whisper.log s /\
   Whisper.audio_buffer s' = []) /\
  (Exists (fun y => (Whisper.SILENCE_THRESHOLD < Qabs y)%Q) (x :: l) ->
   items (Whisper.audio_queue s') = items (Whisper.audio_queue s) ++ [x :: l] /\
   Whisper.log s' = Whisper.log s ++ [Whisper.AudioChunkCaptured (x :: l)] /\
   Whisper.audio_buffer s' = []).
Proof.
  intros s Hr Hb s'.
  assert (HI : Whisper.Inv env cfg s) by apply WhisperFacts.wh_Inv_reachable.
  unfold s', Whisper.record_audio_chunk, Whisper.record_body.
  rewrite Hr, Hb. split.
  - intros Hq. apply WhisperFacts.is_speech_false_iff in Hq. rewrite Hq.
    simpl. auto.
  - intros Hl. apply WhisperFacts.is_speech_true_iff in Hl. rewrite Hl.
    rewrite PyQueueFacts.put_unbounded
      by (rewrite (Whisper.inv_audio_max _ _ _ HI); lia).
    simpl. auto.
Qed.

Lemma silence_filter_witness :
  (let s := Whisper.run wh_env wh_cfg [Whisper.AudioCallback loud]
              Whisper.started in
   items (Whisper.audio_queue (Whisper.record_audio_chunk s))
   = items (Whisper.audio_queue s) ++ [loud]) /\
  (let s := Whisper.run wh_env wh_cfg [Whisper.AudioCallback zeros]
              Whisper.started in
   Whisper.audio_queue (Whisper.record_audio_chunk s) = Whisper.audio_queue s).
Proof.
  split.
  - intros s.
    assert (Hr : Whisper.is_running s = true) by (vm_compute; reflexivity).
    assert (Hb : Whisper.audio_buffer s = 1%Q :: [(-1)%Q; (1 # 2)%Q])
      by (vm_compute; reflexivity).
    assert (He : Exists (fun y => (Whisper.SILENCE_THRESHOLD < Qabs y)%Q)
                   (1%Q :: [(-1)%Q; (1 # 2)%Q]))
      by (apply Exists_cons_hd; vm_compute; reflexivity).
    exact (proj1 (proj2 (silence_filter wh_env wh_cfg
                           [Whisper.AudioCallback loud] _ _ Hr Hb) He)).
  - intros s.
    assert (Hr : Whisper.is_running s = true) by (vm_compute; reflexivity).
    assert (Hb : Whisper.audio_buffer s = 0%Q :: [0%Q; 0%Q])
      by (vm_compute; reflexivity).
    assert (Hq : Forall (fun y => (Qabs y <= Whisper.SILENCE_THRESHOLD)%Q)
                   (0%Q :: [0%Q; 0%Q]))
      by (repeat constructor; vm_compute; discriminate).
    exact (proj1 (proj1 (silence_filter wh_env wh_cfg
                           [Whisper.AudioCallback zeros] _ _ Hr Hb) Hq)).
Defined.

(** ** C5: the Speaker drains its queue *)




(** ** C6: capacities of the queues *)

(** One round of capture and recognition leaves the capture queue empty and
    adds one text to the text queue. *)
Lemma rt_round_grows (s : Realtime.State) :
  Realtime.is_running s = true ->
  Realtime.audio_frames s = [] ->
  Realtime.audio_queue s = mkQueue 10 [] ->
  maxsize (Realtime.text_queue s) = 0%Z ->
  let s' := Realtime.run rt_env rt_cfg rt_round s in
  Realtime.is_running s' = true /\
  Realtime.audio_frames s' = [] /\
  Realtime.audio_queue s' = mkQueue 10 [] /\
  maxsize (Realtime.text_queue s') = 0%Z /\
  length (items (Realtime.text_queue s'))
  = S (length (items (Realtime.text_queue s))).
Proof.
  destruct s as [r fr n aq [mx ix] tq lg pl]. simpl.
  intros -> -> -> ->. simpl. rewrite length_app. simpl. repeat split; lia.
Qed.

Lemma rt_rounds_grow (n : nat) :
  forall s : Realtime.State,
    Realtime.is_running s = true ->
    Realtime.audio_frames s = [] ->
    Realtime.audio_queue s = mkQueue 10 [] ->
    maxsize (Realtime.text_queue s) = 0%Z ->
    length (items (Realtime.text_queue
                     (Realtime.run rt_env rt_cfg (rt_rounds n) s)))
    = n + length (items (Realtime.text_queue s)).
Proof.
  induction n as [| n IH]; intros s Hr Hf Ha Hm; [reflexivity |].
  change (rt_rounds (S n)) with (rt_round ++ rt_rounds n).
  rewrite RealtimeFacts.rt_run_app.
  destruct (rt_round_grows s Hr Hf Ha Hm) as (Hr' & Hf' & Ha' & Hm' & Hl).
  rewrite IH by assumption. rewrite Hl. lia.
Qed.

(** C6, as stated, fails: the text queue of the basic pipeline has no
    capacity limit; whatever bound is proposed, some run exceeds it. *)
Lemma text_queue_has_no_capacity_limit :
  maxsize (Realtime.text_queue Realtime.started) = 0%Z /\
  ~ exists cap : nat,
      forall sched : list Realtime.Action,
        length (items (Realtime.text_queue
                         (Realtime.run rt_env rt_cfg sched Realtime.started)))
        <= cap.
Proof.
  split; [reflexivity |]. intros [cap H].
  specialize (H (rt_rounds (S cap))).
  rewrite rt_rounds_grow in H by reflexivity. simpl in H. lia.
Qed.

(** C6, amended: all queues are FIFO ([put] and [put_nowait] append at the
    back, [get] takes from the front); of the three hand-off queues only the
    capture queue of the basic pipeline is bounded, with capacity 10, which
    its length never exceeds; the text and translation queues of the basic
    pipeline and all three queues of the Whisper pipeline are created
    without a capacity, and a [put] on such a queue always succeeds. *)
Theorem queue_capacities :
  (forall (env : Realtime.Env) (cfg : Realtime.Config)
          (sched : list Realtime.Action),
      let s := Realtime.run env cfg sched Realtime.started in
      maxsize (Realtime.audio_queue s) = 10%Z /\
      length (items (Realtime.audio_queue s)) <= 10 /\
      maxsize (Realtime.text_queue s) = 0%Z /\
      maxsize (Realtime.translation_queue s) = 0%Z) /\
  (forall (env : Whisper.Env) (cfg : Whisper.Config)
          (sched : list Whisper.Action),
      let s := Whisper.run env cfg sched Whisper.started in
      maxsize (Whisper.audio_queue s) = 0%Z /\
      maxsize (Whisper.text_queue s) = 0%Z /\
      maxsize (Whisper.translation_queue s) = 0%Z) /\
  (forall (A : Type) (q : Queue A) (x : A),
      (maxsize q <= 0)%Z ->
      put q x = Some (mkQueue (maxsize q) (items q ++ [x]))) /\
  (forall (A : Type) (q q' : Queue A) (x : A),
      put_nowait q x = Some q' ->
      items q' = items q ++ [x] /\
      ((0 < maxsize q)%Z -> (qsize q' <= maxsize q)%Z)) /\
  (forall (A : Type) (q q' : Queue A) (x : A),
      get q = Some (x, q') -> items q = x :: items q').
Proof.
  split; [| split; [| split; [| split]]].
  - intros env cfg sched s.
    assert (H : Realtime.Inv env cfg s) by apply RealtimeFacts.rt_Inv_reachable.
    pose proof (Realtime.inv_audio_len _ _ _ H) as Hl.
    unfold qsize, Realtime.AUDIO_QUEUE_MAXSIZE in Hl.
    split; [apply (Realtime.inv_audio_max _ _ _ H) |].
    split; [lia |].
    split; [apply (Realtime.inv_text_max _ _ _ H)
           | apply (Realtime.inv_translation_max _ _ _ H)].
  - intros env cfg sched s.
    assert (H : Whisper.Inv env cfg s) by apply WhisperFacts.wh_Inv_reachable.
    split; [apply (Whisper.inv_audio_max _ _ _ H) |].
    split; [apply (Whisper.inv_text_max _ _ _ H)
           | apply (Whisper.inv_translation_max _ _ _ H)].
  - intros A q x. apply PyQueueFacts.put_unbounded.
  - intros A q q' x H. split.
    + now apply PyQueueFacts.put_nowait_Some in H.
    + intros Hm. pose proof (PyQueueFacts.put_nowait_within q x q' Hm H) as Hw.
      apply PyQueueFacts.put_nowait_Some in H as (<- & _). exact Hw.
  - intros A q q' x H. now apply PyQueueFacts.get_Some in H.
Qed.

Lemma queue_capacities_witness :
  put (mkQueue 0 [1; 2]) 3 = Some (mkQueue 0 ([1; 2] ++ [3])) /\
  items (mkQueue 10 [1; 2; 3]) = items (mkQueue 10 [1; 2]) ++ [3] /\
  items (mkQueue 10 [1; 2; 3]) = 1 :: items (mkQueue 10 [2; 3]).
Proof.
  destruct queue_capacities as (_ & _ & Hput & Hnowait & Hget).
  split; [| split].
  - apply (Hput nat (mkQueue 0 [1; 2]) 3). simpl. lia.
  - apply (Hnowait nat (mkQueue 10 [1; 2]) (mkQueue 10 [1; 2; 3]) 3). reflexivity.
  - apply (Hget nat (mkQueue 10 [1; 2; 3]) (mkQueue 10 [2; 3]) 1). reflexivity.
Defined.

(** ** C7: sequence numbers and ordering *)

(** C7, as stated, fails: the chunk number is a local counter of the Capturer
    and is not part of what travels through the queues.  Two chunks,
    numbered 1 and 2, both transcribed as the same text, give two equal
    items on the text queue: nothing read off an item can yield 1 for the
    first and 2 for the second. *)
Lemma sequence_number_not_carried :
  let s := Realtime.run rt_env rt_cfg
             (rt_captures 2 ++ [Realtime.Recognizer; Realtime.Recognizer])
             Realtime.started in
  Realtime.chunk_numbers s = [1; 2] /\
  items (Realtime.text_queue s) = ["hello"; "hello"]%string /\
  ~ exists seq_of : string -> nat,
      map seq_of (items (Realtime.text_queue s)) = Realtime.chunk_numbers s.
Proof.
  intros s.
  assert (Hn : Realtime.chunk_numbers s = [1; 2]) by (vm_compute; reflexivity).
  assert (Ht : items (Realtime.text_queue s) = ["hello"; "hello"]%string)
    by (vm_compute; reflexivity).
  split; [exact Hn |]. split; [exact Ht |].
  intros [seq_of H]. rewrite Hn, Ht in H. simpl in H. congruence.
Qed.

(** C7, amended: in the basic pipeline the Capturer numbers the chunks with a
    counter of its own, strictly increasing from chunk to chunk, one number
    per chunk it builds; the number appears in the log lines of the Capturer
    only and is not attached to the items on the queues.  Order is kept all
    the same: the chunks enqueued are a subsequence of the chunks built
    (drops leave gaps), and what each later stage has put out is, in order,
    a prefix of the image of what the stage before it has put out, so the
    texts reaching the Speaker come in capture order. *)
Theorem capture_order_preserved
    (env : Realtime.Env) (cfg : Realtime.Config) (sched : list Realtime.Action) :
  let s := Realtime.run env cfg sched Realtime.started in
  StronglySorted lt (Realtime.chunk_numbers s) /\
  length (Realtime.chunk_numbers s) = length (Realtime.produced s) /\
  Realtime.accepted s `sublist_of` Realtime.produced s /\
  Realtime.transcripts s
    `prefix_of` omap (Realtime.stt_out env cfg) (Realtime.accepted s) /\
  Realtime.translations s
    `prefix_of` omap (Realtime.mt_out env cfg) (Realtime.transcripts s) /\
  Realtime.spoken s `prefix_of` Realtime.translations s /\
  Realtime.spoken s
    `prefix_of` omap (Realtime.mt_out env cfg)
                  (omap (Realtime.stt_out env cfg) (Realtime.accepted s)).
Proof.
  intros s.
  assert (H : Realtime.Inv env cfg s) by apply RealtimeFacts.rt_Inv_reachable.
  pose proof (Realtime.inv_transcripts _ _ _ H) as E1.
  pose proof (Realtime.inv_translations _ _ _ H) as E2.
  pose proof (Realtime.inv_spoken _ _ _ H) as E3.
  split; [apply (Realtime.inv_numbers_sorted _ _ _ H) |].
  split; [apply RealtimeFacts.numbers_length_produced |].
  split; [apply RealtimeFacts.accepted_sublist_produced |].
  split; [eexists; symmetry; exact E1 |].
  split; [eexists; symmetry; exact E2 |].
  split; [eexists; symmetry; exact E3 |].
  rewrite <- E1, omap_app, <- E2, <- E3, <- !app_assoc.
  eexists. reflexivity.
Qed.

(** ** C8: translation errors stay inside the Translator *)

(** C8: when the translation engine raises on the text the Translator has
    taken from the text queue, the iteration completes all the same: the
    text is gone from the text queue (it is not put back), nothing is put on
    the translation queue, the other queue, the played audio and (in the
    Whisper pipeline) the cache are untouched, the log gains the
    announcement of the call and the error message, and the running flag
    still holds, so that the loop goes on with the next item.  What crosses
    a queue is a text, never an exception. *)
Theorem translation_error_contained :
  (forall (env : Realtime.Env) (cfg : Realtime.Config) (s : Realtime.State)
          (t : string) (q : Queue string),
      Realtime.is_running s = true ->
      get (Realtime.text_queue s) = Some (t, q) ->
      Realtime.translate env t (Realtime.source_lang cfg)
                         (Realtime.target_lang cfg) = None ->
      let s' := Realtime.translate_text env cfg s in
      Realtime.text_queue s' = q /\
      Realtime.translation_queue s' = Realtime.translation_queue s /\
      Realtime.audio_queue s' = Realtime.audio_queue s /\
      Realtime.played s' = Realtime.played s /\
      Realtime.log s'
      = Realtime.log s ++ [Realtime.Translating t; Realtime.TranslationError] /\
      Realtime.is_running s' = true) /\
  (forall (env : Whisper.Env) (cfg : Whisper.Config) (s : Whisper.State)
          (t : string) (q : Queue string),
      Whisper.is_running s = true ->
      get (Whisper.text_queue s) = Some (t, q) ->
      Whisper.translation_cache s !! t = None ->
      Whisper.translate env t (Whisper.source_lang cfg)
                        (Whisper.target_lang cfg) = None ->
      let s' := Whisper.translate_text env cfg s in
      Whisper.text_queue s' = q /\
      Whisper.translation_queue s' = Whisper.translation_queue s /\
      Whisper.audio_queue s' = Whisper.audio_queue s /\
      Whisper.played s' = Whisper.played s /\
      Whisper.translation_cache s' = Whisper.translation_cache s /\
      Whisper.log s'
      = Whisper.log s ++ [Whisper.Translating t; Whisper.TranslationError] /\
      Whisper.is_running s' = true).
Proof.
  split.
  - intros env cfg s t q Hr Hg Ht. cbv zeta.
    unfold Realtime.translate_text, Realtime.translate_body.
    rewrite Hr, Hg, Ht. simpl. rewrite <- app_assoc.
    repeat split; try reflexivity. exact Hr.
  - intros env cfg s t q Hr Hg Hc Ht. cbv zeta.
    unfold Whisper.translate_text, Whisper.translate_body.
    rewrite Hr, Hg. simpl. rewrite Hc, Ht. simpl. rewrite <- app_assoc.
    repeat split; try reflexivity. exact Hr.
Qed.

Lemma translation_error_contained_witness :
  (let s := Realtime.run rt_env_mt_down rt_cfg (rt_rounds 2) Realtime.started in
   let s' := Realtime.translate_text rt_env_mt_down rt_cfg s in
   items (Realtime.text_queue s) = ["hello"; "hello"]%string /\
   Realtime.text_queue s' = mkQueue 0 ["hello"%string] /\
   Realtime.translation_queue s' = Realtime.translation_queue s) /\
  (let s := Whisper.run wh_env_mt_down wh_cfg (wh_round ++ wh_round)
              Whisper.started in
   let s' := Whisper.translate_text wh_env_mt_down wh_cfg s in
   items (Whisper.text_queue s) = ["hello"; "hello"]%string /\
   Whisper.text_queue s' = mkQueue 0 ["hello"%string] /\
   Whisper.translation_queue s' = Whisper.translation_queue s).
Proof.
  split.
  - intros s s'.
    assert (Hr : Realtime.is_running s = true) by (vm_compute; reflexivity).
    assert (Hg : get (Realtime.text_queue s)
                 = Some ("hello"%string, mkQueue 0 ["hello"%string]))
      by (vm_compute; reflexivity).
    assert (Ht : Realtime.translate rt_env_mt_down "hello"%string
                   (Realtime.source_lang rt_cfg) (Realtime.target_lang rt_cfg)
                 = None) by reflexivity.
    destruct (proj1 translation_error_contained rt_env_mt_down rt_cfg s
                "hello"%string (mkQueue 0 ["hello"%string]) Hr Hg Ht)
      as (E1 & E2 & _).
    split; [vm_compute; reflexivity |]. split; [exact E1 | exact E2].
  - intros s s'.
    assert (Hr : Whisper.is_running s = true) by (vm_compute; reflexivity).
    assert (Hg : get (Whisper.text_queue s)
                 = Some ("hello"%string, mkQueue 0 ["hello"%string]))
      by (vm_compute; reflexivity).
    assert (Hc : Whisper.translation_cache s !! "hello"%string = None)
      by (vm_compute; reflexivity).
    assert (Ht : Whisper.translate wh_env_mt_down "hello"%string
                   (Whisper.source_lang wh_cfg) (Whisper.target_lang wh_cfg)
                 = None) by reflexivity.
    destruct (proj2 translation_error_contained wh_env_mt_down wh_cfg s
                "hello"%string (mkQueue 0 ["hello"%string]) Hr Hg Hc Ht)
      as (E1 & E2 & _).
    split; [vm_compute; reflexivity |]. split; [exact E1 | exact E2].
Defined.

(** ** C9: empty transcripts *)

(** C9, as stated, fails on the basic pipeline, which tests the text for
    emptiness without stripping it: a text made of one space is put on the
    text queue. *)
Lemma blank_transcript_enqueued_by_basic_pipeline :
  let s := Realtime.run rt_env_blank rt_cfg rt_round Realtime.started in
  PyStr.whitespace_only " " = true /\
  items (Realtime.text_queue s) = [" "%string] /\
  Realtime.transcripts s = [" "%string].
Proof. vm_compute. repeat split; reflexivity. Qed.

(** C9, amended: when the speech-to-text engine returns a text for the chunk
    taken from the capture queue, the Transcriber of the Whisper pipeline
    enqueues nothing if the text is empty or whitespace only, and otherwise
    enqueues exactly one item, the stripped text; the Recognizer of the
    basic pipeline enqueues nothing if the text is empty, and otherwise
    enqueues exactly one item, the text as returned, be it whitespace
    only. *)
Theorem transcriber_enqueue_rule :
  (forall (env : Whisper.Env) (cfg : Whisper.Config)
          (sched : list Whisper.Action)
          (a : Whisper.AudioChunk) (q : Queue Whisper.AudioChunk) (raw : string),
      let s := Whisper.run env cfg sched Whisper.started in
      Whisper.is_running s = true ->
      get (Whisper.audio_queue s) = Some (a, q) ->
      Whisper.whisper_transcribe env a (Whisper.source_lang cfg) = Some raw ->
      let s' := Whisper.transcribe_audio env cfg s in
      Whisper.audio_queue s' = q /\
      (PyStr.whitespace_only raw = true ->
       Whisper.text_queue s' = Whisper.text_queue s) /\
      (PyStr.whitespace_only raw = false ->
       items (Whisper.text_queue s')
       = items (Whisper.text_queue s) ++ [PyStr.strip raw])) /\
  (forall (env : Realtime.Env) (cfg : Realtime.Config)
          (sched : list Realtime.Action)
          (a : Realtime.AudioData) (q : Queue Realtime.AudioData) (text : string),
      let s := Realtime.run env cfg sched Realtime.started in
      Realtime.is_running s = true ->
      get (Realtime.audio_queue s) = Some (a, q) ->
      Realtime.recognize_google env a (Realtime.source_lang cfg)
      = Realtime.RecText text ->
      let s' := Realtime.recognize_speech env cfg s in
      Realtime.audio_queue s' = q /\
      (text = EmptyString -> Realtime.text_queue s' = Realtime.text_queue s) /\
      (text <> EmptyString ->
       items (Realtime.text_queue s') = items (Realtime.text_queue s) ++ [text])).
Proof.
  split.
  - intros env cfg sched a q raw s Hr Hg He s'.
    assert (HI : Whisper.Inv env cfg s) by apply WhisperFacts.wh_Inv_reachable.
    unfold s', Whisper.transcribe_audio, Whisper.transcribe_body.
    rewrite Hr, Hg, He. simpl. rewrite PyStrFacts.truthy_strip.
    destruct (PyStr.whitespace_only raw); simpl.
    + split; [reflexivity | split; [intros _; reflexivity | discriminate]].
    + rewrite PyQueueFacts.put_unbounded
        by (rewrite (Whisper.inv_text_max _ _ _ HI); lia).
      split; [reflexivity | split; [discriminate | intros _; reflexivity]].
  - intros env cfg sched a q text s Hr Hg He s'.
    assert (HI : Realtime.Inv env cfg s) by apply RealtimeFacts.rt_Inv_reachable.
    unfold s', Realtime.recognize_speech, Realtime.recognize_body.
    rewrite Hr, Hg, He. simpl.
    destruct text as [| c text']; simpl.
    + split; [reflexivity | split; [intros _; reflexivity | congruence]].
    + rewrite PyQueueFacts.put_unbounded
        by (rewrite (Realtime.inv_text_max _ _ _ HI); lia).
      split; [reflexivity | split; [discriminate | intros _; reflexivity]].
Qed.

Lemma transcriber_enqueue_rule_witness :
  (let s := Whisper.run wh_env wh_cfg
              [Whisper.AudioCallback loud; Whisper.Recorder] Whisper.started in
   items (Whisper.text_queue (Whisper.transcribe_audio wh_env wh_cfg s))
   = items (Whisper.text_queue s) ++ [PyStr.strip " hello "]) /\
  (let s := Whisper.run wh_env_wordless wh_cfg
              [Whisper.AudioCallback loud; Whisper.Recorder] Whisper.started in
   Whisper.text_queue (Whisper.transcribe_audio wh_env_wordless wh_cfg s)
   = Whisper.text_queue s) /\
  (let s := Realtime.run rt_env_blank rt_cfg
              [Realtime.AudioCallback pcm_loud; Realtime.AudioCapture]
              Realtime.started in
   items (Realtime.text_queue (Realtime.recognize_speech rt_env_blank rt_cfg s))
   = items (Realtime.text_queue s) ++ [" "%string]).
Proof.
  split; [| split].
  - intros s.
    assert (Hr : Whisper.is_running s = true) by (vm_compute; reflexivity).
    assert (Hg : get (Whisper.audio_queue s) = Some (loud, mkQueue 0 []))
      by (vm_compute; reflexivity).
    assert (He : Whisper.whisper_transcribe wh_env loud
                   (Whisper.source_lang wh_cfg) = Some " hello "%string)
      by reflexivity.
    assert (Hw : PyStr.whitespace_only " hello " = false)
      by (vm_compute; reflexivity).
    exact (proj2 (proj2 (proj1 transcriber_enqueue_rule wh_env wh_cfg
                           [Whisper.AudioCallback loud; Whisper.Recorder]
                           loud (mkQueue 0 []) " hello "%string Hr Hg He)) Hw).
  - intros s.
    assert (Hr : Whisper.is_running s = true) by (vm_compute; reflexivity).
    assert (Hg : get (Whisper.audio_queue s) = Some (loud, mkQueue 0 []))
      by (vm_compute; reflexivity).
    assert (He : Whisper.whisper_transcribe wh_env_wordless loud
                   (Whisper.source_lang wh_cfg) = Some ""%string)
      by reflexivity.
    assert (Hw : PyStr.whitespace_only "" = true) by reflexivity.
    exact (proj1 (proj2 (proj1 transcriber_enqueue_rule wh_env_wordless wh_cfg
                           [Whisper.AudioCallback loud; Whisper.Recorder]
                           loud (mkQueue 0 []) ""%string Hr Hg He)) Hw).
  - intros s.
    assert (Hr : Realtime.is_running s = true) by (vm_compute; reflexivity).
    assert (Hg : get (Realtime.audio_queue s)
                 = Some (Realtime.mkAudioData pcm_loud Realtime.RATE 2,
                         mkQueue 10 []))
      by (vm_compute; reflexivity).
    assert (He : Realtime.recognize_google rt_env_blank
                   (Realtime.mkAudioData pcm_loud Realtime.RATE 2)
                   (Realtime.source_lang rt_cfg) = Realtime.RecText " ")
      by reflexivity.
    assert (Hn : " "%string <> EmptyString) by discriminate.
    exact (proj2 (proj2 (proj2 transcriber_enqueue_rule rt_env_blank rt_cfg
                           [Realtime.AudioCallback pcm_loud; Realtime.AudioCapture]
                           _ (mkQueue 10 []) " "%string Hr Hg He)) Hn).
Defined.

(** ** C10: the cache is written on success only *)

(** C10: in the Whisper pipeline, (1) when the engine raises on a text that is
    not cached, the cache and the translation queue are left as they were;
    (2) no step of any worker changes or removes an entry the cache already
    has; (3) an entry that a step adds is added by the Translator, for the
    text at the head of the text queue, holds the result the engine returned
    for that text in that very step, and comes with exactly one call of the
    engine; (4) when the engine returns a result for a text that is not
    cached, the result is stored at once, so that the entry is the first
    successful result for the text; (5) hence in every reachable state every
    entry is a result of the engine for its key. *)
Theorem cache_written_only_on_success
    (env : Whisper.Env) (cfg : Whisper.Config) :
  (forall (s : Whisper.State) (t : string) (q : Queue string),
      Whisper.is_running s = true ->
      get (Whisper.text_queue s) = Some (t, q) ->
      Whisper.translation_cache s !! t = None ->
      Whisper.translate env t (Whisper.source_lang cfg)
                        (Whisper.target_lang cfg) = None ->
      let s' := Whisper.translate_text env cfg s in
      Whisper.translation_cache s' = Whisper.translation_cache s /\
      Whisper.translation_queue s' = Whisper.translation_queue s) /\
  (forall (s : Whisper.State) (a : Whisper.Action) (t v : string),
      Whisper.translation_cache s !! t = Some v ->
      Whisper.translation_cache (Whisper.step env cfg s a) !! t = Some v) /\
  (forall (s : Whisper.State) (a : Whisper.Action) (t v : string),
      Whisper.translation_cache s !! t = None ->
      Whisper.translation_cache (Whisper.step env cfg s a) !! t = Some v ->
      a = Whisper.Translator /\
      Whisper.is_running s = true /\
      (exists q, get (Whisper.text_queue s) = Some (t, q)) /\
      Whisper.translate env t (Whisper.source_lang cfg)
                        (Whisper.target_lang cfg) = Some v /\
      Whisper.engine_calls (Whisper.step env cfg s a)
      = Whisper.engine_calls s ++ [t]) /\
  (forall (sched : list Whisper.Action) (t v : string) (q : Queue string),
      let s := Whisper.run env cfg sched Whisper.started in
      Whisper.is_running s = true ->
      get (Whisper.text_queue s) = Some (t, q) ->
      Whisper.translation_cache s !! t = None ->
      Whisper.translate env t (Whisper.source_lang cfg)
                        (Whisper.target_lang cfg) = Some v ->
      Whisper.translation_cache (Whisper.translate_text env cfg s) !! t
      = Some v) /\
  (forall (sched : list Whisper.Action) (t v : string),
      Whisper.translation_cache
        (Whisper.run env cfg sched Whisper.started) !! t = Some v ->
      Whisper.translate env t (Whisper.source_lang cfg)
                        (Whisper.target_lang cfg) = Some v).
Proof.
  split; [| split; [| split; [| split]]].
  - intros s t q Hr Hg Hc Ht. cbv zeta.
    unfold Whisper.translate_text, Whisper.translate_body.
    rewrite Hr, Hg. simpl. rewrite Hc, Ht. simpl. split; reflexivity.
  - intros s a t v. apply WhisperFacts.cache_step_mono.
  - intros s a t v. apply WhisperFacts.cache_step_new.
  - intros sched t v q s Hr Hg Hc Ht.
    assert (HI : Whisper.Inv env cfg s) by apply WhisperFacts.wh_Inv_reachable.
    unfold Whisper.translate_text, Whisper.translate_body.
    rewrite Hr, Hg. simpl. rewrite Hc, Ht.
    rewrite PyQueueFacts.put_unbounded
      by (simpl; rewrite (Whisper.inv_translation_max _ _ _ HI); lia).
    simpl. apply lookup_insert_eq.
  - intros sched t v Hc.
    exact (Whisper.inv_cache env cfg _
             (WhisperFacts.wh_Inv_reachable env cfg sched) t v Hc).
Qed.

Lemma cache_written_only_on_success_witness :
  (let s := Whisper.run wh_env_mt_down wh_cfg wh_round Whisper.started in
   let s' := Whisper.translate_text wh_env_mt_down wh_cfg s in
   items (Whisper.text_queue s) = ["hello"%string] /\
   Whisper.translation_cache s' = Whisper.translation_cache s /\
   Whisper.translation_queue s' = Whisper.translation_queue s) /\
  (let s := Whisper.run wh_env wh_cfg wh_round Whisper.started in
   Whisper.translation_cache s !! "hello"%string = None /\
   Whisper.translation_cache (Whisper.translate_text wh_env wh_cfg s)
     !! "hello"%string = Some "hola"%string).
Proof.
  split.
  - intros s s'.
    assert (Hr : Whisper.is_running s = true) by (vm_compute; reflexivity).
    assert (Hg : get (Whisper.text_queue s)
                 = Some ("hello"%string, mkQueue 0 []))
      by (vm_compute; reflexivity).
    assert (Hc : Whisper.translation_cache s !! "hello"%string = None)
      by (vm_compute; reflexivity).
    assert (Ht : Whisper.translate wh_env_mt_down "hello"%string
                   (Whisper.source_lang wh_cfg) (Whisper.target_lang wh_cfg)
                 = None) by reflexivity.
    split; [vm_compute; reflexivity |].
    exact (proj1 (cache_written_only_on_success wh_env_mt_down wh_cfg)
             s "hello"%string (mkQueue 0 []) Hr Hg Hc Ht).
  - intros s.
    assert (Hr : Whisper.is_running s = true) by (vm_compute; reflexivity).
    assert (Hg : get (Whisper.text_queue s)
                 = Some ("hello"%string, mkQueue 0 []))
      by (vm_compute; reflexivity).
    assert (Hc : Whisper.translation_cache s !! "hello"%string = None)
      by (vm_compute; reflexivity).
    assert (Ht : Whisper.translate wh_env "hello"%string
                   (Whisper.source_lang wh_cfg) (Whisper.target_lang wh_cfg)
                 = Some "hola"%string) by (vm_compute; reflexivity).
    split; [exact Hc |].
    exact (proj1 (proj2 (proj2 (proj2
             (cache_written_only_on_success wh_env wh_cfg))))
             wh_round "hello"%string "hola"%string (mkQueue 0 []) Hr Hg Hc Ht).
Defined.

(** * Further properties of the code *)

(** ** [str.strip], continued *)

Module PyStrMoreFacts.
Import PyStr.

Lemma lstrip_chars_idem l : lstrip_chars (lstrip_chars l) = lstrip_chars l.
Proof.
  induction l as [| c l IH]; simpl; [reflexivity |].
  destruct (isspace c) eqn:E; [exact IH |]. simpl. now rewrite E.
Qed.

Lemma lstrip_chars_split l :
  exists k, l = k ++ lstrip_chars l /\ forallb isspace k = true.
Proof.
  induction l as [| c l (k & Hk & Hs)]; simpl.
  - exists []. split; reflexivity.
  - destruct (isspace c) eqn:E.
    + exists (c :: k). simpl. rewrite E, Hs. split; [congruence | reflexivity].
    + exists []. split; reflexivity.
Qed.

Lemma strip_chars_lstrip l : lstrip_chars (strip_chars l) = strip_chars l.
Proof.
  unfold strip_chars, rstrip_chars.
  destruct (lstrip_chars_split (rev (lstrip_chars l))) as (k & Hk & _).
  set (r := lstrip_chars (rev (lstrip_chars l))) in *.
  apply (f_equal (@rev _)) in Hk. rewrite rev_involutive, rev_app_distr in Hk.
  destruct (rev r) as [| c m] eqn:Er; [reflexivity |].
  simpl in Hk. apply PyStrFacts.lstrip_chars_head in Hk.
  simpl. now rewrite Hk.
Qed.

Lemma strip_chars_idem l : strip_chars (strip_chars l) = strip_chars l.
Proof.
  rewrite <- (strip_chars_lstrip l) at 2.
  unfold strip_chars at 1. rewrite strip_chars_lstrip.
  unfold strip_chars, rstrip_chars.
  now rewrite rev_involutive, lstrip_chars_idem.
Qed.

(** [s.strip().strip() == s.strip()] *)
Lemma strip_idem s : strip (strip s) = strip s.
Proof.
  unfold strip. rewrite String.list_ascii_of_string_of_list_ascii.
  now rewrite strip_chars_idem.
Qed.
End PyStrMoreFacts.

(** ** The Whisper pipeline, continued *)

Module WhisperMoreFacts.
Import Whisper WhisperMore PyQueueFacts ListFacts WhisperFacts.

#[local] Arguments stt_out : simpl never.
#[local] Arguments mt_out : simpl never.
#[local] Arguments tts_out : simpl never.
#[local] Arguments is_speech : simpl never.
#[local] Arguments buffer_maxlen : simpl never.

Lemma deque_extend_length n buf xs :
  length (deque_extend n buf xs) = Nat.min n (length buf + length xs).
Proof. unfold deque_extend. rewrite length_drop, length_app. lia. Qed.

Lemma deque_extend_suffix n buf xs :
  deque_extend n buf xs `suffix_of` buf ++ xs.
Proof. unfold deque_extend. apply suffix_drop. Qed.

Lemma deque_extend_fits n buf xs :
  length buf + length xs <= n -> deque_extend n buf xs = buf ++ xs.
Proof.
  intros H. unfold deque_extend. rewrite length_app.
  replace (length buf + length xs - n) with 0 by lia. reflexivity.
Qed.

Lemma filter_eq_not_in (t : string) (l : list string) :
  t ∉ l -> filter (eq t) l = [].
Proof.
  induction l as [| x l IH]; intros H; [reflexivity |].
  rewrite not_elem_of_cons in H. destruct H as [Hne H].
  rewrite filter_cons. destruct (decide (t = x)); [contradiction | auto].
Qed.

Lemma Forall_elem_of_snoc (l k : list string) (x : string) :
  Forall (fun t => t ∈ k) l -> Forall (fun t => t ∈ k ++ [x]) l.
Proof.
  intros H. eapply Forall_impl; [exact H |].
  intros t Ht. apply elem_of_app. now left.
Qed.

Section Wf.
Variable env : Env.
Variable cfg : Config.

Lemma Wf_started : Wf env cfg started.
Proof.
  constructor; unfold_state;
    try (constructor; fail); try lia;
    try (intros t [v Hv]; rewrite lookup_empty in Hv; discriminate).
  intros t _. split; [intros _; apply not_elem_of_nil | simpl; lia].
Qed.

Lemma Wf_audio_callback d s :
  Wf env cfg s -> Wf env cfg (audio_callback cfg d s).
Proof.
  intros []. constructor; unfold audio_callback; unfold_state; try assumption.
  rewrite deque_extend_length. lia.
Qed.

Lemma Wf_stop s : Wf env cfg s -> Wf env cfg (stop s).
Proof. intros []. constructor; unfold stop; unfold_state; assumption. Qed.

Lemma Wf_record s :
  Wf env cfg s -> Wf env cfg (record_audio_chunk s).
Proof.
  intros H. unfold record_audio_chunk. destruct (is_running s); [| exact H].
  unfold record_body. destruct (audio_buffer s) as [| x l] eqn:Eb; [exact H |].
  assert (Hg : good_chunk cfg (x :: l) \/ is_speech (x :: l) = false).
  { destruct (is_speech (x :: l)) eqn:Es; [left | now right].
    split; [discriminate | split; [exact Es |]].
    rewrite <- Eb. apply (wf_buffer _ _ _ H). }
  destruct (is_speech (x :: l)) eqn:Es.
  - destruct Hg as [Hg | Hg]; [| discriminate].
    destruct (put (audio_queue s) (x :: l)) as [q |] eqn:Ep; [| exact H].
    apply put_Some in Ep as [_ Hit].
    destruct H. constructor; unfold_state; snoc; try assumption; try lia.
    + rewrite Hit. apply Forall_app. split; [assumption | now constructor].
    + apply Forall_app. split; [assumption | now constructor].
  - destruct H. constructor; unfold_state; try assumption. lia.
Qed.

Lemma Wf_transcribe s :
  Wf env cfg s -> Wf env cfg (transcribe_audio env cfg s).
Proof.
  intros H. unfold transcribe_audio. destruct (is_running s); [| exact H].
  unfold transcribe_body.
  destruct (get (audio_queue s)) as [[a q] |] eqn:Eg; [| exact H].
  apply get_Some in Eg as [_ Hit].
  pose proof (wf_queued_chunks _ _ _ H) as Hq. rewrite Hit in Hq.
  apply Forall_cons in Hq as [_ Hq].
  destruct (whisper_transcribe env a (source_lang cfg)) as [raw |];
    [destruct (PyStr.truthy (PyStr.strip raw)) eqn:Et;
     [destruct (put _ (PyStr.strip raw)) as [q' |] eqn:Ep; [| exact H] |] |].
  - apply put_Some in Ep as [_ Hit']. simpl in Hit'.
    assert (Hgood : good_text (PyStr.strip raw)).
    { split; [| apply PyStrMoreFacts.strip_idem].
      intros E. rewrite E in Et. discriminate. }
    destruct H. constructor; unfold_state; snoc; try assumption.
    + rewrite Hit'. apply Forall_app. split; [assumption | now constructor].
    + apply Forall_app. split; [assumption | now constructor].
    + rewrite Hit'. apply Forall_app. split.
      * now apply Forall_elem_of_snoc.
      * constructor; [| constructor]. apply elem_of_app. right. now left.
    + now apply Forall_elem_of_snoc.
  - destruct H. constructor; unfold_state; snoc; assumption.
  - destruct H. constructor; unfold_state; snoc; assumption.
Qed.
Lemma Wf_translate s :
  Wf env cfg s -> Wf env cfg (translate_text env cfg s).
Proof.
  intros H. unfold translate_text. destruct (is_running s); [| exact H].
  unfold translate_body.
  destruct (get (text_queue s)) as [[t q] |] eqn:Eg; [| exact H].
  apply get_Some in Eg as [_ Hit].
  pose proof (wf_queued_texts _ _ _ H) as Hq. rewrite Hit in Hq.
  apply Forall_cons in Hq as [_ Hq].
  pose proof (wf_queued_known _ _ _ H) as Hk. rewrite Hit in Hk.
  apply Forall_cons in Hk as [Hkt Hk].
  assert (Hmt : mt_out env cfg t
                = translate env t (source_lang cfg) (target_lang cfg))
    by reflexivity.
  simpl.
  destruct (translation_cache s !! t) as [v |] eqn:Ec.
  - destruct (put _ v) as [q' |]; [| exact H].
    destruct H. constructor; unfold_state; snoc; assumption.
  - destruct (translate env t (source_lang cfg) (target_lang cfg))
      as [tr |] eqn:Et.
    + destruct (put _ tr) as [q' |]; [| exact H].
      pose proof (wf_once _ _ _ H t) as Ho. rewrite Hmt in Ho.
      destruct (Ho (ltac:(eauto))) as [Hnew _]. specialize (Hnew Ec).
      destruct H. constructor; unfold_state; snoc; try assumption.
      * apply Forall_app. split; [assumption | now repeat constructor].
      * intros t' Hs. apply lookup_insert_is_Some in Hs as [<- | [Hne Hs]];
          apply elem_of_app; [right; now left | left; now apply wf_keys_called0].
      * rewrite map_size_insert_None by assumption. rewrite length_app. simpl. lia.
      * intros T HT. destruct (wf_once0 T HT) as [Ha Hb].
        rewrite filter_app, length_app.
        destruct (decide (T = t)) as [-> | Hne].
        -- split; [rewrite lookup_insert_eq; discriminate |].
           rewrite (filter_eq_not_in t _ Hnew). simpl.
           rewrite filter_cons. destruct (decide (t = t)); [simpl; lia | contradiction].
        -- split.
           ++ rewrite lookup_insert_ne by congruence. intros Hn.
              rewrite elem_of_app, list_elem_of_singleton. intros [Hin | ->]; [| contradiction].
              now apply Ha.
           ++ rewrite filter_cons. destruct (decide (T = t)); [contradiction |].
              simpl. lia.
    + destruct H. constructor; unfold_state; snoc; try assumption.
      * apply Forall_app. split; [assumption | now repeat constructor].
      * intros t' Hs. apply elem_of_app. left. now apply wf_keys_called0.
      * rewrite length_app. simpl. lia.
      * intros T HT. destruct (wf_once0 T HT) as [Ha Hb].
        assert (Hne : T <> t).
        { intros ->. rewrite Hmt in HT. destruct HT as [? HT]. discriminate. }
        rewrite filter_app, length_app, filter_cons.
        destruct (decide (T = t)); [contradiction |]. simpl. split; [| lia].
        intros Hn. rewrite elem_of_app, list_elem_of_singleton.
        intros [Hin | ->]; [| contradiction]. now apply Ha.
Qed.

Lemma Wf_speak s :
  Wf env cfg s -> Wf env cfg (speak_translation env cfg s).
Proof.
  intros H. unfold speak_translation. destruct (speak_guard s); [| exact H].
  unfold speak_body.
  destruct (get (translation_queue s)) as [[t q] |]; [| exact H].
  destruct (gTTS env t (target_lang cfg)) as [audio |];
    [destruct (play env audio); [destruct (cleanup env audio) |] |];
    destruct H; constructor; unfold_state; snoc; assumption.
Qed.

Lemma Wf_step s a : Wf env cfg s -> Wf env cfg (step env cfg s a).
Proof.
  destruct a; simpl;
    auto using Wf_audio_callback, Wf_record, Wf_transcribe, Wf_translate,
      Wf_speak, Wf_stop.
Qed.

Lemma Wf_run sched s : Wf env cfg s -> Wf env cfg (run env cfg sched s).
Proof.
  revert s. induction sched as [| a sched IH]; intros s H; simpl; [exact H |].
  apply IH, Wf_step, H.
Qed.

Lemma Wf_reachable sched : Wf env cfg (run env cfg sched started).
Proof. apply Wf_run, Wf_started. Qed.
End Wf.
End WhisperMoreFacts.

(** ** The basic pipeline, continued *)

Module RealtimeMoreFacts.
Import Realtime RealtimeMore PyQueueFacts ListFacts RealtimeFacts.

Section Wf.
Variable env : Env.
Variable cfg : Config.

Lemma rt_Wf_started : Wf started.
Proof. constructor; unfold_state; constructor. Qed.

Lemma rt_Wf_audio_callback d s : Wf s -> Wf (audio_callback d s).
Proof.
  intros H. unfold audio_callback. destruct (is_running s); [| exact H].
  destruct H. constructor; unfold_state; assumption.
Qed.

Lemma rt_Wf_stop s : Wf s -> Wf (stop s).
Proof. intros []. constructor; unfold stop; unfold_state; assumption. Qed.

Lemma rt_Wf_capture s : Wf s -> Wf (continuous_audio_capture s).
Proof.
  intros H. unfold continuous_audio_capture.
  destruct (is_running s); [| exact H].
  unfold capture_body. destruct (audio_frames s) as [| f fs]; [exact H |].
  destruct (concat (f :: fs)) as [| b bs].
  { destruct H. constructor; unfold_state; assumption. }
  assert (Hg : good_audio (mkAudioData (b :: bs) RATE 2))
    by (repeat split; discriminate).
  destruct (put_nowait _ _) as [q |] eqn:Ep.
  - apply put_nowait_Some in Ep as (_ & Hit & _). simpl in Hit.
    destruct H. constructor; unfold_state; snoc; try assumption.
    + rewrite Hit. apply Forall_app. split; [assumption | now constructor].
    + apply Forall_app. split; [assumption | now constructor].
    + apply Forall_app. split; [assumption | constructor; [lia | constructor]].
  - destruct H. constructor; unfold_state; snoc; try assumption.
    + apply Forall_app. split; [assumption | now constructor].
    + apply Forall_app. split; [assumption | constructor; [lia | constructor]].
Qed.

Lemma rt_Wf_recognize s : Wf s -> Wf (recognize_speech env cfg s).
Proof.
  intros H. unfold recognize_speech. destruct (is_running s); [| exact H].
  unfold recognize_body.
  destruct (get (audio_queue s)) as [[a q] |] eqn:Eg; [| exact H].
  apply get_Some in Eg as [_ Hit].
  pose proof (wf_queued_audio _ H) as Hq. rewrite Hit in Hq.
  apply Forall_cons in Hq as [_ Hq].
  destruct (recognize_google env a (source_lang cfg)) as [text | | |];
    [destruct (PyStr.truthy text) eqn:Et;
     [destruct (put _ text) as [q' |] eqn:Ep; [| exact H] |] | ..];
    try (destruct H; constructor; unfold_state; snoc; assumption).
  apply put_Some in Ep as [_ Hit']. simpl in Hit'.
  assert (Hne : text <> EmptyString) by (intros ->; discriminate).
  destruct H. constructor; unfold_state; snoc; try assumption.
  - rewrite Hit'. apply Forall_app. split; [assumption | now constructor].
  - apply Forall_app. split; [assumption | now constructor].
Qed.

Lemma rt_Wf_translate s : Wf s -> Wf (translate_text env cfg s).
Proof.
  intros H. unfold translate_text. destruct (is_running s); [| exact H].
  unfold translate_body.
  destruct (get (text_queue s)) as [[t q] |] eqn:Eg; [| exact H].
  apply get_Some in Eg as [_ Hit].
  pose proof (wf_queued_texts _ H) as Hq. rewrite Hit in Hq.
  apply Forall_cons in Hq as [_ Hq].
  destruct (translate env t (source_lang cfg) (target_lang cfg)) as [tr |];
    [destruct (put _ tr) as [q' |]; [| exact H] |];
    destruct H; constructor; unfold_state; snoc; assumption.
Qed.

Lemma rt_Wf_speak s : Wf s -> Wf (speak_translation env cfg s).
Proof.
  intros H. unfold speak_translation. destruct (speak_guard s); [| exact H].
  unfold speak_body.
  destruct (get (translation_queue s)) as [[t q] |]; [| exact H].
  destruct (gTTS env t (target_lang cfg)) as [audio |];
    [destruct (play env audio); [destruct (cleanup env audio) |] |];
    destruct H; constructor; unfold_state; snoc; assumption.
Qed.

Lemma rt_Wf_step s a : Wf s -> Wf (step env cfg s a).
Proof.
  destruct a; simpl;
    auto using rt_Wf_audio_callback, rt_Wf_capture, rt_Wf_recognize,
      rt_Wf_translate, rt_Wf_speak, rt_Wf_stop.
Qed.

Lemma rt_Wf_run sched s : Wf s -> Wf (run env cfg sched s).
Proof.
  revert s. induction sched as [| a sched IH]; intros s H; simpl; [exact H |].
  apply IH, rt_Wf_step, H.
Qed.

Lemma rt_Wf_reachable sched : Wf (run env cfg sched started).
Proof. apply rt_Wf_run, rt_Wf_started. Qed.

(** *** What the device delivers and what the Capturer cuts *)


End Wf.
End RealtimeMoreFacts.

(** ** Further theorems on the two pipelines *)

Import MoreExamples.

(** X1: once the running flag of the basic pipeline is cleared, whatever
    the threads do afterwards and whenever the process ends, the flag stays
    cleared and each of the three upstream threads finishes at most the
    iteration it is in (a thread that has passed the guard of its loop
    before [stop] and is asleep or waiting on its queue still carries the
    iteration out): at most one more chunk is cut and numbered, at most one
    more transcript is enqueued, at most one more text is sent to the
    translation engine and at most one more translation is enqueued, and
    none at all for a thread that is not inside an iteration.  When none of
    the three is inside an iteration, the frame buffer, the chunk counter,
    the capture queue and the text queue never change again (what they hold
    is never processed), and the translation queue only loses items at its
    front, each of them handed to the speech synthesis. *)
Theorem basic_pipeline_after_stop
    (env : Realtime.Env) (cfg : Realtime.Config)
    (st : Threads.State Realtime.State)
    (sched : list (Threads.Action Realtime.bytes)) :
  Realtime.is_running (Threads.shared st) = false ->
  let s := Threads.shared st in
  let p := Threads.phases st in
  let st' := Threads.run (RealtimeThreads.machine env cfg) sched st in
  let s' := Threads.shared st' in
  Realtime.is_running s' = false /\
  length (Realtime.produced s')
  <= length (Realtime.produced s) + Threads.in_flight Threads.CapturerThread p /\
  Realtime.chunk_number s'
  <= Realtime.chunk_number s + Threads.in_flight Threads.CapturerThread p /\
  length (Realtime.transcripts s')
  <= length (Realtime.transcripts s)
     + Threads.in_flight Threads.TranscriberThread p /\
  length (Realtime.engine_calls s')
  <= length (Realtime.engine_calls s)
     + Threads.in_flight Threads.TranslatorThread p /\
  length (Realtime.translations s')
  <= length (Realtime.translations s)
     + Threads.in_flight Threads.TranslatorThread p /\
  (Threads.upstream_idle p ->
   Threads.upstream_idle (Threads.phases st') /\
   RealtimeThreads.only_spoken s s').
Proof.
  intros Hoff s p st' s'.
  split; [now apply RealtimeThreadsFacts.rt_threads_off |].
  destruct (RealtimeThreadsFacts.rt_threads_after_stop env cfg sched st Hoff)
    as (B1 & B2 & B3 & B4 & B5).
  do 5 (split; [assumption |]).
  intros Hi. now apply RealtimeThreadsFacts.rt_threads_idle.
Qed.

Lemma basic_pipeline_after_stop_witness :
  (let st := Threads.run (RealtimeThreads.machine rt_env rt_cfg)
               [Threads.Device pcm_loud;
                Threads.Guard Threads.CapturerThread; Threads.CallStop]
               RealtimeThreads.started in
   let st' := Threads.run (RealtimeThreads.machine rt_env rt_cfg)
                [Threads.Iterate Threads.CapturerThread;
                 Threads.Guard Threads.CapturerThread;
                 Threads.Device pcm_loud;
                 Threads.Iterate Threads.CapturerThread] st in
   length (Realtime.produced (Threads.shared st)) = 0 /\
   length (Realtime.produced (Threads.shared st')) = 1 /\
   length (Realtime.produced (Threads.shared st'))
   <= length (Realtime.produced (Threads.shared st))
      + Threads.in_flight Threads.CapturerThread (Threads.phases st)) /\
  (let st := Threads.run (RealtimeThreads.machine rt_env rt_cfg)
               (RealtimeThreads.refined
                  (rt_rounds 2 ++ [Realtime.Translator; Realtime.Stop]))
               RealtimeThreads.started in
   let st' := Threads.run (RealtimeThreads.machine rt_env rt_cfg)
                (RealtimeThreads.refined
                   [Realtime.AudioCallback pcm_loud; Realtime.AudioCapture;
                    Realtime.Recognizer; Realtime.Translator;
                    Realtime.Speaker]) st in
   items (Realtime.text_queue (Threads.shared st)) = ["hello"%string] /\
   RealtimeThreads.only_spoken (Threads.shared st) (Threads.shared st')).
Proof.
  split.
  - intros st st'.
    assert (Hr : Realtime.is_running (Threads.shared st) = false)
      by (vm_compute; reflexivity).
    do 2 (split; [vm_compute; reflexivity |]).
    exact (proj1 (proj2 (basic_pipeline_after_stop rt_env rt_cfg st
                           [Threads.Iterate Threads.CapturerThread;
                            Threads.Guard Threads.CapturerThread;
                            Threads.Device pcm_loud;
                            Threads.Iterate Threads.CapturerThread] Hr))).
  - intros st st'.
    assert (Hr : Realtime.is_running (Threads.shared st) = false)
      by (vm_compute; reflexivity).
    assert (Hi : Threads.upstream_idle (Threads.phases st))
      by (vm_compute; repeat split; discriminate).
    split; [vm_compute; reflexivity |].
    exact (proj2 (proj2 (proj2 (proj2 (proj2 (proj2 (proj2
             (basic_pipeline_after_stop rt_env rt_cfg st _ Hr)))))) Hi)).
Defined.

(** X2: once the running flag of the Whisper pipeline is cleared, whatever
    the threads do afterwards and whenever the process ends, the flag stays
    cleared and each of the three upstream threads finishes at most the
    iteration it is in: at most one more chunk is enqueued, at most one
    more transcript, at most one more call of the translation engine, one
    more translation and one more entry of the cache, and none at all for
    a thread that is not inside an iteration.  When none of the three is
    inside an iteration, the capture queue, the text queue and the cache
    never change again, and the translation queue only loses items at its
    front, each of them handed to the speech synthesis. *)
Theorem whisper_pipeline_after_stop
    (env : Whisper.Env) (cfg : Whisper.Config)
    (st : Threads.State Whisper.State)
    (sched : list (Threads.Action (list Q))) :
  Whisper.is_running (Threads.shared st) = false ->
  let s := Threads.shared st in
  let p := Threads.phases st in
  let st' := Threads.run (WhisperThreads.machine env cfg) sched st in
  let s' := Threads.shared st' in
  Whisper.is_running s' = false /\
  length (Whisper.accepted s')
  <= length (Whisper.accepted s) + Threads.in_flight Threads.CapturerThread p /\
  length (Whisper.transcripts s')
  <= length (Whisper.transcripts s)
     + Threads.in_flight Threads.TranscriberThread p /\
  length (Whisper.engine_calls s')
  <= length (Whisper.engine_calls s)
     + Threads.in_flight Threads.TranslatorThread p /\
  length (Whisper.translations s')
  <= length (Whisper.translations s)
     + Threads.in_flight Threads.TranslatorThread p /\
  size (Whisper.translation_cache s')
  <= size (Whisper.translation_cache s)
     + Threads.in_flight Threads.TranslatorThread p /\
  (Threads.upstream_idle p ->
   Threads.upstream_idle (Threads.phases st') /\
   WhisperThreads.only_spoken s s').
Proof.
  intros Hoff s p st' s'.
  split; [now apply WhisperThreadsFacts.wh_threads_off |].
  destruct (WhisperThreadsFacts.wh_threads_after_stop env cfg sched st Hoff)
    as (B1 & B2 & B3 & B4 & B5).
  do 5 (split; [assumption |]).
  intros Hi. now apply WhisperThreadsFacts.wh_threads_idle.
Qed.

Lemma whisper_pipeline_after_stop_witness :
  (let st := Threads.run (WhisperThreads.machine wh_env wh_cfg)
               (WhisperThreads.refined wh_round
                ++ [Threads.Guard Threads.TranslatorThread; Threads.CallStop])
               WhisperThreads.started in
   let st' := Threads.run (WhisperThreads.machine wh_env wh_cfg)
                [Threads.Iterate Threads.TranslatorThread;
                 Threads.Guard Threads.TranslatorThread;
                 Threads.Iterate Threads.TranslatorThread] st in
   Whisper.engine_calls (Threads.shared st) = [] /\
   Whisper.engine_calls (Threads.shared st') = ["hello"%string] /\
   size (Whisper.translation_cache (Threads.shared st')) = 1 /\
   length (Whisper.engine_calls (Threads.shared st'))
   <= length (Whisper.engine_calls (Threads.shared st))
      + Threads.in_flight Threads.TranslatorThread (Threads.phases st)) /\
  (let st := Threads.run (WhisperThreads.machine wh_env wh_cfg)
               (WhisperThreads.refined
                  (wh_round ++ wh_round ++ [Whisper.Translator; Whisper.Stop]))
               WhisperThreads.started in
   let st' := Threads.run (WhisperThreads.machine wh_env wh_cfg)
                (WhisperThreads.refined
                   [Whisper.AudioCallback loud; Whisper.Recorder;
                    Whisper.Transcriber; Whisper.Translator;
                    Whisper.Speaker]) st in
   items (Whisper.text_queue (Threads.shared st)) = ["hello"%string] /\
   WhisperThreads.only_spoken (Threads.shared st) (Threads.shared st')).
Proof.
  split.
  - intros st st'.
    assert (Hr : Whisper.is_running (Threads.shared st) = false)
      by (vm_compute; reflexivity).
    do 3 (split; [vm_compute; reflexivity |]).
    exact (proj1 (proj2 (proj2 (proj2
             (whisper_pipeline_after_stop wh_env wh_cfg st
                [Threads.Iterate Threads.TranslatorThread;
                 Threads.Guard Threads.TranslatorThread;
                 Threads.Iterate Threads.TranslatorThread] Hr))))).
  - intros st st'.
    assert (Hr : Whisper.is_running (Threads.shared st) = false)
      by (vm_compute; reflexivity).
    assert (Hi : Threads.upstream_idle (Threads.phases st))
      by (vm_compute; repeat split; discriminate).
    split; [vm_compute; reflexivity |].
    exact (proj2 (proj2 (proj2 (proj2 (proj2 (proj2 (proj2
             (whisper_pipeline_after_stop wh_env wh_cfg st _ Hr)))))) Hi)).
Defined.

(** X3: when the speech-to-text engine raises on the chunk taken from the
    capture queue, the chunk is gone, nothing is put on the text queue, the
    other queues and the played audio are untouched, and the log gains the
    announcement and the message of the handler that caught the exception:
    in the basic pipeline one message each for [UnknownValueError],
    [RequestError] and any other exception, in the Whisper pipeline the
    transcription error; the running flag still holds. *)
Theorem recognition_error_contained :
  (forall (env : Realtime.Env) (cfg : Realtime.Config) (s : Realtime.State)
          (a : Realtime.AudioData) (q : Queue Realtime.AudioData),
      Realtime.is_running s = true ->
      get (Realtime.audio_queue s) = Some (a, q) ->
      (forall text, Realtime.recognize_google env a (Realtime.source_lang cfg)
                    <> Realtime.RecText text) ->
      let s' := Realtime.recognize_speech env cfg s in
      Realtime.audio_queue s' = q /\
      Realtime.text_queue s' = Realtime.text_queue s /\
      Realtime.translation_queue s' = Realtime.translation_queue s /\
      Realtime.played s' = Realtime.played s /\
      Realtime.is_running s' = true /\
      Realtime.log s'
      = Realtime.log s
        ++ [Realtime.Recognizing;
            match Realtime.recognize_google env a (Realtime.source_lang cfg) with
            | Realtime.UnknownValueError => Realtime.CouldNotUnderstand
            | Realtime.RequestError => Realtime.RecognitionApiError
            | _ => Realtime.RecognitionError
            end]) /\
  (forall (env : Whisper.Env) (cfg : Whisper.Config) (s : Whisper.State)
          (a : Whisper.AudioChunk) (q : Queue Whisper.AudioChunk),
      Whisper.is_running s = true ->
      get (Whisper.audio_queue s) = Some (a, q) ->
      Whisper.whisper_transcribe env a (Whisper.source_lang cfg) = None ->
      let s' := Whisper.transcribe_audio env cfg s in
      Whisper.audio_queue s' = q /\
      Whisper.text_queue s' = Whisper.text_queue s /\
      Whisper.translation_queue s' = Whisper.translation_queue s /\
      Whisper.translation_cache s' = Whisper.translation_cache s /\
      Whisper.played s' = Whisper.played s /\
      Whisper.is_running s' = true /\
      Whisper.log s'
      = Whisper.log s ++ [Whisper.Transcribing; Whisper.TranscriptionError]).
Proof.
  split.
  - intros env cfg s a q Hr Hg He. cbv zeta.
    unfold Realtime.recognize_speech, Realtime.recognize_body.
    rewrite Hr, Hg.
    destruct (Realtime.recognize_google env a (Realtime.source_lang cfg))
      as [text | | |] eqn:E; [now destruct (He text) | ..];
      simpl; rewrite <- app_assoc; repeat split; try reflexivity; exact Hr.
  - intros env cfg s a q Hr Hg He. cbv zeta.
    unfold Whisper.transcribe_audio, Whisper.transcribe_body.
    rewrite Hr, Hg, He. simpl. rewrite <- app_assoc.
    repeat split; try reflexivity. exact Hr.
Qed.

Lemma recognition_error_contained_witness :
  (let s := Realtime.run rt_env_deaf rt_cfg
              [Realtime.AudioCallback pcm_loud; Realtime.AudioCapture]
              Realtime.started in
   let s' := Realtime.recognize_speech rt_env_deaf rt_cfg s in
   length (items (Realtime.audio_queue s)) = 1 /\
   Realtime.audio_queue s' = mkQueue 10 [] /\
   Realtime.text_queue s' = Realtime.text_queue s) /\
  (let s := Whisper.run wh_env_deaf wh_cfg
              [Whisper.AudioCallback loud; Whisper.Recorder]
              Whisper.started in
   let s' := Whisper.transcribe_audio wh_env_deaf wh_cfg s in
   length (items (Whisper.audio_queue s)) = 1 /\
   Whisper.audio_queue s' = mkQueue 0 [] /\
   Whisper.text_queue s' = Whisper.text_queue s).
Proof.
  split.
  - intros s s'.
    assert (Hr : Realtime.is_running s = true) by (vm_compute; reflexivity).
    assert (Hg : get (Realtime.audio_queue s)
                 = Some (Realtime.mkAudioData pcm_loud Realtime.RATE 2,
                         mkQueue 10 []))
      by (vm_compute; reflexivity).
    assert (He : forall text,
               Realtime.recognize_google rt_env_deaf
                 (Realtime.mkAudioData pcm_loud Realtime.RATE 2)
                 (Realtime.source_lang rt_cfg) <> Realtime.RecText text)
      by (intros text; discriminate).
    destruct (proj1 recognition_error_contained rt_env_deaf rt_cfg s
                _ _ Hr Hg He) as (E1 & E2 & _).
    split; [vm_compute; reflexivity |]. split; [exact E1 | exact E2].
  - intros s s'.
    assert (Hr : Whisper.is_running s = true) by (vm_compute; reflexivity).
    assert (Hg : get (Whisper.audio_queue s) = Some (loud, mkQueue 0 []))
      by (vm_compute; reflexivity).
    assert (He : Whisper.whisper_transcribe wh_env_deaf loud
                   (Whisper.source_lang wh_cfg) = None) by reflexivity.
    destruct (proj2 recognition_error_contained wh_env_deaf wh_cfg s
                _ _ Hr Hg He) as (E1 & E2 & _).
    split; [vm_compute; reflexivity |]. split; [exact E1 | exact E2].
Defined.

(** X4: an iteration of the Speaker on the text it has taken from the
    translation queue leaves the other queues and the running flag as they
    are, so the loop goes on with the next text.  When the speech synthesis
    or the playback raises, nothing is played and the log gains the
    announcement and the speech error.  When the utterance has been played
    and the clean-up after it ([unload], [os.unlink]) raises, the utterance
    is among the played ones all the same and the log gains the
    announcement and the speech error; when the clean-up succeeds the log
    gains the announcement and the completion message. *)
Theorem speech_error_contained :
  (forall (env : Realtime.Env) (cfg : Realtime.Config) (s : Realtime.State)
          (t : string) (q : Queue string),
      get (Realtime.translation_queue s) = Some (t, q) ->
      let s' := Realtime.speak_translation env cfg s in
      Realtime.translation_queue s' = q /\
      Realtime.audio_queue s' = Realtime.audio_queue s /\
      Realtime.text_queue s' = Realtime.text_queue s /\
      Realtime.is_running s' = Realtime.is_running s /\
      (Realtime.tts_out env cfg t = None ->
       Realtime.played s' = Realtime.played s /\
       Realtime.log s'
       = Realtime.log s ++ [Realtime.Speaking t; Realtime.SpeechError]) /\
      (forall audio,
          Realtime.gTTS env t (Realtime.target_lang cfg) = Some audio ->
          Realtime.play env audio = true ->
          (Realtime.cleanup env audio = false ->
           Realtime.played s' = Realtime.played s ++ [audio] /\
           Realtime.log s'
           = Realtime.log s ++ [Realtime.Speaking t; Realtime.SpeechError]) /\
          (Realtime.cleanup env audio = true ->
           Realtime.played s' = Realtime.played s ++ [audio] /\
           Realtime.log s'
           = Realtime.log s ++ [Realtime.Speaking t; Realtime.SpeechComplete]))) /\
  (forall (env : Whisper.Env) (cfg : Whisper.Config) (s : Whisper.State)
          (t : string) (q : Queue string),
      get (Whisper.translation_queue s) = Some (t, q) ->
      let s' := Whisper.speak_translation env cfg s in
      Whisper.translation_queue s' = q /\
      Whisper.audio_queue s' = Whisper.audio_queue s /\
      Whisper.text_queue s' = Whisper.text_queue s /\
      Whisper.translation_cache s' = Whisper.translation_cache s /\
      Whisper.is_running s' = Whisper.is_running s /\
      (Whisper.tts_out env cfg t = None ->
       Whisper.played s' = Whisper.played s /\
       Whisper.log s'
       = Whisper.log s ++ [Whisper.Speaking t; Whisper.SpeechError]) /\
      (forall audio,
          Whisper.gTTS env t (Whisper.target_lang cfg) = Some audio ->
          Whisper.play env audio = true ->
          (Whisper.cleanup env audio = false ->
           Whisper.played s' = Whisper.played s ++ [audio] /\
           Whisper.log s'
           = Whisper.log s ++ [Whisper.Speaking t; Whisper.SpeechError]) /\
          (Whisper.cleanup env audio = true ->
           Whisper.played s' = Whisper.played s ++ [audio] /\
           Whisper.log s'
           = Whisper.log s ++ [Whisper.Speaking t; Whisper.SpeechComplete]))).
Proof.
  split.
  - intros env cfg s t q Hg. cbv zeta.
    assert (Hne : empty (Realtime.translation_queue s) = false).
    { unfold empty. apply PyQueueFacts.get_Some in Hg as [_ ->]. reflexivity. }
    unfold Realtime.speak_translation, Realtime.speak_guard, Realtime.speak_body.
    rewrite Hne, orb_true_r, Hg. unfold Realtime.tts_out.
    destruct (Realtime.gTTS env t (Realtime.target_lang cfg)) as [audio |];
      [destruct (Realtime.play env audio) eqn:Ep;
       [destruct (Realtime.cleanup env audio) eqn:Ec |] |];
      simpl; rewrite <- ?app_assoc; repeat split; try reflexivity;
      try discriminate;
      intros; repeat match goal with
                     | H : Some _ = Some _ |- _ => injection H as <-
                     end;
      try congruence; repeat split; reflexivity.
  - intros env cfg s t q Hg. cbv zeta.
    assert (Hne : empty (Whisper.translation_queue s) = false).
    { unfold empty. apply PyQueueFacts.get_Some in Hg as [_ ->]. reflexivity. }
    unfold Whisper.speak_translation, Whisper.speak_guard, Whisper.speak_body.
    rewrite Hne, orb_true_r, Hg. unfold Whisper.tts_out.
    destruct (Whisper.gTTS env t (Whisper.target_lang cfg)) as [audio |];
      [destruct (Whisper.play env audio) eqn:Ep;
       [destruct (Whisper.cleanup env audio) eqn:Ec |] |];
      simpl; rewrite <- ?app_assoc; repeat split; try reflexivity;
      try discriminate;
      intros; repeat match goal with
                     | H : Some _ = Some _ |- _ => injection H as <-
                     end;
      try congruence; repeat split; reflexivity.
Qed.

Lemma speech_error_contained_witness :
  (let s := Realtime.run rt_env_no_cleanup rt_cfg
              (rt_round ++ [Realtime.Translator; Realtime.Stop])
              Realtime.started in
   let s' := Realtime.speak_translation rt_env_no_cleanup rt_cfg s in
   items (Realtime.translation_queue s) = ["hola"%string] /\
   Realtime.played s = [] /\
   Realtime.played s'
   = Realtime.played s ++ [[Byte.x49; Byte.x44; Byte.x33]] /\
   Realtime.log s'
   = Realtime.log s ++ [Realtime.Speaking "hola"; Realtime.SpeechError]) /\
  (let s := Whisper.run wh_env_mute wh_cfg
              (wh_round ++ [Whisper.Translator]) Whisper.started in
   let s' := Whisper.speak_translation wh_env_mute wh_cfg s in
   items (Whisper.translation_queue s) = ["hola"%string] /\
   Whisper.played s' = Whisper.played s /\
   Whisper.log s'
   = Whisper.log s ++ [Whisper.Speaking "hola"; Whisper.SpeechError]).
Proof.
  split.
  - intros s s'.
    assert (Hg : get (Realtime.translation_queue s)
                 = Some ("hola"%string, mkQueue 0 []))
      by (vm_compute; reflexivity).
    do 2 (split; [vm_compute; reflexivity |]).
    exact (proj1 (proj2 (proj2 (proj2 (proj2 (proj2
             (proj1 speech_error_contained rt_env_no_cleanup rt_cfg s _ _
                Hg)))))
             [Byte.x49; Byte.x44; Byte.x33] eq_refl eq_refl) eq_refl).
  - intros s s'.
    assert (Hg : get (Whisper.translation_queue s)
                 = Some ("hola"%string, mkQueue 0 []))
      by (vm_compute; reflexivity).
    assert (Ht : Whisper.tts_out wh_env_mute wh_cfg "hola" = None)
      by reflexivity.
    split; [vm_compute; reflexivity |].
    exact (proj1 (proj2 (proj2 (proj2 (proj2 (proj2
             (proj2 speech_error_contained wh_env_mute wh_cfg s _ _ Hg))))))
             Ht).
Defined.

(** X5: every text the Transcriber of the Whisper pipeline has ever put on
    the text queue, and so every text waiting there, is non-empty and is its
    own [strip()]: it has no leading or trailing whitespace.  In the basic
    pipeline every such text is non-empty. *)
Theorem transcripts_are_clean :
  (forall (env : Whisper.Env) (cfg : Whisper.Config)
          (sched : list Whisper.Action),
      let s := Whisper.run env cfg sched Whisper.started in
      Forall (fun t => t <> EmptyString /\ PyStr.strip t = t)
             (Whisper.transcripts s) /\
      Forall (fun t => t <> EmptyString /\ PyStr.strip t = t)
             (items (Whisper.text_queue s))) /\
  (forall (env : Realtime.Env) (cfg : Realtime.Config)
          (sched : list Realtime.Action),
      let s := Realtime.run env cfg sched Realtime.started in
      Forall (fun t => t <> EmptyString) (Realtime.transcripts s) /\
      Forall (fun t => t <> EmptyString) (items (Realtime.text_queue s))).
Proof.
  split; intros env cfg sched s.
  - pose proof (WhisperMoreFacts.Wf_reachable env cfg sched) as H.
    split; [apply (WhisperMore.wf_transcripts _ _ _ H)
           | apply (WhisperMore.wf_queued_texts _ _ _ H)].
  - pose proof (RealtimeMoreFacts.rt_Wf_reachable env cfg sched) as H.
    split; [apply (RealtimeMore.wf_transcripts _ H)
           | apply (RealtimeMore.wf_queued_texts _ H)].
Qed.

(** X6: every chunk the Recorder of the Whisper pipeline has ever enqueued,
    and so every chunk waiting on the capture queue, is non-empty, has a
    sample whose magnitude exceeds the silence threshold, and holds at most
    [int(sample_rate * chunk_duration)] samples. *)
Theorem queued_chunks_are_loud_and_bounded
    (env : Whisper.Env) (cfg : Whisper.Config) (sched : list Whisper.Action) :
  let s := Whisper.run env cfg sched Whisper.started in
  let good (a : Whisper.AudioChunk) :=
    a <> [] /\
    Exists (fun x => (Whisper.SILENCE_THRESHOLD < Qabs x)%Q) a /\
    length a <= Z.to_nat (Whisper.sample_rate cfg * Whisper.chunk_duration cfg) in
  Forall good (Whisper.accepted s) /\
  Forall good (items (Whisper.audio_queue s)).
Proof.
  intros s good.
  pose proof (WhisperMoreFacts.Wf_reachable env cfg sched) as H.
  assert (Hg : forall a, WhisperMore.good_chunk cfg a -> good a).
  { intros a (H1 & H2 & H3). repeat split; [exact H1 | | exact H3].
    now apply WhisperFacts.is_speech_true_iff. }
  split; (eapply Forall_impl; [| exact Hg]).
  - apply (WhisperMore.wf_accepted _ _ _ H).
  - apply (WhisperMore.wf_queued_chunks _ _ _ H).
Qed.

(** X7: every [AudioData] the Capturer of the basic pipeline has ever built,
    enqueued or dropped, and so every one waiting on the capture queue, has
    non-empty frame data, the sample rate 16000 and the sample width 2; and
    the chunk numbers it prints start at 1. *)
Theorem captured_audio_is_well_formed
    (env : Realtime.Env) (cfg : Realtime.Config) (sched : list Realtime.Action) :
  let s := Realtime.run env cfg sched Realtime.started in
  let good (a : Realtime.AudioData) :=
    Realtime.frame_data a <> [] /\ Realtime.sample_rate a = 16000%Z /\
    Realtime.sample_width a = 2%Z in
  Forall good (Realtime.produced s) /\
  Forall good (items (Realtime.audio_queue s)) /\
  Forall (fun n => 1 <= n <= Realtime.chunk_number s) (Realtime.chunk_numbers s).
Proof.
  intros s good.
  pose proof (RealtimeMoreFacts.rt_Wf_reachable env cfg sched) as H.
  pose proof (RealtimeFacts.rt_Inv_reachable env cfg sched) as HI.
  split; [apply (RealtimeMore.wf_produced _ H) |].
  split; [apply (RealtimeMore.wf_queued_audio _ H) |].
  pose proof (RealtimeMore.wf_numbers _ H) as H1.
  pose proof (Realtime.inv_numbers_bound _ _ _ HI) as H2.
  fold s in H1, H2. rewrite Forall_forall in *.
  intros n Hn. split; [now apply H1 | now apply H2].
Qed.



(** X9: the sample buffer of the Whisper pipeline never holds more than
    [int(sample_rate * chunk_duration)] samples; the stream callback appends
    the new samples and, when that bound would be exceeded, drops the oldest
    ones: the new buffer is the longest suffix of the old buffer followed by
    the new samples that fits, and nothing is dropped when everything
    fits. *)
Theorem audio_buffer_keeps_latest_samples
    (env : Whisper.Env) (cfg : Whisper.Config) (sched : list Whisper.Action)
    (indata : list Q) :
  let s := Whisper.run env cfg sched Whisper.started in
  let maxlen := Z.to_nat (Whisper.sample_rate cfg * Whisper.chunk_duration cfg) in
  let s' := Whisper.audio_callback cfg indata s in
  length (Whisper.audio_buffer s) <= maxlen /\
  Whisper.audio_buffer s' `suffix_of` Whisper.audio_buffer s ++ indata /\
  length (Whisper.audio_buffer s')
  = Nat.min maxlen (length (Whisper.audio_buffer s) + length indata) /\
  (length (Whisper.audio_buffer s) + length indata <= maxlen ->
   Whisper.audio_buffer s' = Whisper.audio_buffer s ++ indata).
Proof.
  intros s maxlen s'.
  pose proof (WhisperMoreFacts.Wf_reachable env cfg sched) as H.
  split; [apply (WhisperMore.wf_buffer _ _ _ H) |].
  split; [apply WhisperMoreFacts.deque_extend_suffix |].
  split; [apply WhisperMoreFacts.deque_extend_length |].
  apply WhisperMoreFacts.deque_extend_fits.
Qed.

Lemma audio_buffer_keeps_latest_samples_witness :
  let s := Whisper.run wh_env wh_cfg_tiny [Whisper.AudioCallback loud]
             Whisper.started in
  Whisper.audio_buffer s = [(-1)%Q; (1 # 2)%Q] /\
  (let s0 := Whisper.run wh_env wh_cfg_short [] Whisper.started in
   Whisper.audio_buffer (Whisper.audio_callback wh_cfg_short loud s0)
   = Whisper.audio_buffer s0 ++ loud).
Proof.
  split; [vm_compute; reflexivity |].
  intros s0.
  assert (Hl : length (Whisper.audio_buffer s0) + length loud
               <= Z.to_nat (Whisper.sample_rate wh_cfg_short
                            * Whisper.chunk_duration wh_cfg_short))
    by (vm_compute; lia).
  exact (proj2 (proj2 (proj2 (audio_buffer_keeps_latest_samples
                                wh_env wh_cfg_short [] loud))) Hl).
Defined.

(** X10: in the Whisper pipeline, as long as the engine keeps answering the
    same way, a text that the translation engine is able to translate is
    sent to the engine at most once in a whole run, however often it is
    transcribed, and once it has been sent it is in the cache. *)
Theorem engine_called_once_per_text
    (env : Whisper.Env) (cfg : Whisper.Config) (sched : list Whisper.Action)
    (t : string) :
  is_Some (Whisper.mt_out env cfg t) ->
  let s := Whisper.run env cfg sched Whisper.started in
  length (filter (eq t) (Whisper.engine_calls s)) <= 1 /\
  (t ∈ Whisper.engine_calls s -> is_Some (Whisper.translation_cache s !! t)).
Proof.
  intros Ht s.
  pose proof (WhisperMoreFacts.Wf_reachable env cfg sched) as H.
  destruct (WhisperMore.wf_once _ _ _ H t Ht) as [Ha Hb].
  split; [exact Hb |]. intros Hin.
  destruct (Whisper.translation_cache s !! t) as [v |] eqn:Ec; [eauto |].
  now destruct (Ha Ec).
Qed.

Lemma engine_called_once_per_text_witness :
  let s := Whisper.run wh_env wh_cfg
             (wh_round ++ wh_round ++ wh_round
              ++ [Whisper.Translator; Whisper.Translator; Whisper.Translator])
             Whisper.started in
  Whisper.transcripts s = ["hello"; "hello"; "hello"]%string /\
  Whisper.translations s = ["hola"; "hola"; "hola"]%string /\
  length (filter (eq "hello"%string) (Whisper.engine_calls s)) <= 1.
Proof.
  intros s.
  assert (Ht : is_Some (Whisper.mt_out wh_env wh_cfg "hello"))
    by (exists "hola"%string; vm_compute; reflexivity).
  split; [vm_compute; reflexivity |]. split; [vm_compute; reflexivity |].
  exact (proj1 (engine_called_once_per_text wh_env wh_cfg _ "hello"%string Ht)).
Defined.

(** X11: the translation cache of the Whisper pipeline never has more
    entries than the engine was called, and each of its keys is a text that
    was transcribed and sent to the engine. *)
Theorem cache_keys_were_translated
    (env : Whisper.Env) (cfg : Whisper.Config) (sched : list Whisper.Action) :
  let s := Whisper.run env cfg sched Whisper.started in
  size (Whisper.translation_cache s) <= length (Whisper.engine_calls s) /\
  (forall t : string,
      is_Some (Whisper.translation_cache s !! t) ->
      t ∈ Whisper.engine_calls s /\ t ∈ Whisper.transcripts s).
Proof.
  intros s.
  pose proof (WhisperMoreFacts.Wf_reachable env cfg sched) as H.
  split; [apply (WhisperMore.wf_size _ _ _ H) |].
  intros t Ht.
  pose proof (WhisperMore.wf_keys_called _ _ _ H t Ht) as Hc.
  split; [exact Hc |].
  pose proof (WhisperMore.wf_calls_known _ _ _ H) as Hk.
  rewrite Forall_forall in Hk. now apply Hk.
Qed.

Lemma cache_keys_were_translated_witness :
  let s := Whisper.run wh_env wh_cfg (wh_round ++ [Whisper.Translator])
             Whisper.started in
  Whisper.translation_cache s !! "hello"%string = Some "hola"%string /\
  "hello"%string ∈ Whisper.engine_calls s /\
  "hello"%string ∈ Whisper.transcripts s.
Proof.
  intros s.
  assert (Hc : Whisper.translation_cache s !! "hello"%string
               = Some "hola"%string) by (vm_compute; reflexivity).
  split; [exact Hc |].
  apply (proj2 (cache_keys_were_translated wh_env wh_cfg
                  (wh_round ++ [Whisper.Translator])) "hello"%string).
  exists "hola"%string. exact Hc.
Defined.

(** X12: the Translator of the basic pipeline calls the engine for every text
    it takes from the text queue, repeated texts included: the texts sent to
    the engine followed by the texts still queued are exactly the
    transcripts, in order, and the translations put on the translation
    queue are exactly the results of the calls that returned. *)
Theorem basic_translator_calls_engine_every_time
    (env : Realtime.Env) (cfg : Realtime.Config) (sched : list Realtime.Action) :
  let s := Realtime.run env cfg sched Realtime.started in
  Realtime.engine_calls s ++ items (Realtime.text_queue s)
  = Realtime.transcripts s /\
  Realtime.translations s
  = omap (Realtime.mt_out env cfg) (Realtime.engine_calls s).
Proof.
  intros s.
  pose proof (RealtimeFacts.rt_Inv_reachable env cfg sched) as H.
  pose proof (Realtime.inv_calls _ _ _ H) as E1.
  pose proof (Realtime.inv_translations _ _ _ H) as E2.
  fold s in E1, E2. split; [exact E1 |].
  rewrite <- E1, omap_app in E2. now apply app_inv_tail in E2.
Qed.

(** ** The two grains of the model *)

(** X20: a run of one-step iterations is the run of the threads in which
    every test of a guard is followed at once by the iteration it lets in:
    the shared object ends up the same, the process is alive and no thread
    is left inside an iteration.  For the Whisper pipeline this holds of
    the schedules in which the device delivers no buffer after [stop] (its
    stream is closed when the Recorder leaves its loop, while the callback
    of the basic pipeline tests the flag itself). *)
Theorem one_step_runs_are_thread_runs :
  (forall (env : Realtime.Env) (cfg : Realtime.Config)
          (sched : list Realtime.Action),
      let st := Threads.run (RealtimeThreads.machine env cfg)
                  (RealtimeThreads.refined sched) RealtimeThreads.started in
      Threads.shared st = Realtime.run env cfg sched Realtime.started /\
      Threads.process_alive st = true /\
      forall w, Threads.phase_of w (Threads.phases st) <> Threads.InIteration) /\
  (forall (env : Whisper.Env) (cfg : Whisper.Config)
          (sched : list Whisper.Action),
      (forall pre d post,
          sched = pre ++ Whisper.AudioCallback d :: post ->
          Whisper.Stop ∉ pre) ->
      let st := Threads.run (WhisperThreads.machine env cfg)
                  (WhisperThreads.refined sched) WhisperThreads.started in
      Threads.shared st = Whisper.run env cfg sched Whisper.started /\
      Threads.process_alive st = true /\
      forall w, Threads.phase_of w (Threads.phases st) <> Threads.InIteration).
Proof.
  split.
  - intros env cfg sched.
    apply (RealtimeThreadsFacts.rt_refine_run env cfg sched
             RealtimeThreads.started eq_refl).
    intros []; left; reflexivity.
  - intros env cfg sched Hs.
    apply (WhisperThreadsFacts.wh_refine_run env cfg sched
             WhisperThreads.started eq_refl).
    + intros []; left; reflexivity.
    + discriminate.
    + exact Hs.
Qed.

Lemma one_step_runs_are_thread_runs_witness :
  let st := Threads.run (WhisperThreads.machine wh_env wh_cfg)
              (WhisperThreads.refined wh_two_queued) WhisperThreads.started in
  Threads.shared st = Whisper.run wh_env wh_cfg wh_two_queued Whisper.started /\
  Threads.process_alive st = true /\
  forall w, Threads.phase_of w (Threads.phases st) <> Threads.InIteration.
Proof.
  assert (Hs : forall pre d post,
             wh_two_queued = pre ++ Whisper.AudioCallback d :: post ->
             Whisper.Stop ∉ pre).
  { intros pre d post E Hin. unfold wh_two_queued, wh_round in E.
    simpl in E.
    repeat (destruct pre as [| ? pre];
            [inversion Hin |
             simpl in E; injection E as <- E;
             apply elem_of_cons in Hin as [Hin | Hin];
             [first [discriminate | destruct pre; discriminate] |]]);
      try discriminate.
    destruct pre; discriminate. }
  exact (proj2 one_step_runs_are_thread_runs wh_env wh_cfg wh_two_queued Hs).
Defined.




(** ** The command line and the window *)

Module PyTextFacts.
Import PyText.

Lemma lower_char_idem c : lower_char (lower_char c) = lower_char c.
Proof. destruct c as [[] [] [] [] [] [] [] []]; reflexivity. Qed.

(** [s.lower().lower() == s.lower()] *)
Lemma lower_idem s : lower (lower s) = lower s.
Proof.
  unfold lower. rewrite String.list_ascii_of_string_of_list_ascii.
  rewrite map_map. f_equal. apply map_ext. intros c. apply lower_char_idem.
Qed.

Lemma list_ascii_of_string_app (a b : string) :
  String.list_ascii_of_string (String.append a b)
  = String.list_ascii_of_string a ++ String.list_ascii_of_string b.
Proof. induction a as [| c a IH]; simpl; [reflexivity | now rewrite IH]. Qed.

Lemma split_chars_without sep l :
  sep ∉ l -> split_chars sep l = [l].
Proof.
  induction l as [| c l IH]; intros H; [reflexivity |].
  rewrite not_elem_of_cons in H. destruct H as [Hne H]. simpl.
  destruct (Ascii.eqb_spec c sep) as [-> | _]; [contradiction |].
  now rewrite IH.
Qed.

Lemma split_chars_at sep a b :
  sep ∉ a -> split_chars sep (a ++ sep :: b) = a :: split_chars sep b.
Proof.
  induction a as [| c a IH]; intros H; simpl.
  - now rewrite Ascii.eqb_refl.
  - rewrite not_elem_of_cons in H. destruct H as [Hne H].
    destruct (Ascii.eqb_spec c sep) as [-> | _]; [contradiction |].
    now rewrite IH.
Qed.

Lemma rstrip_char_one x l :
  last l <> Some x -> rstrip_char x (l ++ [x]) = l.
Proof.
  intros H. unfold rstrip_char. rewrite rev_app_distr. simpl.
  rewrite Ascii.eqb_refl.
  destruct (rev l) as [| c r] eqn:Er; simpl.
  - apply (f_equal (@rev _)) in Er. rewrite rev_involutive in Er. now subst.
  - destruct (Ascii.eqb_spec c x) as [-> | _].
    + exfalso. apply H. apply (f_equal (@rev _)) in Er.
      rewrite rev_involutive in Er. subst l. simpl. now rewrite last_snoc.
    + rewrite <- Er. apply rev_involutive.
Qed.
End PyTextFacts.

Module CliFacts.
Import Cli.

Section WithInt.
Variable py_int : string -> option Z.

Lemma pick_listed dict choice code :
  pick py_int dict choice = Some code -> code ∈ dict.*2.
Proof.
  unfold pick. destruct (PyText.isdigit choice).
  - destruct (py_int choice) as [n |]; [| discriminate].
    destruct (_ && _); [| discriminate].
    destruct (dict !! Z.to_nat (n - 1)) as [[name c] |] eqn:El; [| discriminate].
    simpl. intros [= <-]. apply list_elem_of_fmap. exists (name, c).
    split; [reflexivity |]. eapply list_elem_of_lookup_2, El.
  - case_bool_decide; [| discriminate]. now intros [= <-].
Qed.

Lemma pick_typed dict choice code :
  PyText.isdigit choice = false ->
  pick py_int dict choice = Some code -> code = choice.
Proof.
  unfold pick. intros ->. case_bool_decide; [| discriminate]. now intros [= <-].
Qed.

Lemma select_language_spec dict inputs code rest :
  select_language py_int dict inputs = Returned code rest ->
  code ∈ dict.*2 /\
  exists before l,
    inputs = before ++ Line l :: rest /\
    pick py_int dict (PyText.lower (PyStr.strip l)) = Some code.
Proof.
  induction inputs as [| [l |] inputs IH]; simpl; try discriminate.
  destruct (pick py_int dict (PyText.lower (PyStr.strip l))) as [c |] eqn:Ep.
  - intros [= <- <-]. split; [eapply pick_listed, Ep |].
    exists [], l. split; [reflexivity | exact Ep].
  - intros H. destruct (IH H) as (Hin & before & l' & -> & Hp).
    split; [exact Hin |]. exists (Line l :: before), l'. split; [reflexivity | exact Hp].
Qed.

Lemma select_language_typed dict inputs code rest :
  Forall (fun i => match i with
                   | Line l => PyText.isdigit (PyText.lower (PyStr.strip l)) = false
                   | KeyboardInterrupt => True
                   end) inputs ->
  select_language py_int dict inputs = Returned code rest ->
  PyText.lower code = code.
Proof.
  intros Hall H. destruct (select_language_spec _ _ _ _ H)
    as (_ & before & l & -> & Hp).
  apply Forall_app in Hall as [_ Hall]. apply Forall_cons in Hall as [Hl _].
  apply (pick_typed _ _ _ Hl) in Hp. subst code. apply PyTextFacts.lower_idem.
Qed.

Lemma read_chunk_duration_spec inputs d rest :
  read_chunk_duration py_int inputs = Returned d rest ->
  (2 <= d <= 5)%Z /\ exists before l, inputs = before ++ Line l :: rest.
Proof.
  induction inputs as [| [l |] inputs IH]; simpl; try discriminate.
  assert (Hrec : read_chunk_duration py_int inputs = Returned d rest ->
                 (2 <= d <= 5)%Z /\
                 exists before l', Line l :: inputs = before ++ Line l' :: rest).
  { intros H. destruct (IH H) as (Hd & before & l' & ->).
    split; [exact Hd |]. now exists (Line l :: before), l'. }
  destruct (PyStr.truthy (PyStr.strip l)); simpl.
  - destruct (py_int (PyStr.strip l)) as [n |]; [| exact Hrec].
    destruct (Z.leb_spec 2 n), (Z.leb_spec n 5); simpl; try exact Hrec.
    intros [= <- <-]. split; [lia |]. now exists [], l.
  - intros [= <- <-]. split; [lia |]. now exists [], l.
Qed.

(** *** The loops, outcome by outcome *)

Lemma select_language_returned dict inputs code rest :
  select_language py_int dict inputs = Returned code rest <->
  exists before l,
    inputs = before ++ Line l :: rest /\
    Forall (rejected py_int dict) before /\
    pick py_int dict (PyText.lower (PyStr.strip l)) = Some code.
Proof.
  split.
  - induction inputs as [| [l |] inputs IH]; simpl; try discriminate.
    destruct (pick py_int dict (PyText.lower (PyStr.strip l))) as [c |] eqn:Ep.
    + intros [= <- <-]. exists [], l. repeat split; [constructor | exact Ep].
    + intros H. destruct (IH H) as (before & l' & -> & Hb & Hp).
      exists (Line l :: before), l'. repeat split; [| exact Hp].
      constructor; [exact Ep | exact Hb].
  - intros (before & l & -> & Hb & Hp).
    induction Hb as [| i before Hi Hb IH]; simpl.
    + now rewrite Hp.
    + destruct i as [l' |]; simpl in Hi; [| contradiction].
      rewrite Hi. exact IH.
Qed.

Lemma select_language_exited dict inputs :
  select_language py_int dict inputs = Exited <->
  exists before rest,
    inputs = before ++ KeyboardInterrupt :: rest /\
    Forall (rejected py_int dict) before.
Proof.
  split.
  - induction inputs as [| [l |] inputs IH]; simpl; try discriminate.
    + destruct (pick py_int dict (PyText.lower (PyStr.strip l)))
        as [c |] eqn:Ep; [discriminate |].
      intros H. destruct (IH H) as (before & rest & -> & Hb).
      exists (Line l :: before), rest. split; [reflexivity |].
      constructor; [exact Ep | exact Hb].
    + intros _. exists [], inputs. split; [reflexivity | constructor].
  - intros (before & rest & -> & Hb).
    induction Hb as [| i before Hi Hb IH]; simpl; [reflexivity |].
    destruct i as [l' |]; simpl in Hi; [| contradiction].
    rewrite Hi. exact IH.
Qed.

Lemma select_language_loops dict inputs :
  select_language py_int dict inputs = Loops <->
  Forall (rejected py_int dict) inputs.
Proof.
  split.
  - induction inputs as [| [l |] inputs IH]; simpl; try discriminate.
    + intros _. constructor.
    + destruct (pick py_int dict (PyText.lower (PyStr.strip l)))
        as [c |] eqn:Ep; [discriminate |].
      intros H. constructor; [exact Ep | exact (IH H)].
  - intros Hb.
    induction Hb as [| i before Hi Hb IH]; simpl; [reflexivity |].
    destruct i as [l' |]; simpl in Hi; [| contradiction].
    rewrite Hi. exact IH.
Qed.

Lemma select_language_never_eof dict inputs :
  select_language py_int dict inputs <> RaisesEOFError.
Proof.
  induction inputs as [| [l |] inputs IH]; simpl; try discriminate.
  destruct (pick py_int dict (PyText.lower (PyStr.strip l)));
    [discriminate | exact IH].
Qed.

Lemma truthy_false_empty s : PyStr.truthy s = false <-> s = EmptyString.
Proof. destruct s; simpl; split; intros H; congruence. Qed.

(** One turn of the loop that asks for the chunk duration. *)
Lemma read_chunk_duration_line l inputs :
  (forall d, settles py_int l d ->
             read_chunk_duration py_int (Line l :: inputs) = Returned d inputs) /\
  (unsettled py_int (Line l) ->
   read_chunk_duration py_int (Line l :: inputs)
   = read_chunk_duration py_int inputs) /\
  ((exists d, settles py_int l d) \/ unsettled py_int (Line l)).
Proof.
  unfold settles, unsettled. simpl.
  destruct (PyStr.truthy (PyStr.strip l)) eqn:Et; simpl.
  - assert (Hne : PyStr.strip l <> EmptyString).
    { intros He. apply truthy_false_empty in He. congruence. }
    destruct (py_int (PyStr.strip l)) as [n |] eqn:Ei.
    + destruct (Z.leb_spec 2 n), (Z.leb_spec n 5); simpl;
        (split; [intros d [[He _] | (_ & [= <-] & Hd)];
                 [contradiction | reflexivity || lia] |]);
        (split; [intros [_ Hn]; reflexivity || (exfalso; apply Hn; lia) |]);
        try (right; split; [exact Hne | lia]).
      left. exists n. right. repeat split; auto.
    + split; [intros d [[He _] | (_ & [=] & _)]; contradiction |].
      split; [reflexivity |]. right. split; [exact Hne | exact I].
  - apply truthy_false_empty in Et.
    split; [intros d [[_ ->] | (Hne & _)]; [reflexivity | contradiction] |].
    split; [intros [Hne _]; contradiction |].
    left. exists 3%Z. left. split; [exact Et | reflexivity].
Qed.

Lemma settles_unique l d d' :
  settles py_int l d -> settles py_int l d' -> d = d'.
Proof.
  intros [[He ->] | (Hne & Hi & _)] [[He' ->] | (Hne' & Hi' & _)];
    try contradiction; congruence.
Qed.

Lemma settles_not_unsettled l d :
  settles py_int l d -> ~ unsettled py_int (Line l).
Proof.
  intros [[He _] | (_ & Hi & Hd)] [Hne Hn]; [contradiction |].
  rewrite Hi in Hn. contradiction.
Qed.

Lemma read_chunk_duration_returned inputs d rest :
  read_chunk_duration py_int inputs = Returned d rest <->
  exists before l,
    inputs = before ++ Line l :: rest /\
    Forall (unsettled py_int) before /\ settles py_int l d.
Proof.
  split.
  - induction inputs as [| [l |] inputs IH]; try discriminate.
    destruct (read_chunk_duration_line l inputs) as (Hs & Hu & [[d' Hd'] | Hun]).
    + rewrite (Hs d' Hd'). intros [= <- <-].
      exists [], l. repeat split; [constructor | exact Hd'].
    + rewrite (Hu Hun). intros H.
      destruct (IH H) as (before & l' & -> & Hb & Hp).
      exists (Line l :: before), l'. repeat split; [| exact Hp].
      constructor; [exact Hun | exact Hb].
  - intros (before & l & -> & Hb & Hp).
    induction Hb as [| i before Hi Hb IH].
    + simpl app. apply (proj1 (read_chunk_duration_line l rest)), Hp.
    + destruct i as [l' |]; [| simpl in Hi; contradiction].
      simpl app.
      rewrite (proj1 (proj2 (read_chunk_duration_line l' _)) Hi). exact IH.
Qed.

Lemma read_chunk_duration_exited inputs :
  read_chunk_duration py_int inputs = Exited <->
  exists before rest,
    inputs = before ++ KeyboardInterrupt :: rest /\
    Forall (unsettled py_int) before.
Proof.
  split.
  - induction inputs as [| [l |] inputs IH]; try discriminate.
    + destruct (read_chunk_duration_line l inputs)
        as (Hs & Hu & [[d' Hd'] | Hun]).
      * rewrite (Hs d' Hd'). discriminate.
      * rewrite (Hu Hun). intros H.
        destruct (IH H) as (before & rest & -> & Hb).
        exists (Line l :: before), rest. split; [reflexivity |].
        constructor; [exact Hun | exact Hb].
    + intros _. exists [], inputs. split; [reflexivity | constructor].
  - intros (before & rest & -> & Hb).
    induction Hb as [| i before Hi Hb IH]; [reflexivity |].
    destruct i as [l' |]; [| simpl in Hi; contradiction].
    simpl app.
    rewrite (proj1 (proj2 (read_chunk_duration_line l' _)) Hi). exact IH.
Qed.

Lemma read_chunk_duration_eof inputs :
  read_chunk_duration py_int inputs = RaisesEOFError <->
  Forall (unsettled py_int) inputs.
Proof.
  split.
  - induction inputs as [| [l |] inputs IH]; try discriminate.
    + intros _. constructor.
    + destruct (read_chunk_duration_line l inputs)
        as (Hs & Hu & [[d' Hd'] | Hun]).
      * rewrite (Hs d' Hd'). discriminate.
      * rewrite (Hu Hun). intros H. constructor; [exact Hun | exact (IH H)].
  - intros Hb.
    induction Hb as [| i before Hi Hb IH]; [reflexivity |].
    destruct i as [l' |]; [| simpl in Hi; contradiction].
    rewrite (proj1 (proj2 (read_chunk_duration_line l' _)) Hi). exact IH.
Qed.

Lemma read_chunk_duration_never_loops inputs :
  read_chunk_duration py_int inputs <> Loops.
Proof.
  induction inputs as [| [l |] inputs IH]; try discriminate.
  destruct (read_chunk_duration_line l inputs) as (Hs & Hu & [[d' Hd'] | Hun]).
  - rewrite (Hs d' Hd'). discriminate.
  - rewrite (Hu Hun). exact IH.
Qed.

Lemma settles_range l d : settles py_int l d -> (2 <= d <= 5)%Z.
Proof. intros [[_ ->] | (_ & _ & Hd)]; lia. Qed.
End WithInt.
End CliFacts.

(** ** Theorems on the command line and the window *)

(** X13: [select_language] returns a code and leaves the rest of the input
    exactly when the input is a run of lines that select nothing, then a
    line that selects that code, then the rest: no line before the selecting
    one is skipped and none after it is read.  The code returned is one of
    the values of the dictionary.  The function ends the program with
    [exit(0)] exactly when a Ctrl+C comes after a run of lines that select
    nothing; it keeps asking for ever exactly when every line selects
    nothing; it never lets the [EOFError] of [input()] escape. *)
Theorem select_language_returns_a_listed_code
    (py_int : string -> option Z) (language_dict : list (string * string))
    (inputs : list Cli.Input) :
  (forall (code : string) (rest : list Cli.Input),
      Cli.select_language py_int language_dict inputs = Cli.Returned code rest
      <-> exists (before : list Cli.Input) (l : string),
            inputs = before ++ Cli.Line l :: rest /\
            Forall (Cli.rejected py_int language_dict) before /\
            Cli.pick py_int language_dict (PyText.lower (PyStr.strip l))
            = Some code) /\
  (forall (code : string) (rest : list Cli.Input),
      Cli.select_language py_int language_dict inputs = Cli.Returned code rest ->
      code ∈ language_dict.*2) /\
  (Cli.select_language py_int language_dict inputs = Cli.Exited
   <-> exists before rest : list Cli.Input,
         inputs = before ++ Cli.KeyboardInterrupt :: rest /\
         Forall (Cli.rejected py_int language_dict) before) /\
  (Cli.select_language py_int language_dict inputs = Cli.Loops
   <-> Forall (Cli.rejected py_int language_dict) inputs) /\
  Cli.select_language py_int language_dict inputs <> Cli.RaisesEOFError.
Proof.
  split; [intros code rest; apply CliFacts.select_language_returned |].
  split; [intros code rest H;
          exact (proj1 (CliFacts.select_language_spec _ _ _ _ _ H)) |].
  split; [apply CliFacts.select_language_exited |].
  split; [apply CliFacts.select_language_loops
         | apply CliFacts.select_language_never_eof].
Qed.

Lemma select_language_returns_a_listed_code_witness :
  Cli.select_language int_of_decimal Cli.LANGUAGES
    [Cli.Line "klingon"; Cli.Line "0"; Cli.Line "  FR "; Cli.Line "7"]
  = Cli.Returned "fr"%string [Cli.Line "7"] /\
  "fr"%string ∈ Cli.LANGUAGES.*2 /\
  Cli.select_language int_of_decimal Cli.LANGUAGES
    [Cli.Line "klingon"; Cli.KeyboardInterrupt; Cli.Line "fr"]
  = Cli.Exited.
Proof.
  assert (H : Cli.select_language int_of_decimal Cli.LANGUAGES
                [Cli.Line "klingon"; Cli.Line "0"; Cli.Line "  FR ";
                 Cli.Line "7"]
              = Cli.Returned "fr"%string [Cli.Line "7"]).
  { apply (proj1 (select_language_returns_a_listed_code int_of_decimal
                    Cli.LANGUAGES _)).
    exists [Cli.Line "klingon"; Cli.Line "0"], "  FR "%string.
    split; [reflexivity |].
    split; [repeat constructor | vm_compute; reflexivity]. }
  split; [exact H |].
  split; [exact (proj1 (proj2 (select_language_returns_a_listed_code _ _ _))
                   _ _ H) |].
  apply (proj1 (proj2 (proj2 (select_language_returns_a_listed_code
                                int_of_decimal Cli.LANGUAGES _)))).
  exists [Cli.Line "klingon"], [Cli.Line "fr"].
  split; [reflexivity | repeat constructor].
Defined.

(** X14: when the line, stripped and lower-cased, is a digit string that
    [int] reads as [k], [select_language] returns the code of the [k]-th
    entry of the dictionary if [1 <= k <= len(languages)], and otherwise
    rejects the line and reads the next one. *)
Theorem select_language_by_number
    (py_int : string -> option Z) (language_dict : list (string * string))
    (l : string) (rest : list Cli.Input) (k : Z) :
  PyText.isdigit (PyText.lower (PyStr.strip l)) = true ->
  py_int (PyText.lower (PyStr.strip l)) = Some k ->
  ((1 <= k <= Z.of_nat (length language_dict))%Z ->
   exists name code,
     language_dict !! Z.to_nat (k - 1) = Some (name, code) /\
     Cli.select_language py_int language_dict (Cli.Line l :: rest)
     = Cli.Returned code rest) /\
  ((k < 1 \/ Z.of_nat (length language_dict) < k)%Z ->
   Cli.select_language py_int language_dict (Cli.Line l :: rest)
   = Cli.select_language py_int language_dict rest).
Proof.
  intros Hd Hk. simpl. unfold Cli.pick. rewrite Hd, Hk. split.
  - intros Hr.
    destruct (language_dict !! Z.to_nat (k - 1)) as [[name code] |] eqn:El.
    + exists name, code. split; [reflexivity |].
      destruct (Z.leb_spec 0 (k - 1)); [| lia].
      destruct (Z.ltb_spec (k - 1) (Z.of_nat (length language_dict))); [| lia].
      reflexivity.
    + apply lookup_ge_None in El. lia.
  - intros Hr.
    destruct (Z.leb_spec 0 (k - 1)); simpl; [| reflexivity].
    destruct (Z.ltb_spec (k - 1) (Z.of_nat (length language_dict)));
      [lia | reflexivity].
Qed.

Lemma select_language_by_number_witness :
  Cli.select_language int_of_decimal Cli.LANGUAGES [Cli.Line " 10 "]
  = Cli.Returned "zh-CN"%string [] /\
  Cli.select_language int_of_decimal Cli.LANGUAGES [Cli.Line "25"]
  = Cli.select_language int_of_decimal Cli.LANGUAGES [].
Proof.
  split.
  - assert (Hd : PyText.isdigit (PyText.lower (PyStr.strip " 10 ")) = true)
      by (vm_compute; reflexivity).
    assert (Hk : int_of_decimal (PyText.lower (PyStr.strip " 10 ")) = Some 10%Z)
      by (vm_compute; reflexivity).
    assert (Hr : (1 <= 10 <= Z.of_nat (length Cli.LANGUAGES))%Z)
      by (vm_compute; split; discriminate).
    destruct (proj1 (select_language_by_number int_of_decimal Cli.LANGUAGES
                       " 10 " [] 10 Hd Hk) Hr) as (name & code & El & E).
    assert (Ec : code = "zh-CN"%string) by (vm_compute in El; congruence).
    rewrite <- Ec. exact E.
  - assert (Hd : PyText.isdigit (PyText.lower (PyStr.strip "25")) = true)
      by (vm_compute; reflexivity).
    assert (Hk : int_of_decimal (PyText.lower (PyStr.strip "25")) = Some 25%Z)
      by (vm_compute; reflexivity).
    assert (Hr : (25 < 1 \/ Z.of_nat (length Cli.LANGUAGES) < 25)%Z)
      by (right; vm_compute; reflexivity).
    exact (proj2 (select_language_by_number int_of_decimal Cli.LANGUAGES
                    "25" [] 25 Hd Hk) Hr).
Defined.

(** X15: [select_language] lower-cases what is typed before it looks it up
    among the codes, so a code with a capital letter in it (such as
    [zh-CN]) is never returned for a typed code: as long as no line is a
    digit string, a returned code is its own lower-case form. *)
Theorem capital_codes_cannot_be_typed
    (py_int : string -> option Z) (language_dict : list (string * string))
    (inputs : list Cli.Input) (code : string) (rest : list Cli.Input) :
  PyText.lower code <> code ->
  Forall (fun i => match i with
                   | Cli.Line l =>
                       PyText.isdigit (PyText.lower (PyStr.strip l)) = false
                   | Cli.KeyboardInterrupt => True
                   end) inputs ->
  Cli.select_language py_int language_dict inputs <> Cli.Returned code rest.
Proof.
  intros Hne Hall H. apply Hne.
  eapply CliFacts.select_language_typed; eassumption.
Qed.

Lemma capital_codes_cannot_be_typed_witness :
  "zh-CN"%string ∈ Cli.LANGUAGES.*2 /\
  Cli.select_language int_of_decimal Cli.LANGUAGES
    [Cli.Line "zh-CN"; Cli.Line "ZH-cn"; Cli.Line "es"]
  <> Cli.Returned "zh-CN"%string [Cli.Line "es"].
Proof.
  split; [vm_compute; repeat (first [left | right]) |].
  apply capital_codes_cannot_be_typed.
  - vm_compute. discriminate.
  - repeat constructor.
Defined.

(** X16: the loop of [main] that asks for the chunk duration returns a
    duration and leaves the rest of the input exactly when the input is a
    run of lines that are not blank and that [int] rejects or reads as a
    number below 2 or above 5, then a line that settles the duration, then
    the rest; a blank line settles it as 3, any other line as the number
    from 2 to 5 that [int] reads.  So the duration returned always lies
    between 2 and 5.  The loop ends the program with [exit(0)] exactly when
    a Ctrl+C comes after a run of such lines, lets the [EOFError] of
    [input()] escape exactly when every line is such a line, and never asks
    for ever. *)
Theorem chunk_duration_in_range
    (py_int : string -> option Z) (inputs : list Cli.Input) :
  (forall (d : Z) (rest : list Cli.Input),
      Cli.read_chunk_duration py_int inputs = Cli.Returned d rest
      <-> exists (before : list Cli.Input) (l : string),
            inputs = before ++ Cli.Line l :: rest /\
            Forall (Cli.unsettled py_int) before /\
            Cli.settles py_int l d) /\
  (forall (d : Z) (rest : list Cli.Input),
      Cli.read_chunk_duration py_int inputs = Cli.Returned d rest ->
      (2 <= d <= 5)%Z) /\
  (forall (l : string) (rest : list Cli.Input),
      PyStr.strip l = EmptyString ->
      Cli.read_chunk_duration py_int (Cli.Line l :: rest)
      = Cli.Returned 3%Z rest) /\
  (Cli.read_chunk_duration py_int inputs = Cli.Exited
   <-> exists before rest : list Cli.Input,
         inputs = before ++ Cli.KeyboardInterrupt :: rest /\
         Forall (Cli.unsettled py_int) before) /\
  (Cli.read_chunk_duration py_int inputs = Cli.RaisesEOFError
   <-> Forall (Cli.unsettled py_int) inputs) /\
  Cli.read_chunk_duration py_int inputs <> Cli.Loops.
Proof.
  split; [intros d rest; apply CliFacts.read_chunk_duration_returned |].
  split; [intros d rest H;
          exact (proj1 (CliFacts.read_chunk_duration_spec _ _ _ _ H)) |].
  split.
  { intros l rest He.
    apply (proj1 (CliFacts.read_chunk_duration_line py_int l rest)).
    left. split; [exact He | reflexivity]. }
  split; [apply CliFacts.read_chunk_duration_exited |].
  split; [apply CliFacts.read_chunk_duration_eof
         | apply CliFacts.read_chunk_duration_never_loops].
Qed.

Lemma chunk_duration_in_range_witness :
  Cli.read_chunk_duration int_of_decimal
    [Cli.Line "1"; Cli.Line "six"; Cli.Line "60"; Cli.Line " 4 "; Cli.Line "2"]
  = Cli.Returned 4%Z [Cli.Line "2"] /\
  (2 <= 4 <= 5)%Z /\
  Cli.read_chunk_duration int_of_decimal [Cli.Line "   "; Cli.Line "2"]
  = Cli.Returned 3%Z [Cli.Line "2"].
Proof.
  assert (H : Cli.read_chunk_duration int_of_decimal
                [Cli.Line "1"; Cli.Line "six"; Cli.Line "60"; Cli.Line " 4 ";
                 Cli.Line "2"]
              = Cli.Returned 4%Z [Cli.Line "2"]).
  { apply (proj1 (chunk_duration_in_range int_of_decimal _)).
    exists [Cli.Line "1"; Cli.Line "six"; Cli.Line "60"], " 4 "%string.
    split; [reflexivity |]. split.
    - repeat constructor; vm_compute; try discriminate; intros [H1 H2];
        try discriminate; try (apply H1; reflexivity);
        try (apply H2; reflexivity).
    - right. vm_compute. repeat split; discriminate. }
  split; [exact H |].
  split; [exact (proj1 (proj2 (chunk_duration_in_range _ _)) _ _ H) |].
  exact (proj1 (proj2 (proj2 (chunk_duration_in_range int_of_decimal []))) 
           "   "%string [Cli.Line "2"] eq_refl).
Defined.

(** X17: whenever [main] gets as far as constructing the translator, the
    source and the target language it passes are codes of [LANGUAGES] and
    the chunk duration it passes lies between 2 and 5. *)
Theorem main_builds_valid_config
    (py_int : string -> option Z) (inputs : list Cli.Input)
    (cfg : Realtime.Config) (rest : list Cli.Input) :
  Cli.main py_int inputs = Cli.Returned cfg rest ->
  Realtime.source_lang cfg ∈ Cli.LANGUAGES.*2 /\
  Realtime.target_lang cfg ∈ Cli.LANGUAGES.*2 /\
  (2 <= Realtime.chunk_duration cfg <= 5)%Z.
Proof.
  unfold Cli.main.
  destruct (Cli.select_language py_int Cli.LANGUAGES inputs)
    as [src r1 | | |] eqn:E1; try discriminate.
  destruct (Cli.select_language py_int Cli.LANGUAGES r1)
    as [dst r2 | | |] eqn:E2; try discriminate.
  destruct (Cli.read_chunk_duration py_int r2)
    as [d r3 | | |] eqn:E3; try discriminate.
  intros [= <- <-].
  split; [exact (proj1 (CliFacts.select_language_spec _ _ _ _ _ E1)) |].
  split; [exact (proj1 (CliFacts.select_language_spec _ _ _ _ _ E2)) |].
  exact (proj1 (CliFacts.read_chunk_duration_spec _ _ _ _ E3)).
Qed.

Lemma main_builds_valid_config_witness :
  Cli.main int_of_decimal
    [Cli.Line "1"; Cli.Line "spanish"; Cli.Line " ES "; Cli.Line ""]
  = Cli.Returned (Realtime.mkConfig "en" "es" 3) [] /\
  (2 <= 3 <= 5)%Z.
Proof.
  assert (H : Cli.main int_of_decimal
                [Cli.Line "1"; Cli.Line "spanish"; Cli.Line " ES "; Cli.Line ""]
              = Cli.Returned (Realtime.mkConfig "en" "es" 3) [])
    by (vm_compute; reflexivity).
  split; [exact H |].
  exact (proj2 (proj2 (main_builds_valid_config _ _ _ _ H))).
Defined.

(** X18: [get_language_code] undoes the format of the combobox entries: for
    a name and a code without an opening parenthesis, the code not ending
    in a closing one, the selection [name(code)] yields the code; a
    selection without an opening parenthesis raises [IndexError]. *)
Theorem get_language_code_round_trip :
  (forall name code : string,
      Gui.LPAREN ∉ String.list_ascii_of_string name ->
      Gui.LPAREN ∉ String.list_ascii_of_string code ->
      last (String.list_ascii_of_string code) <> Some Gui.RPAREN ->
      Gui.get_language_code
        (String.append name
           (String.String Gui.LPAREN
              (String.append code (String.String Gui.RPAREN EmptyString))))
      = Some code) /\
  (forall selection : string,
      Gui.LPAREN ∉ String.list_ascii_of_string selection ->
      Gui.get_language_code selection = None).
Proof.
  split.
  - intros name code Hn Hc Hl. unfold Gui.get_language_code.
    rewrite PyTextFacts.list_ascii_of_string_app. simpl.
    rewrite PyTextFacts.split_chars_at by exact Hn.
    rewrite PyTextFacts.list_ascii_of_string_app. simpl.
    rewrite PyTextFacts.split_chars_without.
    + simpl. rewrite PyTextFacts.rstrip_char_one by exact Hl.
      now rewrite String.string_of_list_ascii_of_string.
    + rewrite elem_of_app, list_elem_of_singleton.
      intros [H | H]; [contradiction | discriminate].
  - intros selection Hs. unfold Gui.get_language_code.
    now rewrite PyTextFacts.split_chars_without.
Qed.

Lemma get_language_code_round_trip_witness :
  Gui.get_language_code "Chinese (zh-CN)" = Some "zh-CN"%string /\
  Gui.get_language_code "Chinese" = None /\
  Gui.get_language_code <$> Gui.COMBOBOX_VALUES
  = Some <$> ["en"; "es"; "fr"; "de"; "zh-CN"; "ja"; "ar"; "hi"; "pt"; "ru";
              "ko"; "it"]%string.
Proof.
  destruct get_language_code_round_trip as [Hok Herr].
  split; [| split; [| vm_compute; reflexivity]].
  - apply (Hok "Chinese "%string "zh-CN"%string).
    + apply (bool_decide_eq_false_1 _). vm_compute. reflexivity.
    + apply (bool_decide_eq_false_1 _). vm_compute. reflexivity.
    + vm_compute. discriminate.
  - apply Herr. apply (bool_decide_eq_false_1 _). vm_compute. reflexivity.
Defined.

(** X19: [simple_translate] is settled by the first of its six calls
    (listen, recognize, translate, synthesize, play, clean up) that raises.
    Up to that call it has printed the messages of the steps before it and
    nothing else.  If the exception is an [Exception], the clause for it
    prints its one message and the function returns; otherwise (Ctrl+C) it
    escapes to the caller and nothing more is printed.  The translation has
    been played exactly when the playback returned, whether or not the
    clean-up after it raises.  When no call raises, the function plays the
    speech synthesized for the translation of the recognized text and ends
    its output with the completion message and the separator line. *)
Theorem simple_translate_plays_or_reports
    (env : SimpleExample.Env) (source_lang target_lang : string) :
  let r := SimpleExample.simple_translate env source_lang target_lang in
  let heard := [SimpleExample.Listening; SimpleExample.AudioCaptured;
                SimpleExample.Recognizing] in
  (forall e,
      SimpleExample.listen env = SimpleExample.Raise e ->
      r = SimpleExample.caught e
            (SimpleExample.mkOut [SimpleExample.Listening] [])) /\
  (forall audio,
      SimpleExample.listen env = SimpleExample.Ok audio ->
      (forall e,
          SimpleExample.recognize_google env audio source_lang
          = SimpleExample.Raise e ->
          r = SimpleExample.caught e (SimpleExample.mkOut heard [])) /\
      (forall text,
          SimpleExample.recognize_google env audio source_lang
          = SimpleExample.Ok text ->
          let said := heard ++ [SimpleExample.YouSaid text;
                                SimpleExample.Translating] in
          (forall e,
              SimpleExample.translate env text source_lang target_lang
              = SimpleExample.Raise e ->
              r = SimpleExample.caught e (SimpleExample.mkOut said [])) /\
          (forall translated,
              SimpleExample.translate env text source_lang target_lang
              = SimpleExample.Ok translated ->
              let shown := said ++ [SimpleExample.Translation translated;
                                    SimpleExample.SpeakingTranslation] in
              (forall e,
                  SimpleExample.gTTS env translated target_lang
                  = SimpleExample.Raise e ->
                  r = SimpleExample.caught e (SimpleExample.mkOut shown [])) /\
              (forall mp3,
                  SimpleExample.gTTS env translated target_lang
                  = SimpleExample.Ok mp3 ->
                  (forall e,
                      SimpleExample.play env mp3 = SimpleExample.Raise e ->
                      r = SimpleExample.caught e
                            (SimpleExample.mkOut shown [])) /\
                  (SimpleExample.play env mp3 = SimpleExample.Ok tt ->
                   (forall e,
                       SimpleExample.cleanup env mp3 = SimpleExample.Raise e ->
                       r = SimpleExample.caught e
                             (SimpleExample.mkOut shown [mp3])) /\
                   (SimpleExample.cleanup env mp3 = SimpleExample.Ok tt ->
                    r = (SimpleExample.Ok tt,
                         SimpleExample.mkOut
                           (shown ++ [SimpleExample.Done;
                                      SimpleExample.Separator])
                           [mp3]))))))) /\
  (forall e o,
      e <> SimpleExample.KeyboardInterrupt ->
      exists ev,
        SimpleExample.handler e = Some ev /\
        SimpleExample.caught e o
        = (SimpleExample.Ok tt,
           SimpleExample.mkOut (SimpleExample.log o ++ [ev])
             (SimpleExample.played o))) /\
  (forall o,
      SimpleExample.caught SimpleExample.KeyboardInterrupt o
      = (SimpleExample.Raise SimpleExample.KeyboardInterrupt, o)).
Proof.
  cbv zeta.
  unfold SimpleExample.simple_translate, SimpleExample.try_body,
    SimpleExample.bind, SimpleExample.call, SimpleExample.print,
    SimpleExample.play_audio.
  simpl.
  split; [intros e He; rewrite He; reflexivity |].
  split.
  { intros audio Ha. rewrite Ha.
    split; [intros e He; rewrite He; reflexivity |].
    intros text Ht. rewrite Ht. simpl.
    split; [intros e He; rewrite He; reflexivity |].
    intros translated Hr. rewrite Hr. simpl.
    split; [intros e He; rewrite He; reflexivity |].
    intros mp3 Hm. rewrite Hm. simpl.
    split; [intros e He; rewrite He; reflexivity |].
    intros Hp. rewrite Hp. simpl.
    split; [intros e He; rewrite He; reflexivity |].
    intros Hc. rewrite Hc. reflexivity. }
  split.
  - intros [] o H; try congruence; eexists; split; reflexivity.
  - reflexivity.
Qed.

Lemma simple_translate_plays_or_reports_witness :
  SimpleExample.simple_translate se_env_no_cleanup "en" "es"
  = SimpleExample.caught SimpleExample.OtherException
      (SimpleExample.mkOut
         [SimpleExample.Listening; SimpleExample.AudioCaptured;
          SimpleExample.Recognizing; SimpleExample.YouSaid "hello";
          SimpleExample.Translating; SimpleExample.Translation "hola";
          SimpleExample.SpeakingTranslation]
         [[Byte.x49; Byte.x44]]) /\
  SimpleExample.simple_translate se_env_interrupted "en" "es"
  = SimpleExample.caught SimpleExample.KeyboardInterrupt
      (SimpleExample.mkOut
         [SimpleExample.Listening; SimpleExample.AudioCaptured;
          SimpleExample.Recognizing; SimpleExample.YouSaid "hello";
          SimpleExample.Translating]
         []) /\
  SimpleExample.simple_translate se_env_interrupted "en" "es"
  = (SimpleExample.Raise SimpleExample.KeyboardInterrupt,
     SimpleExample.mkOut
       [SimpleExample.Listening; SimpleExample.AudioCaptured;
        SimpleExample.Recognizing; SimpleExample.YouSaid "hello";
        SimpleExample.Translating]
       []).
Proof.
  split; [| split; [| reflexivity]].
  - pose proof (proj1 (proj2 (simple_translate_plays_or_reports
                                se_env_no_cleanup "en" "es"))
                  [Byte.x52; Byte.x49] eq_refl) as H1.
    pose proof (proj2 H1 "hello"%string eq_refl) as H2.
    pose proof (proj2 H2 "hola"%string eq_refl) as H3.
    pose proof (proj2 H3 [Byte.x49; Byte.x44] eq_refl) as H4.
    pose proof (proj2 H4 eq_refl) as H5.
    exact (proj1 H5 SimpleExample.OtherException eq_refl).
  - pose proof (proj1 (proj2 (simple_translate_plays_or_reports
                                se_env_interrupted "en" "es"))
                  [Byte.x52; Byte.x49] eq_refl) as H1.
    pose proof (proj2 H1 "hello"%string eq_refl) as H2.
    exact (proj1 H2 SimpleExample.KeyboardInterrupt eq_refl).
Defined.
